(** * Apex (Edge): the assessment pipeline of [src/index.ts]

    A shallow embedding of the deal-qualification service: the heuristic
    scorer, the provider-response parser [safeJSON], the provider client
    [llmAssess], the deal listing [listDeals] and the request router
    [handle], followed by the properties the specification states about them.

    Conventions of the embedding.
    - A JavaScript string is the list of its UTF-16 code units.
    - A JavaScript number is NaN, an infinity, or the rational a finite
      binary64 number is.  Sums, differences, products, quotients and number
      literals are rounded as binary64 rounds them ([round64]: to the
      nearest representable number, a tie to the even significand, past the
      largest finite number to an infinity); on the scorer's operations the
      rounding is compared with the machine's ([round64_as_the_machine]).
      The sign of zero is not modelled.
    - An [async] function is a state transformer over the [world] (the four
      key-value stores, the secret store, the network, the clock); a rejected
      promise or a [throw] is the [Throw] outcome.
    - A store holds the values its JSON texts denote; its operations do not
      fail, and the time to live of a session record is not modelled.
    - An HTML page is the data it shows, without the markup. *)

From Stdlib Require Import ZArith QArith Qround Qpower Lia Lqa DecimalString Sorted.
From Stdlib Require Import PrimFloat FloatOps SpecFloat.
From Stdlib Require Uint63 Qcanon.
From stdpp Require Import gmap list strings.

#[local] Set Warnings "-register-all".
#[local] Set Warnings "-automation".


#[local] Open Scope Z_scope.

(** ** Strings *)

Definition code_unit := N.
Definition jsstring := list N.

(** A string literal of the source, as code units. *)
Fixpoint js (s : string) : jsstring :=
  match s with
  | EmptyString => []
  | String a r => Ascii.N_of_ascii a :: js r
  end.

Fixpoint jsstring_eqb (a b : jsstring) : bool :=
  match a, b with
  | [], [] => true
  | x :: a', y :: b' => N.eqb x y && jsstring_eqb a' b'
  | _, _ => false
  end.

(** [s.startsWith(p)], returning what follows the prefix. *)
Fixpoint strip_prefix (p s : jsstring) : option jsstring :=
  match p, s with
  | [], _ => Some s
  | x :: p', y :: s' => if N.eqb x y then strip_prefix p' s' else None
  | _ :: _, [] => None
  end.

Definition startsWith (s p : jsstring) : bool :=
  match strip_prefix p s with Some _ => true | None => false end.

(** ** Numbers *)

Inductive number :=
| NaN
| Inf (negative : bool)
| Num (q : Q).

Definition of_Z (z : Z) : number := Num (inject_Z z).

Definition Qsign (q : Q) : comparison := (Qnum q ?= 0).

(** *** Rounding to binary64 *)

(** The integer nearest to [q], a tie going to the even one. *)
Definition rne (q : Q) : Z :=
  let f := Qfloor q in
  match Qcompare (q - inject_Z f) (1 # 2) with
  | Lt => f
  | Gt => f + 1
  | Eq => if Z.even f then f else f + 1
  end.

(** The binade of a positive rational [m]: the [e] with 2^e <= m < 2^(e+1).
    The difference of the two bit lengths is [e] or [e + 1]. *)
Definition binade (m : Q) : Z :=
  let a := Z.log2 (Qnum m) - Z.log2 (Zpos (Qden m)) in
  if Qle_bool (Qpower 2 a) m then a else a - 1.

(** The binary64 exponent of a positive rational: its binade, from -1022 on
    (below it the numbers are subnormal, with the spacing of that binade). *)
Definition exponent (m : Q) : Z := Z.max (binade m) (-1022).

(** The multiple of 2^(exponent - 52) nearest to a positive rational, a tie
    going to the even multiple: 53 significant bits. *)
Definition nearest (m : Q) : Q :=
  let ulp := Qpower 2 (exponent m - 52) in
  (inject_Z (rne (m / ulp)) * ulp)%Q.

(** A positive rational rounded to binary64; [None] when the result passes
    the largest finite number, which is an infinity. *)
Definition round_magnitude (m : Q) : option Q :=
  let v := nearest m in
  if Qle_bool (Qpower 2 1024) v then None else Some (Qred v).

(** The binary64 number a real result is rounded to. *)
Definition round64 (q : Q) : number :=
  match Qcompare q 0 with
  | Eq => Num 0
  | Gt => match round_magnitude q with
          | Some v => Num v
          | None => Inf false
          end
  | Lt => match round_magnitude (- q) with
          | Some v => Num (Qred (- v))
          | None => Inf true
          end
  end.

(** *** Arithmetic *)

(** [a + b] on numbers. *)
Definition num_add (a b : number) : number :=
  match a, b with
  | NaN, _ | _, NaN => NaN
  | Inf s, Inf t => if Bool.eqb s t then Inf s else NaN
  | Inf s, Num _ | Num _, Inf s => Inf s
  | Num x, Num y => round64 (x + y)
  end.

(** [a - b] on numbers. *)
Definition num_sub (a b : number) : number :=
  match a, b with
  | NaN, _ | _, NaN => NaN
  | Inf s, Inf t => if Bool.eqb s t then NaN else Inf s
  | Inf s, Num _ => Inf s
  | Num _, Inf s => Inf (negb s)
  | Num x, Num y => round64 (x - y)
  end.

(** [a * b] on numbers. *)
Definition num_mul (a b : number) : number :=
  match a, b with
  | NaN, _ | _, NaN => NaN
  | Inf s, Inf t => Inf (xorb s t)
  | Inf s, Num y | Num y, Inf s =>
      match Qsign y with
      | Eq => NaN
      | Gt => Inf s
      | Lt => Inf (negb s)
      end
  | Num x, Num y => round64 (x * y)
  end.

(** [a / b] on numbers; a zero divisor is the positive zero. *)
Definition num_div (a b : number) : number :=
  match a, b with
  | NaN, _ | _, NaN => NaN
  | Inf _, Inf _ => NaN
  | Inf s, Num y => match Qsign y with Lt => Inf (negb s) | _ => Inf s end
  | Num _, Inf _ => Num 0
  | Num x, Num y =>
      match Qsign y with
      | Eq => match Qsign x with Eq => NaN | Gt => Inf false | Lt => Inf true end
      | _ => round64 (x / y)
      end
  end.

(** [Math.round]: the nearest integer, a tie going up.  No rounding to
    binary64 follows: the nearest integer of a binary64 number is one. *)
Definition Math_round (a : number) : number :=
  match a with
  | Num x => of_Z (Qfloor (x + (1 # 2)))
  | _ => a
  end.

(** [a <= b] on numbers; false when either is NaN. *)
Definition num_le (a b : number) : bool :=
  match a, b with
  | NaN, _ | _, NaN => false
  | Inf true, _ => true
  | _, Inf false => true
  | Inf false, _ => false
  | _, Inf true => false
  | Num x, Num y => if Qlt_le_dec y x then false else true
  end.

(** [a >= b]. *)
Definition num_ge (a b : number) : bool := num_le b a.

Definition Math_min (a b : number) : number :=
  match a, b with
  | NaN, _ | _, NaN => NaN
  | _, _ => if num_le a b then a else b
  end.

Definition Math_max (a b : number) : number :=
  match a, b with
  | NaN, _ | _, NaN => NaN
  | _, _ => if num_le a b then b else a
  end.

(** ** Values *)

Inductive jsval :=
| VUndefined
| VNull
| VBool (b : bool)
| VNum (n : number)
| VStr (s : jsstring)
| VArr (elems : list jsval)
| VObj (props : list (jsstring * jsval)).

(** The own property [k] of a property list, [undefined] when absent. *)
Fixpoint obj_get (props : list (jsstring * jsval)) (k : jsstring) : jsval :=
  match props with
  | [] => VUndefined
  | (k', v) :: rest => if jsstring_eqb k' k then v else obj_get rest k
  end.

(** [o[k] = v] for a key that is not an array index: an existing property
    keeps its place, a new one goes last. *)
Fixpoint obj_set (props : list (jsstring * jsval)) (k : jsstring) (v : jsval)
  : list (jsstring * jsval) :=
  match props with
  | [] => [(k, v)]
  | (k', v') :: rest =>
      if jsstring_eqb k' k then (k, v) :: rest else (k', v') :: obj_set rest k v
  end.

(** ** The heuristic scorer *)

(** The ScoreSet: the own properties of the [scores] object, all numbers. *)
Definition ScoreSet := list (jsstring * number).

(** The deal-and-scores payload given to the assessment functions.
    [scores = None] stands for an absent or falsy [scores] property. *)
Module Payload.
Record t := mk {
  account : jsstring;
  title : jsstring;
  value : jsval;
  stage : jsstring;
  scores : option ScoreSet;
  notes : jsstring
}.
End Payload.

(** [Object.values(input?.scores || {})] *)
Definition score_values (input : Payload.t) : list number :=
  match Payload.scores input with
  | Some s => map snd s
  | None => []
  end.

(** [vals.length ? vals.reduce((a, b) => a + b, 0) / vals.length : 3] *)
Definition average (vals : list number) : number :=
  match vals with
  | [] => of_Z 3
  | _ => num_div (fold_left num_add vals (of_Z 0)) (of_Z (Z.of_nat (length vals)))
  end.

(** [Math.max(0, Math.min(100, Math.round(avg * 20)))] *)
Definition total_of (avg : number) : number :=
  Math_max (of_Z 0) (Math_min (of_Z 100) (Math_round (num_mul avg (of_Z 20)))).

Definition tier_of (total : number) : jsstring :=
  if num_ge total (of_Z 80) then js "Strong"
  else if num_ge total (of_Z 60) then js "Workable"
  else js "Weak".

Definition decision_of (total : number) : jsstring :=
  if num_ge total (of_Z 80) then js "Go"
  else if num_ge total (of_Z 60) then js "Hold"
  else js "No-go".

Definition heuristic_marker : jsstring := js "Heuristic fallback scoring.".

Definition result_object (tier decision : jsstring) (total : number) (analysis : jsstring)
  : jsval :=
  VObj [ (js "tier", VStr tier);
         (js "go_hold_nogo", VStr decision);
         (js "total_score", VNum total);
         (js "analysis", VStr analysis) ].

Definition heuristicScore (input : Payload.t) : jsval :=
  let vals := score_values input in
  let avg := average vals in
  let total := total_of avg in
  let tier := tier_of total in
  let decision := decision_of total in
  result_object tier decision total heuristic_marker.

(** ** The scorer's arithmetic in binary64 *)

(** The binary64 number of a small natural number. *)
Definition binary64 (z : Z) : float := PrimFloat.of_uint63 (Uint63.of_Z z).

(** The rational a finite binary64 number is. *)
Definition binary64_value (x : float) : option Q :=
  match Prim2SF x with
  | S754_zero _ => Some 0%Q
  | S754_finite s m e =>
      Some (Qred ((if s then -1 else 1) * inject_Z (Zpos m) * Qpower 2 e))
  | _ => None
  end.

(** [vals.reduce((a, b) => a + b, 0) / vals.length * 20] with the operations
    of binary64. *)
Definition scaled_average_binary64 (vals : list float) : float :=
  PrimFloat.mul
    (PrimFloat.div (fold_left PrimFloat.add vals (binary64 0))
                   (binary64 (Z.of_nat (length vals))))
    (binary64 20).

Definition Zsum (zs : list Z) : Z := fold_right Z.add 0 zs.

(** The number a binary64 number is. *)
Definition binary64_number (x : float) : number :=
  match Prim2SF x with
  | S754_zero _ => Num 0
  | S754_finite s m e =>
      Num (Qred ((if s then -1 else 1) * inject_Z (Zpos m) * Qpower 2 e))
  | S754_infinity s => Inf s
  | S754_nan => NaN
  end.

(** The binary64 number written with one decimal, [d / 10]. *)
Definition binary64_tenths (d : Z) : float := PrimFloat.div (binary64 d) (binary64 10).

Definition number_eqb (a b : number) : bool :=
  match a, b with
  | NaN, NaN => true
  | Inf s, Inf t => Bool.eqb s t
  | Num x, Num y => (Qnum x =? Qnum y) && (Qden x =? Qden y)%positive
  | _, _ => false
  end.

(** The rational of the binary64 number written with one decimal, [d / 10]. *)
Definition tenths (d : Z) : Q :=
  match round64 (Qmake d 10) with
  | Num q => q
  | _ => 0%Q
  end.

(** Eight ratings as a form can carry them: 2.1, 3.0, 2.7, 2.9, 1.5, 4.3,
    2.9 and 4.4. *)
Definition close_ratings : list Z := [21; 30; 27; 29; 15; 43; 29; 44].

(** The payload with the given ratings under the eight names. *)
Definition rated (vals : list number) : Payload.t :=
  {| Payload.account := []; Payload.title := []; Payload.value := VNull;
     Payload.stage := []; Payload.notes := [];
     Payload.scores :=
       Some (zip (map js ["metrics"; "economic_buyer"; "decision_criteria";
                          "decision_process"; "paper_process"; "identified_pain";
                          "champion"; "competition"]%string) vals) |}.

(** The three operations of the scorer on two binary64 numbers, as the
    machine computes them and as [round64] does. *)
Definition machine_agrees (x y : float) : bool :=
  let a := binary64_number x in
  let b := binary64_number y in
  number_eqb (binary64_number (PrimFloat.add x y)) (num_add a b)
  && number_eqb (binary64_number (PrimFloat.div x y)) (num_div a b)
  && number_eqb (binary64_number (PrimFloat.mul x y)) (num_mul a b).

(** The total the scorer computes from an average whose product with 20 is
    the half below [T], compared with [T], to which the half rounds. *)
Definition half_agrees (T : Z) : bool :=
  number_eqb (total_of (round64 (inject_Z (2 * T - 1) / 40))) (of_Z T).

(** The integers from [a] to [b]. *)
Definition Zrange (a b : Z) : list Z := map (fun i => a + Z.of_nat i) (seq 0 (Z.to_nat (b + 1 - a))).

(** ** [String.prototype.trim] and the fence-stripping replacements *)

(** White space and line terminators of ECMAScript, which [trim] removes. *)
Definition is_js_space (c : N) : bool :=
  (N.leb 9 c && N.leb c 13) || N.eqb c 32 || N.eqb c 160 || N.eqb c 5760
  || (N.leb 8192 c && N.leb c 8202) || N.eqb c 8232 || N.eqb c 8233
  || N.eqb c 8239 || N.eqb c 8287 || N.eqb c 12288 || N.eqb c 65279.

Fixpoint trimStart (s : jsstring) : jsstring :=
  match s with
  | c :: r => if is_js_space c then trimStart r else s
  | [] => []
  end.

Definition trimEnd (s : jsstring) : jsstring := rev (trimStart (rev s)).

Definition trim (s : jsstring) : jsstring := trimEnd (trimStart s).

(** The code unit of the backtick. *)
Definition backtick : N := 96.

(** A character of the pattern [json] under the [i] flag: either case. *)
Definition eq_nocase (lower c : N) : bool := N.eqb c lower || N.eqb c (lower - 32).

(** [s.replace(/^```json/i, "")] *)
Definition strip_fence_json (s : jsstring) : jsstring :=
  match s with
  | b1 :: b2 :: b3 :: j :: s' :: o :: n :: r =>
      if N.eqb b1 backtick && N.eqb b2 backtick && N.eqb b3 backtick
         && eq_nocase 106 j && eq_nocase 115 s' && eq_nocase 111 o && eq_nocase 110 n
      then r else s
  | _ => s
  end.

(** The Markdown fence, three backticks. *)
Definition fence : jsstring := [backtick; backtick; backtick].

(** [s.replace(/^```/, "")] *)
Definition strip_fence_open (s : jsstring) : jsstring :=
  match strip_prefix fence s with
  | Some r => r
  | None => s
  end.

(** [s.replace(/```$/, "")] *)
Definition strip_fence_close (s : jsstring) : jsstring :=
  match strip_prefix fence (rev s) with
  | Some r => rev r
  | None => s
  end.

(** The cleaning expression of [safeJSON]. *)
Definition strip_fences (maybe : jsstring) : jsstring :=
  strip_fence_close (strip_fence_open (strip_fence_json (trim maybe))).

(** ** [JSON.parse]

    The grammar of ECMA-404 as a one-pass lexer, one code unit at a time,
    followed by a pushdown recogniser over the tokens.  Both are total. *)

Inductive token :=
| TLBrace | TRBrace | TLBracket | TRBracket | TColon | TComma
| TString (s : jsstring)
| TNumber (q : Q)
| TTrue | TFalse | TNull.

(** What has been read of a number: sign, the digits of integer and fraction
    as one integer, how many of them are fraction digits, and the exponent. *)
Record numacc := {
  n_neg : bool;
  n_digits : Z;
  n_frac : Z;
  e_neg : bool;
  e_digits : Z
}.

Inductive numphase :=
| NMinus | NZero | NInt | NDot | NFrac | NExp | NExpSign | NExpDigits.

Inductive literal := LTrue | LFalse | LNull.

Definition literal_text (l : literal) : jsstring :=
  match l with
  | LTrue => js "true"
  | LFalse => js "false"
  | LNull => js "null"
  end.

Definition literal_token (l : literal) : token :=
  match l with
  | LTrue => TTrue
  | LFalse => TFalse
  | LNull => TNull
  end.

(** Where the lexer is: between tokens; inside a string (the characters so
    far, last first), after a backslash, inside a [\u] escape; inside a
    literal name of which [seen] characters are read; inside a number. *)
Inductive mode :=
| MIdle
| MString (acc : jsstring)
| MEscape (acc : jsstring)
| MUnicode (more : nat) (code : N) (acc : jsstring)
| MLiteral (l : literal) (seen : nat)
| MNumber (ph : numphase) (a : numacc).

Definition is_json_space (c : N) : bool :=
  N.eqb c 32 || N.eqb c 9 || N.eqb c 10 || N.eqb c 13.

Definition is_digit (c : N) : bool := N.leb 48 c && N.leb c 57.

Definition digit_value (c : N) : Z := Z.of_N c - 48.

Definition hex_value (c : N) : option N :=
  if N.leb 48 c && N.leb c 57 then Some (c - 48)%N
  else if N.leb 65 c && N.leb c 70 then Some (c - 55)%N
  else if N.leb 97 c && N.leb c 102 then Some (c - 87)%N
  else None.

Definition num_start (negative : bool) (d : Z) : numacc :=
  {| n_neg := negative; n_digits := d; n_frac := 0; e_neg := false; e_digits := 0 |}.

Definition push_digit (a : numacc) (d : Z) : numacc :=
  {| n_neg := n_neg a; n_digits := 10 * n_digits a + d; n_frac := n_frac a;
     e_neg := e_neg a; e_digits := e_digits a |}.

Definition push_frac (a : numacc) (d : Z) : numacc :=
  {| n_neg := n_neg a; n_digits := 10 * n_digits a + d; n_frac := n_frac a + 1;
     e_neg := e_neg a; e_digits := e_digits a |}.

Definition push_exp (a : numacc) (d : Z) : numacc :=
  {| n_neg := n_neg a; n_digits := n_digits a; n_frac := n_frac a;
     e_neg := e_neg a; e_digits := 10 * e_digits a + d |}.

Definition exp_negative (a : numacc) : numacc :=
  {| n_neg := n_neg a; n_digits := n_digits a; n_frac := n_frac a;
     e_neg := true; e_digits := e_digits a |}.

(** The rational a number literal denotes. *)
Definition num_value (a : numacc) : Q :=
  let m := if n_neg a then - n_digits a else n_digits a in
  let e := (if e_neg a then - e_digits a else e_digits a) - n_frac a in
  Qred (inject_Z m * Qpower (10 # 1) e).

Definition num_final (ph : numphase) : bool :=
  match ph with
  | NZero | NInt | NFrac | NExpDigits => true
  | _ => false
  end.

(** One more character of a number, when the grammar allows it. *)
Definition number_step (ph : numphase) (a : numacc) (c : N) : option (numphase * numacc) :=
  let is_e := N.eqb c 101 || N.eqb c 69 in
  match ph with
  | NMinus =>
      if N.eqb c 48 then Some (NZero, a)
      else if is_digit c then Some (NInt, push_digit a (digit_value c))
      else None
  | NZero =>
      if N.eqb c 46 then Some (NDot, a)
      else if is_e then Some (NExp, a)
      else None
  | NInt =>
      if is_digit c then Some (NInt, push_digit a (digit_value c))
      else if N.eqb c 46 then Some (NDot, a)
      else if is_e then Some (NExp, a)
      else None
  | NDot =>
      if is_digit c then Some (NFrac, push_frac a (digit_value c)) else None
  | NFrac =>
      if is_digit c then Some (NFrac, push_frac a (digit_value c))
      else if is_e then Some (NExp, a)
      else None
  | NExp =>
      if N.eqb c 43 then Some (NExpSign, a)
      else if N.eqb c 45 then Some (NExpSign, exp_negative a)
      else if is_digit c then Some (NExpDigits, push_exp a (digit_value c))
      else None
  | NExpSign | NExpDigits =>
      if is_digit c then Some (NExpDigits, push_exp a (digit_value c)) else None
  end.

(** A character read between tokens. *)
Definition idle_step (c : N) : option (mode * list token) :=
  if is_json_space c then Some (MIdle, [])
  else if N.eqb c 123 then Some (MIdle, [TLBrace])
  else if N.eqb c 125 then Some (MIdle, [TRBrace])
  else if N.eqb c 91 then Some (MIdle, [TLBracket])
  else if N.eqb c 93 then Some (MIdle, [TRBracket])
  else if N.eqb c 58 then Some (MIdle, [TColon])
  else if N.eqb c 44 then Some (MIdle, [TComma])
  else if N.eqb c 34 then Some (MString [], [])
  else if N.eqb c 45 then Some (MNumber NMinus (num_start true 0), [])
  else if N.eqb c 48 then Some (MNumber NZero (num_start false 0), [])
  else if is_digit c then Some (MNumber NInt (num_start false (digit_value c)), [])
  else if N.eqb c 116 then Some (MLiteral LTrue 1, [])
  else if N.eqb c 102 then Some (MLiteral LFalse 1, [])
  else if N.eqb c 110 then Some (MLiteral LNull 1, [])
  else None.

(** The character an escape sequence [\c] stands for. *)
Definition escape_value (c : N) : option N :=
  if N.eqb c 34 then Some 34%N
  else if N.eqb c 92 then Some 92%N
  else if N.eqb c 47 then Some 47%N
  else if N.eqb c 98 then Some 8%N
  else if N.eqb c 102 then Some 12%N
  else if N.eqb c 110 then Some 10%N
  else if N.eqb c 114 then Some 13%N
  else if N.eqb c 116 then Some 9%N
  else None.

(** One step of the lexer: the next mode and the tokens completed. *)
Definition lex_step (m : mode) (c : N) : option (mode * list token) :=
  match m with
  | MIdle => idle_step c
  | MString acc =>
      if N.eqb c 34 then Some (MIdle, [TString (rev acc)])
      else if N.eqb c 92 then Some (MEscape acc, [])
      else if N.ltb c 32 then None
      else Some (MString (c :: acc), [])
  | MEscape acc =>
      if N.eqb c 117 then Some (MUnicode 3 0 acc, [])
      else match escape_value c with
           | Some x => Some (MString (x :: acc), [])
           | None => None
           end
  | MUnicode more code acc =>
      match hex_value c with
      | Some h =>
          let code' := (16 * code + h)%N in
          match more with
          | O => Some (MString (code' :: acc), [])
          | S k => Some (MUnicode k code' acc, [])
          end
      | None => None
      end
  | MLiteral l seen =>
      match nth_error (literal_text l) seen with
      | Some x =>
          if N.eqb c x
          then if Nat.eqb (S seen) (length (literal_text l))
               then Some (MIdle, [literal_token l])
               else Some (MLiteral l (S seen), [])
          else None
      | None => None
      end
  | MNumber ph a =>
      match number_step ph a c with
      | Some (ph', a') => Some (MNumber ph' a', [])
      | None =>
          if num_final ph
          then match idle_step c with
               | Some (m', ts) => Some (m', TNumber (num_value a) :: ts)
               | None => None
               end
          else None
      end
  end.

(** The lexer state: the mode and the tokens so far, or a syntax error. *)
Definition lex_state := option (mode * list token).

Definition lex_feed (st : lex_state) (c : N) : lex_state :=
  match st with
  | Some (m, out) =>
      match lex_step m c with
      | Some (m', ts) => Some (m', out ++ ts)
      | None => None
      end
  | None => None
  end.

Definition lex_run (s : jsstring) : lex_state := fold_left lex_feed s (Some (MIdle, [])).

(** At the end of the text a number may be pending; anything else open is an error. *)
Definition lex_finish (st : lex_state) : option (list token) :=
  match st with
  | Some (MIdle, out) => Some out
  | Some (MNumber ph a, out) => if num_final ph then Some (out ++ [TNumber (num_value a)]) else None
  | _ => None
  end.

Definition JSON_lex (s : jsstring) : option (list token) := lex_finish (lex_run s).

(** A container still open: an array with the elements read so far, or an
    object with the members read so far and the key whose value is awaited. *)
Inductive frame :=
| FArr (done : list jsval)
| FObj (done : list (jsstring * jsval)) (key : jsstring).

Inductive pstate :=
| SVal (stack : list frame)
| SArr0 (stack : list frame)
| SObj0 (stack : list frame)
| SKey (done : list (jsstring * jsval)) (stack : list frame)
| SColon (done : list (jsstring * jsval)) (key : jsstring) (stack : list frame)
| SDone (v : jsval) (stack : list frame).

(** The array index a property key is, when it is one: the canonical decimal
    text of an integer below 2^32 - 1. *)
Definition array_index (k : jsstring) : option Z :=
  match k with
  | [] => None
  | c :: r =>
      if forallb is_digit k && (negb (N.eqb c 48) || match r with [] => true | _ => false end)
      then let n := fold_left (fun acc d => 10 * acc + digit_value d) k 0 in
           if n <? 2 ^ 32 - 1 then Some n else None
      else None
  end.

Fixpoint insert_index (i : Z) (kv : jsstring * jsval) (l : list (Z * (jsstring * jsval)))
  : list (Z * (jsstring * jsval)) :=
  match l with
  | [] => [(i, kv)]
  | (j, kv') :: r => if i <? j then (i, kv) :: l else (j, kv') :: insert_index i kv r
  end.

(** The order in which an object lists its own properties: the array indices
    first, ascending, then the other keys in the order of their creation. *)
Definition own_property_order (props : list (jsstring * jsval)) : list (jsstring * jsval) :=
  let indices :=
    fold_right (fun kv acc => match array_index (fst kv) with
                              | Some i => insert_index i kv acc
                              | None => acc
                              end) [] props in
  map snd indices
  ++ List.filter (fun kv => match array_index (fst kv) with None => true | Some _ => false end)
                 props.

(** The object with the given members: a repeated key keeps its first place
    and its last value, and the properties are listed in their own order. *)
Definition make_object (members : list (jsstring * jsval)) : jsval :=
  VObj (own_property_order
          (fold_left (fun o kv => obj_set o (fst kv) (snd kv)) members [])).

(** The value a token is by itself, if any; a number literal is the binary64
    number nearest to what it denotes. *)
Definition scalar_of (t : token) : option jsval :=
  match t with
  | TString s => Some (VStr s)
  | TNumber q => Some (VNum (round64 q))
  | TTrue => Some (VBool true)
  | TFalse => Some (VBool false)
  | TNull => Some VNull
  | _ => None
  end.

(** A token where a value must begin, in the context [stack]. *)
Definition begin_value (stack : list frame) (t : token) : option pstate :=
  match t with
  | TLBracket => Some (SArr0 stack)
  | TLBrace => Some (SObj0 stack)
  | _ => match scalar_of t with
         | Some v => Some (SDone v stack)
         | None => None
         end
  end.

Definition parse_step (st : pstate) (t : token) : option pstate :=
  match st with
  | SVal stack => begin_value stack t
  | SArr0 stack =>
      match t with
      | TRBracket => Some (SDone (VArr []) stack)
      | _ => begin_value (FArr [] :: stack) t
      end
  | SObj0 stack =>
      match t with
      | TRBrace => Some (SDone (VObj []) stack)
      | TString k => Some (SColon [] k stack)
      | _ => None
      end
  | SKey done stack =>
      match t with
      | TString k => Some (SColon done k stack)
      | _ => None
      end
  | SColon done k stack =>
      match t with
      | TColon => Some (SVal (FObj done k :: stack))
      | _ => None
      end
  | SDone v (FArr done :: stack) =>
      match t with
      | TComma => Some (SVal (FArr (done ++ [v]) :: stack))
      | TRBracket => Some (SDone (VArr (done ++ [v])) stack)
      | _ => None
      end
  | SDone v (FObj done k :: stack) =>
      match t with
      | TComma => Some (SKey (done ++ [(k, v)]) stack)
      | TRBrace => Some (SDone (make_object (done ++ [(k, v)])) stack)
      | _ => None
      end
  | SDone _ [] => None
  end.

Definition parse_feed (st : option pstate) (t : token) : option pstate :=
  match st with
  | Some s => parse_step s t
  | None => None
  end.

Definition parse_tokens (ts : list token) : option jsval :=
  match fold_left parse_feed ts (Some (SVal [])) with
  | Some (SDone v []) => Some v
  | _ => None
  end.

(** [JSON.parse(s)]; [None] is the SyntaxError. *)
Definition JSON_parse (s : jsstring) : option jsval :=
  match JSON_lex s with
  | Some ts => parse_tokens ts
  | None => None
  end.

(** ** [safeJSON] *)

Definition fallback_result : jsval :=
  VObj [ (js "tier", VStr (js "Workable"));
         (js "go_hold_nogo", VStr (js "Hold"));
         (js "total_score", VNum (of_Z 60));
         (js "analysis", VStr (js "Fallback result.")) ].

Definition safeJSON (maybe : jsstring) : jsval :=
  let s := strip_fences maybe in
  match JSON_parse s with
  | Some v => v
  | None => fallback_result
  end.

(** ** The stores, the platform and the effects *)

(** The session record [{ sub, email }] kept under [s:<id>]. *)
Record SessionUser := {
  sub : jsstring;
  email : jsstring
}.

(** The deal document, as [POST /deal] writes it and [POST /assess] updates
    it.  [lastTier] and [lastScore] are [undefined] while the property is
    absent; [value] is the JSON image of a number. *)
Record Deal := {
  userId : jsstring;
  dealId : jsstring;
  account : jsstring;
  title : jsstring;
  value : jsval;
  stage : jsstring;
  lastAssessmentId : option Z;
  lastTier : jsval;
  lastScore : jsval;
  updatedAt : Z
}.

(** The content of an HTML page, without its markup. *)
Inductive page :=
| LoginPage
| DealsPage (deals : list Deal)
| DealPage (deal : Deal).

Inductive body :=
| NoBody
| Text (s : jsstring)
| Html (p : page)
| Json (v : jsval).

(** [cookieSet(name, value, days)]: the cookie and the instant it expires. *)
Record cookie := {
  cookie_name : jsstring;
  cookie_value : jsstring;
  cookie_expires : Z
}.

Record response := {
  status : Z;
  location : option jsstring;
  set_cookie : option cookie;
  content : body
}.

Inductive form_value :=
| FString (s : jsstring)
| FFile.

(** What the router reads of a request.  [formData = None] is a body that
    [req.formData()] rejects. *)
Record request := {
  method : jsstring;
  pathname : jsstring;
  cookie_header : option jsstring;
  formData : option (list (jsstring * form_value))
}.

(** The outbound call of [llmAssess]: endpoint, key, model, and the input the
    prompt is built from. *)
Record fetch_request := {
  url : jsstring;
  api_key : jsstring;
  model : jsstring;
  prompt_input : Payload.t
}.

(** What [fetch] gives: a rejection, or a response with its status and text. *)
Inductive fetch_reply :=
| NetworkFailure
| Reply (code : Z) (text : jsstring).

Record world := {
  SESS : gmap jsstring SessionUser;
  DEALS : gmap jsstring Deal;
  ASSESS : gmap jsstring jsval;
  USAGE : gmap jsstring number;
  SECRETS : gmap jsstring jsstring;
  network : nat -> fetch_request -> fetch_reply;
  outbound : list fetch_request;
  clock : nat -> Z;
  ticks : nat;
  uuids : nat -> jsstring;
  uuids_used : nat
}.

Definition with_SESS (f : gmap jsstring SessionUser -> gmap jsstring SessionUser) (w : world) : world :=
  {| SESS := f (SESS w); DEALS := DEALS w; ASSESS := ASSESS w; USAGE := USAGE w;
     SECRETS := SECRETS w; network := network w; outbound := outbound w;
     clock := clock w; ticks := ticks w; uuids := uuids w; uuids_used := uuids_used w |}.

Definition with_DEALS (f : gmap jsstring Deal -> gmap jsstring Deal) (w : world) : world :=
  {| SESS := SESS w; DEALS := f (DEALS w); ASSESS := ASSESS w; USAGE := USAGE w;
     SECRETS := SECRETS w; network := network w; outbound := outbound w;
     clock := clock w; ticks := ticks w; uuids := uuids w; uuids_used := uuids_used w |}.

Definition with_ASSESS (f : gmap jsstring jsval -> gmap jsstring jsval) (w : world) : world :=
  {| SESS := SESS w; DEALS := DEALS w; ASSESS := f (ASSESS w); USAGE := USAGE w;
     SECRETS := SECRETS w; network := network w; outbound := outbound w;
     clock := clock w; ticks := ticks w; uuids := uuids w; uuids_used := uuids_used w |}.

Definition with_USAGE (f : gmap jsstring number -> gmap jsstring number) (w : world) : world :=
  {| SESS := SESS w; DEALS := DEALS w; ASSESS := ASSESS w; USAGE := f (USAGE w);
     SECRETS := SECRETS w; network := network w; outbound := outbound w;
     clock := clock w; ticks := ticks w; uuids := uuids w; uuids_used := uuids_used w |}.

Definition with_outbound (f : list fetch_request -> list fetch_request) (w : world) : world :=
  {| SESS := SESS w; DEALS := DEALS w; ASSESS := ASSESS w; USAGE := USAGE w;
     SECRETS := SECRETS w; network := network w; outbound := f (outbound w);
     clock := clock w; ticks := ticks w; uuids := uuids w; uuids_used := uuids_used w |}.

Definition tick (w : world) : world :=
  {| SESS := SESS w; DEALS := DEALS w; ASSESS := ASSESS w; USAGE := USAGE w;
     SECRETS := SECRETS w; network := network w; outbound := outbound w;
     clock := clock w; ticks := S (ticks w); uuids := uuids w; uuids_used := uuids_used w |}.

Definition next_uuid (w : world) : world :=
  {| SESS := SESS w; DEALS := DEALS w; ASSESS := ASSESS w; USAGE := USAGE w;
     SECRETS := SECRETS w; network := network w; outbound := outbound w;
     clock := clock w; ticks := ticks w; uuids := uuids w; uuids_used := S (uuids_used w) |}.

(** What can be thrown: the [Response] of [requireSession], or an error. *)
Inductive thrown :=
| ThrownResponse (r : response)
| TypeError
| SyntaxError
| URIError
| Error (message : jsstring).

(** How a call ends.  [OutOfFuel] is a loop cut short by the bound of the
    model; no source path produces it. *)
Inductive outcome (A : Type) :=
| Ok (a : A)
| Throw (e : thrown)
| OutOfFuel.
Arguments Ok {A} a.
Arguments Throw {A} e.
Arguments OutOfFuel {A}.

Definition M (A : Type) : Type := world -> outcome A * world.

Definition ret {A} (a : A) : M A := fun w => (Ok a, w).

Definition bind {A B} (c : M A) (k : A -> M B) : M B :=
  fun w =>
    match c w with
    | (Ok a, w') => k a w'
    | (Throw e, w') => (Throw e, w')
    | (OutOfFuel, w') => (OutOfFuel, w')
    end.

Definition throw {A} (e : thrown) : M A := fun w => (Throw e, w).

Definition out_of_fuel {A} : M A := fun w => (OutOfFuel, w).

(** [try { c } catch (_e) { h }] *)
Definition try_catch {A} (c : M A) (h : thrown -> M A) : M A :=
  fun w =>
    match c w with
    | (Throw e, w') => h e w'
    | r => r
    end.

Definition lift {A} (o : outcome A) : M A := fun w => (o, w).

Notation "'let*' x ':=' c 'in' k" := (bind c (fun x => k))
  (at level 10, x name, c at level 200, k at level 200, only parsing).
Notation "'let*' ' pat ':=' c 'in' k" := (bind c (fun x => match x with pat => k end))
  (at level 10, pat pattern, c at level 200, k at level 200, only parsing).

(** The builtins of the language the router calls and this development does
    not define. *)
Class Platform := {
  (** [Number(s)] on a string. *)
  StringToNumber : jsstring -> number;
  (** [decodeURIComponent(s)]; [None] is the URIError. *)
  decodeURIComponent : jsstring -> option jsstring;
  (** [new Date(ms).toISOString()] *)
  toISOString : Z -> jsstring;
  (** [s.toLowerCase()] *)
  toLowerCase : jsstring -> jsstring
}.

(** [String(n)] on an integer below 10^21 in magnitude, where no exponent is
    printed. *)
Definition decimal (z : Z) : jsstring := js (NilZero.string_of_int (Z.to_int z)).

(** [Date.now()] and [new Date()]: the next reading of the clock. *)
Definition Date_now : M Z := fun w => (Ok (clock w (ticks w)), tick w).

(** [crypto.randomUUID()] *)
Definition rnd : M jsstring := fun w => (Ok (uuids w (uuids_used w)), next_uuid w).

(** [getSecret(name)]: the text of the secret, or [null]. *)
Definition getSecret (name : jsstring) : M (option jsstring) :=
  fun w => (Ok (SECRETS w !! name), w).

(** [o || d] on a string that may be [null]: the empty string is falsy too. *)
Definition or_string (o : option jsstring) (d : jsstring) : jsstring :=
  match o with
  | Some (c :: s) => c :: s
  | _ => d
  end.

(** [!key] *)
Definition no_key (o : option jsstring) : bool :=
  match o with
  | Some (_ :: _) => false
  | _ => true
  end.

(** [fetch(...)]: the call is recorded, and answered by the network. *)
Definition fetch (rq : fetch_request) : M (Z * jsstring) :=
  fun w =>
    let w' := with_outbound (fun l => l ++ [rq]) w in
    match network w (length (outbound w)) rq with
    | NetworkFailure => (Throw TypeError, w')
    | Reply code text => (Ok (code, text), w')
    end.

(** [r.json()] *)
Definition response_json (r : Z * jsstring) : M jsval :=
  match JSON_parse (snd r) with
  | Some j => ret j
  | None => throw SyntaxError
  end.

(** ** [llmAssess] *)

Definition nullish (v : jsval) : bool :=
  match v with
  | VUndefined | VNull => true
  | _ => false
  end.

(** [v.k] on a value that is not nullish, for a name [k] that no builtin
    prototype defines: an own property of an object, [undefined] otherwise. *)
Definition member (v : jsval) (k : jsstring) : jsval :=
  match v with
  | VObj props => obj_get props k
  | _ => VUndefined
  end.

(** [v[0]] on a value that is not nullish. *)
Definition first_element (v : jsval) : jsval :=
  match v with
  | VArr (x :: _) => x
  | VStr (c :: _) => VStr [c]
  | VObj props => obj_get props (js "0")
  | _ => VUndefined
  end.

(** One link [v?.] of an optional chain: a nullish [v] ends the whole chain
    with [undefined], here [None]. *)
Definition chain (v : jsval) (k : jsval -> outcome (option jsstring))
  : outcome (option jsstring) :=
  if nullish v then Ok None else k v.

(** The last link [t?.trim()]: a string has the method, other values do not,
    and calling what is not a function throws. *)
Definition call_trim (t : jsval) : outcome (option jsstring) :=
  chain t (fun t =>
    match t with
    | VStr s => Ok (Some (trim s))
    | _ => Throw TypeError
    end).

(** [j?.choices?.[0]?.message?.content?.trim()] *)
Definition openai_text (j : jsval) : outcome (option jsstring) :=
  chain j (fun j =>
  chain (member j (js "choices")) (fun cs =>
  chain (first_element cs) (fun c =>
  chain (member c (js "message")) (fun m =>
  call_trim (member m (js "content")))))).

(** [j?.content?.[0]?.text?.trim()] *)
Definition anthropic_text (j : jsval) : outcome (option jsstring) :=
  chain j (fun j =>
  chain (member j (js "content")) (fun cs =>
  chain (first_element cs) (fun c =>
  call_trim (member c (js "text"))))).

Definition openai_url : jsstring := js "https://api.openai.com/v1/chat/completions".
Definition anthropic_url : jsstring := js "https://api.anthropic.com/v1/messages".
Definition default_provider : jsstring := js "anthropic".
Definition default_model : jsstring := js "claude-3-5-sonnet-20240620".

Definition llmAssess (input : Payload.t) : M jsval :=
  let* p := getSecret (js "LLM_PROVIDER") in
  let provider := or_string p default_provider in
  let* m := getSecret (js "LLM_MODEL") in
  let model := or_string m default_model in
  try_catch
    (if jsstring_eqb provider (js "openai") then
       let* key := getSecret (js "OPENAI_API_KEY") in
       if no_key key then throw (Error (js "Missing OPENAI_API_KEY"))
       else
         let* r := fetch {| url := openai_url; api_key := or_string key [];
                       model := model; prompt_input := input |} in
         let* j := response_json r in
         let* t := lift (openai_text j) in
         let txt := or_string t (js "{}") in
         ret (safeJSON txt)
     else
       let* key := getSecret (js "ANTHROPIC_API_KEY") in
       if no_key key then ret (heuristicScore input)
       else
         let* r := fetch {| url := anthropic_url; api_key := or_string key [];
                       model := model; prompt_input := input |} in
         let* j := response_json r in
         let* t := lift (anthropic_text j) in
         let txt := or_string t (js "{}") in
         ret (safeJSON txt))
    (fun _e => ret (heuristicScore input)).

(** ** Sessions *)

(** The longest run of characters other than [;] at the head of [s], when it
    is not empty: the group [([^;]+)]. *)
Fixpoint cookie_run (s : jsstring) : jsstring :=
  match s with
  | c :: r => if N.eqb c 59 then [] else c :: cookie_run r
  | [] => []
  end.

Definition cookie_after (prefix s : jsstring) : option jsstring :=
  match strip_prefix prefix s with
  | Some r => match cookie_run r with
              | [] => None
              | v => Some v
              end
  | None => None
  end.

(** The alternative [; name=value], at the first position where it matches. *)
Fixpoint cookie_scan (prefix s : jsstring) : option jsstring :=
  match cookie_after prefix s with
  | Some v => Some v
  | None => match s with
            | _ :: r => cookie_scan prefix r
            | [] => None
            end
  end.

(** [c.match(new RegExp(`(?:^|; )${name}=([^;]+)`))], the group of the
    leftmost match; [name] has no character special in a pattern. *)
Definition cookie_match (name c : jsstring) : option jsstring :=
  match cookie_after (name ++ js "=") c with
  | Some v => Some v
  | None => cookie_scan (js "; " ++ name ++ js "=") c
  end.

Section Router.
Context {platform : Platform}.

Definition cookieGet (req : request) (name : jsstring) : outcome jsstring :=
  let c := or_string (cookie_header req) [] in
  match cookie_match name c with
  | Some v => match decodeURIComponent v with
              | Some d => Ok d
              | None => Throw URIError
              end
  | None => Ok []
  end.

(** [cookieSet(name, value, days)] reads the clock for the expiry. *)
Definition cookieSet (name value : jsstring) (days : Z) : M cookie :=
  let* now := Date_now in
  ret {| cookie_name := name; cookie_value := value;
         cookie_expires := now + days * 86400000 |}.

Definition getSession (req : request) : M (jsstring * option SessionUser) :=
  let* id := lift (cookieGet req (js "apx")) in
  match id with
  | [] => ret ([], None)
  | _ => fun w => (Ok (id, SESS w !! (js "s:" ++ id)), w)
  end.

Definition redirect (to : jsstring) : response :=
  {| status := 302; location := Some to; set_cookie := None; content := NoBody |}.

Definition requireSession (req : request) : M (jsstring * SessionUser) :=
  let* s := getSession req in
  match s with
  | ((_ :: _) as id, Some user) => ret (id, user)
  | _ => throw (ThrownResponse (redirect (js "/")))
  end.

(** ** The key-value stores *)

(** The keys of a store that begin with [prefix], in the order the store
    lists them. *)
Definition kv_keys {V} (store : gmap jsstring V) (prefix : jsstring) : list jsstring :=
  List.filter (fun k => startsWith k prefix) (map fst (map_to_list store)).

(** [store.list({ prefix, cursor, limit })]: one page of at most [limit]
    keys and, while keys remain, the cursor of the next page.  A cursor is
    the count of keys already listed; the store hands out none that is falsy. *)
Definition kv_list {V} (store : gmap jsstring V) (prefix : jsstring)
    (cursor : option nat) (limit : nat) : list jsstring * option nat :=
  let all := kv_keys store prefix in
  let start := default 0%nat cursor in
  let next := (start + limit)%nat in
  (take limit (drop start all),
   if (next <? length all)%nat then Some next else None).

Definition DEALS_list (prefix : jsstring) (cursor : option nat) (limit : nat)
  : M (list jsstring * option nat) :=
  fun w => (Ok (kv_list (DEALS w) prefix cursor limit), w).

Definition DEALS_get (k : jsstring) : M (option Deal) :=
  fun w => (Ok (DEALS w !! k), w).

Definition DEALS_put (k : jsstring) (d : Deal) : M unit :=
  fun w => (Ok tt, with_DEALS (insert k d) w).

Definition SESS_put (k : jsstring) (u : SessionUser) : M unit :=
  fun w => (Ok tt, with_SESS (insert k u) w).

Definition SESS_delete (k : jsstring) : M unit :=
  fun w => (Ok tt, with_SESS (delete k) w).

Definition ASSESS_get (k : jsstring) : M (option jsval) :=
  fun w => (Ok (ASSESS w !! k), w).

Definition ASSESS_put (k : jsstring) (v : jsval) : M unit :=
  fun w => (Ok tt, with_ASSESS (insert k v) w).

Definition USAGE_get (k : jsstring) : M (option number) :=
  fun w => (Ok (USAGE w !! k), w).

Definition USAGE_put (k : jsstring) (n : number) : M unit :=
  fun w => (Ok tt, with_USAGE (insert k n) w).

(** ** [listDeals] *)

(** The [do ... while (cursor)] loop; [fuel] bounds the number of pages. *)
Fixpoint page_loop (fuel : nat) (prefix : jsstring) (cursor : option nat)
    (keys : list jsstring) : M (list jsstring) :=
  match fuel with
  | O => out_of_fuel
  | S fuel' =>
      let* '(list, c) := DEALS_list prefix cursor 100 in
      let keys := keys ++ list in
      match c with
      | Some _ => page_loop fuel' prefix c keys
      | None => ret keys
      end
  end.

(** The [for (const k of keys)] loop. *)
Fixpoint read_deals (keys : list jsstring) (out : list Deal) : M (list Deal) :=
  match keys with
  | [] => ret out
  | k :: rest =>
      let* e := DEALS_get k in
      read_deals rest (match e with Some d => out ++ [d] | None => out end)
  end.

(** [x || 0] on a number. *)
Definition or_zero (z : Z) : Z := if Z.eqb z 0 then 0 else z.

(** The comparator [(a, b) => (b.updatedAt || 0) - (a.updatedAt || 0)]. *)
Definition by_updatedAt_desc (a b : Deal) : Z :=
  or_zero (updatedAt b) - or_zero (updatedAt a).

(** [Array.prototype.sort] with a comparator: the stable sort, written as an
    insertion sort.  An element goes before the first one it does not have
    to follow. *)
Fixpoint sort_insert {A} (cmp : A -> A -> Z) (a : A) (l : list A) : list A :=
  match l with
  | [] => [a]
  | x :: r => if Z.leb (cmp a x) 0 then a :: l else x :: sort_insert cmp a r
  end.

Definition sort {A} (cmp : A -> A -> Z) (l : list A) : list A :=
  fold_right (sort_insert cmp) [] l.

Definition deal_prefix (userId : jsstring) : jsstring := js "deal:" ++ userId ++ js ":".

Definition listDeals (fuel : nat) (userId : jsstring) : M (list Deal) :=
  let* keys := page_loop fuel (deal_prefix userId) None [] in
  let* out := read_deals keys [] in
  ret (sort by_updatedAt_desc out).

(** ** What [JSON.stringify] keeps *)

(** The value read back from the text [JSON.stringify] writes: a number that
    is not finite becomes [null], an [undefined] property is left out, an
    [undefined] element becomes [null].  On [undefined] itself nothing is
    written, which is [undefined] here. *)
Fixpoint to_json (v : jsval) : jsval :=
  match v with
  | VNum (Num _) => v
  | VNum _ => VNull
  | VArr l =>
      VArr (map (fun x => match to_json x with VUndefined => VNull | y => y end) l)
  | VObj props =>
      VObj ((fix members (ps : list (jsstring * jsval)) : list (jsstring * jsval) :=
               match ps with
               | [] => []
               | (k, x) :: r =>
                   match to_json x with
                   | VUndefined => members r
                   | y => (k, y) :: members r
                   end
               end) props)
  | _ => v
  end.

(** The own enumerable properties [{ ...v }] copies. *)
Fixpoint indexed (i : nat) (l : list jsval) : list (jsstring * jsval) :=
  match l with
  | [] => []
  | x :: r => (decimal (Z.of_nat i), x) :: indexed (S i) r
  end.

Definition spread (v : jsval) : list (jsstring * jsval) :=
  match v with
  | VObj props => props
  | VArr l => indexed 0 l
  | VStr s => indexed 0 (map (fun c => VStr [c]) s)
  | _ => []
  end.

(** [v.k], which throws on [null] and [undefined]. *)
Definition get_member (v : jsval) (k : jsstring) : outcome jsval :=
  if nullish v then Throw TypeError else Ok (member v k).

Definition scores_value (s : ScoreSet) : jsval :=
  VObj (map (fun kv => (fst kv, VNum (snd kv))) s).

Definition payload_value (p : Payload.t) : jsval :=
  VObj [ (js "account", VStr (Payload.account p));
         (js "title", VStr (Payload.title p));
         (js "value", Payload.value p);
         (js "stage", VStr (Payload.stage p));
         (js "scores", match Payload.scores p with
                       | Some s => scores_value s
                       | None => VUndefined
                       end);
         (js "notes", VStr (Payload.notes p)) ].

(** [JSON.stringify({ ...result, createdAt: ts, payload })], as stored. *)
Definition assessment_record (result : jsval) (ts : Z) (p : Payload.t) : jsval :=
  to_json (VObj (obj_set (obj_set (spread result) (js "createdAt") (VNum (of_Z ts)))
                         (js "payload") (payload_value p))).

Definition assessment_key (user dealId ts : jsstring) : jsstring :=
  js "assessment:" ++ user ++ js ":" ++ dealId ++ js ":" ++ ts.

Definition deal_key (user dealId : jsstring) : jsstring :=
  js "deal:" ++ user ++ js ":" ++ dealId.

(** ** Forms and paths *)

(** [f.get(name)]: the first value of that name. *)
Fixpoint form_get (f : list (jsstring * form_value)) (name : jsstring) : option form_value :=
  match f with
  | [] => None
  | (k, v) :: r => if jsstring_eqb k name then Some v else form_get r name
  end.

(** [String(f.get(name) || d)] *)
Definition form_string (f : list (jsstring * form_value)) (name d : jsstring) : jsstring :=
  match form_get f name with
  | Some (FString (c :: s)) => c :: s
  | Some FFile => js "[object File]"
  | _ => d
  end.

(** [Number(f.get(name) || 0)] *)
Definition form_number (f : list (jsstring * form_value)) (name : jsstring) : number :=
  match form_get f name with
  | Some (FString (c :: s)) => StringToNumber (c :: s)
  | Some FFile => NaN
  | _ => of_Z 0
  end.

(** [req.formData()] *)
Definition req_formData (req : request) : M (list (jsstring * form_value)) :=
  match formData req with
  | Some f => ret f
  | None => throw TypeError
  end.

(** [s.split("/")], with the piece being read in [cur], reversed. *)
Fixpoint split_slash (s : jsstring) (cur : jsstring) : list jsstring :=
  match s with
  | [] => [rev cur]
  | c :: r => if N.eqb c 47 then rev cur :: split_slash r [] else split_slash r (c :: cur)
  end.

(** A piece of a split path in a template literal: [undefined] prints as such. *)
Definition piece (parts : list jsstring) (i : nat) : jsstring :=
  match nth_error parts i with
  | Some s => s
  | None => js "undefined"
  end.

(** [s.replace("-", "")]: the first hyphen goes. *)
Fixpoint drop_first_hyphen (s : jsstring) : jsstring :=
  match s with
  | [] => []
  | c :: r => if N.eqb c 45 then r else c :: drop_first_hyphen r
  end.

Definition TEXT (s : jsstring) (code : Z) : response :=
  {| status := code; location := None; set_cookie := None; content := Text s |}.

Definition HTML (p : page) : response :=
  {| status := 200; location := None; set_cookie := None; content := Html p |}.

Definition JSON_response (v : jsval) : response :=
  {| status := 200; location := None; set_cookie := None; content := Json v |}.

(** ** The router *)

(** The [scores] object literal of [POST /assess]. *)
Definition assess_scores (f : list (jsstring * form_value)) : ScoreSet :=
  [ (js "metrics", form_number f (js "metrics"));
    (js "economic_buyer", form_number f (js "eb"));
    (js "decision_criteria", form_number f (js "dc"));
    (js "decision_process", form_number f (js "dp"));
    (js "paper_process", form_number f (js "pp"));
    (js "identified_pain", form_number f (js "ip"));
    (js "champion", form_number f (js "ch"));
    (js "competition", form_number f (js "co")) ].

(** The [payload] object literal of [POST /assess]. *)
Definition assess_payload (deal : Deal) (f : list (jsstring * form_value)) : Payload.t :=
  {| Payload.account := account deal;
     Payload.title := title deal;
     Payload.value := value deal;
     Payload.stage := stage deal;
     Payload.scores := Some (assess_scores f);
     Payload.notes := form_string f (js "notes") [] |}.

(** The four assignments to [deal] after an assessment. *)
Definition assessed (deal : Deal) (ts : Z) (tier score : jsval) : Deal :=
  {| userId := userId deal; dealId := dealId deal; account := account deal;
     title := title deal; value := value deal; stage := stage deal;
     lastAssessmentId := Some ts;
     lastTier := to_json tier;
     lastScore := to_json score;
     updatedAt := ts |}.

(** [GET /] *)
Definition home (req : request) : M response :=
  let* '(_, user) := getSession req in
  match user with
  | Some _ => ret (redirect (js "/deals"))
  | None => ret (HTML LoginPage)
  end.

(** [POST /dev-login]; the time to live of the session record is not modelled. *)
Definition dev_login (req : request) : M response :=
  let* form := req_formData req in
  let email := trim (toLowerCase (form_string form (js "email") [])) in
  match email with
  | [] => ret (TEXT (js "Email required") 400)
  | _ =>
      let* sid := rnd in
      let* _ := SESS_put (js "s:" ++ sid) {| sub := js "u:" ++ email; email := email |} in
      let* c := cookieSet (js "apx") sid 7 in
      ret {| status := 302; location := Some (js "/deals"); set_cookie := Some c;
             content := NoBody |}
  end.

(** [POST /logout] *)
Definition logout (req : request) : M response :=
  let* sid := lift (cookieGet req (js "apx")) in
  let* _ := match sid with
            | [] => ret tt
            | _ => SESS_delete (js "s:" ++ sid)
            end in
  let* c := cookieSet (js "apx") [] (-1) in
  ret {| status := 302; location := Some (js "/"); set_cookie := Some c;
         content := NoBody |}.

(** [GET /deals] *)
Definition deals_page (fuel : nat) (req : request) : M response :=
  let* '(_, user) := requireSession req in
  let* deals := listDeals fuel (sub user) in
  ret (HTML (DealsPage deals)).

(** [POST /deal] *)
Definition new_deal (req : request) : M response :=
  let* '(_, user) := requireSession req in
  let* f := req_formData req in
  let* id := rnd in
  let* now := Date_now in
  let doc :=
    {| userId := sub user;
       dealId := id;
       account := trim (form_string f (js "account") []);
       title := trim (form_string f (js "title") []);
       value := to_json (VNum (form_number f (js "value")));
       stage := form_string f (js "stage") (js "Qualification");
       lastAssessmentId := None;
       lastTier := VUndefined;
       lastScore := VUndefined;
       updatedAt := now |} in
  let* _ := DEALS_put (deal_key (sub user) id) doc in
  ret (redirect (js "/deal/" ++ id)).

(** [GET /deal/{id}] *)
Definition deal_page (req : request) : M response :=
  let* '(_, user) := requireSession req in
  let id := List.last (split_slash (pathname req) []) [] in
  let* e := DEALS_get (deal_key (sub user) id) in
  match e with
  | None => ret (TEXT (js "Not found") 404)
  | Some deal => ret (HTML (DealPage deal))
  end.

(** [POST /assess], from the assessment on: the record is put, the deal
    summary updated, the usage counter of the month incremented. *)
Definition record_assessment (user : SessionUser) (id : jsstring) (deal : Deal)
    (payload : Payload.t) (result : jsval) : M response :=
  let* ts := Date_now in
  let* _ := ASSESS_put (assessment_key (sub user) id (decimal ts))
                       (assessment_record result ts payload) in
  let* tier := lift (get_member result (js "tier")) in
  let* score := lift (get_member result (js "total_score")) in
  let* _ := DEALS_put (deal_key (sub user) id) (assessed deal ts tier score) in
  let* today := Date_now in
  let ym := drop_first_hyphen (take 7 (toISOString today)) in
  let k := js "use:" ++ ym in
  let* cur := USAGE_get k in
  let c := match cur with Some n => n | None => of_Z 0 end in
  let* _ := USAGE_put k (num_add c (of_Z 1)) in
  ret (redirect (js "/assessment/" ++ id ++ js "/" ++ decimal ts)).

(** [POST /assess] *)
Definition assess (req : request) : M response :=
  let* '(_, user) := requireSession req in
  let* f := req_formData req in
  let id := form_string f (js "dealId") [] in
  let* e := DEALS_get (deal_key (sub user) id) in
  match e with
  | None => ret (TEXT (js "Deal missing") 404)
  | Some deal =>
      let payload := assess_payload deal f in
      let* result := llmAssess payload in
      record_assessment user id deal payload result
  end.

(** [GET /assessment/{dealId}/{ts}] *)
Definition assessment_page (req : request) : M response :=
  let* '(_, user) := requireSession req in
  let parts := split_slash (pathname req) [] in
  let k := assessment_key (sub user) (piece parts 2) (piece parts 3) in
  let* e := ASSESS_get k in
  match e with
  | None => ret (TEXT (js "Not found") 404)
  | Some a => ret (JSON_response a)
  end.

Definition handle (fuel : nat) (req : request) : M response :=
  let GET := jsstring_eqb (method req) (js "GET") in
  let POST := jsstring_eqb (method req) (js "POST") in
  let p := pathname req in
  if GET && jsstring_eqb p (js "/") then home req
  else if POST && jsstring_eqb p (js "/dev-login") then dev_login req
  else if POST && jsstring_eqb p (js "/logout") then logout req
  else if GET && jsstring_eqb p (js "/deals") then deals_page fuel req
  else if POST && jsstring_eqb p (js "/deal") then new_deal req
  else if GET && startsWith p (js "/deal/") then deal_page req
  else if POST && jsstring_eqb p (js "/assess") then assess req
  else if GET && startsWith p (js "/assessment/") then assessment_page req
  else if GET && jsstring_eqb p (js "/health")
       then ret (JSON_response (VObj [(js "ok", VBool true)]))
  else ret (TEXT (js "Not found") 404).

(** [addEventListener("fetch", event => event.respondWith(handle(event.request)))]:
    what the client is answered.  [respondWith] sends the response its
    promise resolves to; when the promise rejects, whatever the reason, the
    runtime answers with an error of its own. *)
Inductive answer :=
| Responded (r : response)
| RuntimeError.

Definition on_fetch (fuel : nat) (req : request) (w : world) : option answer * world :=
  match handle fuel req w with
  | (Ok r, w') => (Some (Responded r), w')
  | (Throw _, w') => (Some RuntimeError, w')
  | (OutOfFuel, w') => (None, w')
  end.

(** The eight ratings: the property of [scores] and the form field it is
    read from. *)
Definition score_fields : list (jsstring * jsstring) :=
  [ (js "metrics", js "metrics"); (js "economic_buyer", js "eb");
    (js "decision_criteria", js "dc"); (js "decision_process", js "dp");
    (js "paper_process", js "pp"); (js "identified_pain", js "ip");
    (js "champion", js "ch"); (js "competition", js "co") ].

(** A form field that is "missing or empty". *)
Definition missing_or_empty (f : list (jsstring * form_value)) (field : jsstring) : Prop :=
  form_get f field = None \/ form_get f field = Some (FString []).

(** The world after a submission that succeeds: the record is put, then the
    deal, then the usage counter, with a reading of the clock before the
    first and before the last. *)
Definition after_assessment (user : SessionUser) (id : jsstring) (deal : Deal)
    (payload : Payload.t) (result : jsval) (w1 : world) : world :=
  let ts := clock w1 (ticks w1) in
  let w2 := with_ASSESS (insert (assessment_key (sub user) id (decimal ts))
                                (assessment_record result ts payload)) (tick w1) in
  let w3 := with_DEALS (insert (deal_key (sub user) id)
                               (assessed deal ts (member result (js "tier"))
                                         (member result (js "total_score")))) w2 in
  let k := js "use:" ++ drop_first_hyphen (take 7 (toISOString (clock w3 (ticks w3)))) in
  let c := match USAGE w3 !! k with Some n => n | None => of_Z 0 end in
  with_USAGE (insert k (num_add c (of_Z 1))) (tick w3).

(** ** The requests of the specification *)

(** "/deals, /deal/{id}, /assess, /assessment/{dealId}/{ts}" *)
Definition protected_route (req : request) : Prop :=
  (method req = js "GET" /\ pathname req = js "/deals")
  \/ (method req = js "GET" /\ exists id, pathname req = js "/deal/" ++ id)
  \/ (method req = js "POST" /\ pathname req = js "/assess")
  \/ (method req = js "GET" /\ exists rest, pathname req = js "/assessment/" ++ rest).

(** "no session cookie or no stored session record" *)
Definition anonymous (req : request) (w : world) : Prop :=
  cookieGet req (js "apx") = Ok []
  \/ exists id, cookieGet req (js "apx") = Ok id /\ SESS w !! (js "s:" ++ id) = None.

End Router.

(** ** An instance of the platform, for the examples

    Each builtin is given on the inputs the examples use: [Number] on a
    string of decimal digits (any other string is NaN here),
    [decodeURIComponent] on a string without [%] (any other is refused here),
    [toISOString] on the instants of the years 0000 to 9999, [toLowerCase]
    on the letters A to Z. *)

Definition sample_StringToNumber (s : jsstring) : number :=
  if forallb is_digit s
  then round64 (inject_Z (fold_left (fun acc c => 10 * acc + digit_value c) s 0))
  else NaN.

Definition sample_decodeURIComponent (s : jsstring) : option jsstring :=
  if existsb (N.eqb 37) s then None else Some s.

(** [n] in decimal on at least [width] digits. *)
Definition padded (width : nat) (n : Z) : jsstring :=
  let d := decimal n in
  repeat 48%N (width - length d) ++ d.

Definition sample_toISOString (ms : Z) : jsstring :=
  let days := ms / 86400000 in
  let rest := ms mod 86400000 in
  let z := days + 719468 in
  let era := z / 146097 in
  let doe := z - era * 146097 in
  let yoe := (doe - doe / 1460 + doe / 36524 - doe / 146096) / 365 in
  let doy := doe - (365 * yoe + yoe / 4 - yoe / 100) in
  let mp := (5 * doy + 2) / 153 in
  let d := doy - (153 * mp + 2) / 5 + 1 in
  let m := if mp <? 10 then mp + 3 else mp - 9 in
  let y := yoe + era * 400 + (if m <=? 2 then 1 else 0) in
  padded 4 y ++ js "-" ++ padded 2 m ++ js "-" ++ padded 2 d ++ js "T"
  ++ padded 2 (rest / 3600000) ++ js ":" ++ padded 2 (rest / 60000 mod 60) ++ js ":"
  ++ padded 2 (rest / 1000 mod 60) ++ js "." ++ padded 3 (rest mod 1000) ++ js "Z".

Definition sample_toLowerCase (s : jsstring) : jsstring :=
  map (fun c => if N.leb 65 c && N.leb c 90 then (c + 32)%N else c) s.

Definition sample_platform : Platform :=
  {| StringToNumber := sample_StringToNumber;
     decodeURIComponent := sample_decodeURIComponent;
     toISOString := sample_toISOString;
     toLowerCase := sample_toLowerCase |}.

(** A literal in which the apostrophe stands for the double quote. *)
Definition jsq (s : string) : jsstring :=
  map (fun c => if N.eqb c 39 then 34%N else c) (js s).

(** A store holding the given entries. *)
Definition store_of {V} (entries : list (jsstring * V)) : gmap jsstring V :=
  list_to_map entries.

(** A world with empty stores, the given secrets, a network that always
    gives [reply], a clock that reads [now], and numbered identifiers. *)
Definition sample_world (secrets : list (jsstring * jsstring)) (reply : fetch_reply)
    (now : Z) : world :=
  {| SESS := ∅; DEALS := ∅; ASSESS := ∅; USAGE := ∅;
     SECRETS := store_of secrets;
     network := fun _ _ => reply;
     outbound := [];
     clock := fun _ => now;
     ticks := 0;
     uuids := fun n => js "id-" ++ decimal (Z.of_nat n);
     uuids_used := 0 |}.

(** A payload of the shape [POST /assess] builds. *)
Definition sample_input : Payload.t :=
  {| Payload.account := js "Acme"; Payload.title := js "Renewal";
     Payload.value := VNum (of_Z 1000); Payload.stage := js "Discovery";
     Payload.scores := Some [ (js "metrics", of_Z 5); (js "economic_buyer", of_Z 4) ];
     Payload.notes := [] |}.

(** ** The provider call, read off [llmAssess] *)

(** The outbound request of [llmAssess] in the world [w], when it makes one:
    the provider is resolved, and its key is configured. *)
Definition llm_request (input : Payload.t) (w : world) : option fetch_request :=
  let provider := or_string (SECRETS w !! js "LLM_PROVIDER") default_provider in
  let model := or_string (SECRETS w !! js "LLM_MODEL") default_model in
  if jsstring_eqb provider (js "openai") then
    match (SECRETS w !! js "OPENAI_API_KEY" : option jsstring) with
    | Some (c :: k) =>
        Some {| url := openai_url; api_key := c :: k; model := model; prompt_input := input |}
    | _ => None
    end
  else
    match (SECRETS w !! js "ANTHROPIC_API_KEY" : option jsstring) with
    | Some (c :: k) =>
        Some {| url := anthropic_url; api_key := c :: k; model := model; prompt_input := input |}
    | _ => None
    end.

(** The answer to that request. *)
Definition llm_reply (rq : fetch_request) (w : world) : fetch_reply :=
  network w (length (outbound w)) rq.

(** The model's text in the body [j] of the answer, by the shape of the
    provider asked. *)
Definition response_text (rq : fetch_request) (j : jsval) : outcome (option jsstring) :=
  if jsstring_eqb (url rq) openai_url then openai_text j else anthropic_text j.

(** The world once the request is recorded. *)
Definition called (rq : fetch_request) (w : world) : world :=
  with_outbound (fun l => l ++ [rq]) w.

(** ** The result in the words of the specification *)

(** "tier: one of {Strong, Workable, Weak}, decision: one of {Go, Hold,
    No-go}, totalScore: integer 0-100" *)
Definition valid_result (v : jsval) : Prop :=
  (member v (js "tier") = VStr (js "Strong")
   \/ member v (js "tier") = VStr (js "Workable")
   \/ member v (js "tier") = VStr (js "Weak"))
  /\ (member v (js "go_hold_nogo") = VStr (js "Go")
      \/ member v (js "go_hold_nogo") = VStr (js "Hold")
      \/ member v (js "go_hold_nogo") = VStr (js "No-go"))
  /\ (exists z : Z, member v (js "total_score") = VNum (of_Z z) /\ 0 <= z <= 100).

(** ** The fences in the words of the specification *)

(** The language tag [json] after an opening fence, in either case. *)
Definition is_json_tag (t : jsstring) : bool :=
  match t with
  | [j; s; o; n] => eq_nocase 106 j && eq_nocase 115 s && eq_nocase 111 o && eq_nocase 110 n
  | _ => false
  end.

(** "``` or ```json at the start": what may precede the JSON text. *)
Definition opening_fence (o : jsstring) : Prop :=
  o = [] \/ exists tag, o = fence ++ tag /\ (tag = [] \/ is_json_tag tag = true).

(** "``` at the end": what may follow it. *)
Definition closing_fence (c : jsstring) : Prop := c = [] \/ c = fence.

(** White space only. *)
Definition blank (s : jsstring) : Prop := forallb is_js_space s = true.

(** ** The scorer in the words of the specification *)

Definition Qsum (qs : list Q) : Q := fold_right Qplus 0%Q qs.

(** "average = mean of values, default 3 if empty" *)
Definition spec_mean (qs : list Q) : Q :=
  match qs with
  | [] => 3%Q
  | _ => (Qsum qs / inject_Z (Z.of_nat (length qs)))%Q
  end.

(** "total = round(average * 20) clamped to [0,100]" *)
Definition spec_total (qs : list Q) : Z :=
  Z.max 0 (Z.min 100 (Qfloor (spec_mean qs * 20 + (1 # 2))%Q)).

(** ">= 80 Strong/Go, >= 60 Workable/Hold, else Weak/No-go" *)
Definition spec_tier (t : Z) : jsstring :=
  if 80 <=? t then js "Strong" else if 60 <=? t then js "Workable" else js "Weak".

Definition spec_decision (t : Z) : jsstring :=
  if 80 <=? t then js "Go" else if 60 <=? t then js "Hold" else js "No-go".

(** ** The listing in the words of the specification *)

(** The deals of a user: the documents kept under the user's key prefix. *)
Definition deals_of (w : world) (user : jsstring) : list Deal :=
  map snd (List.filter (fun kv => startsWith (fst kv) (deal_prefix user))
                       (map_to_list (DEALS w))).

(** "sorted by updatedAt descending" *)
Definition newer_first (a b : Deal) : Prop := updatedAt b <= updatedAt a.

(** ** Worlds for the examples *)

(** The [i]-th deal of a user, updated at instant [i]. *)
Definition sample_deal (user : jsstring) (i : nat) : Deal :=
  {| userId := user; dealId := decimal (Z.of_nat i); account := js "Acme";
     title := js "Renewal"; value := VNum (of_Z 1000); stage := js "Qualification";
     lastAssessmentId := None; lastTier := VUndefined; lastScore := VUndefined;
     updatedAt := Z.of_nat i |}.

(** The world [w] with exactly the given deals in the deal store. *)
Definition with_deals (deals : list Deal) (w : world) : world :=
  with_DEALS (fun _ => store_of (map (fun d => (deal_key (userId d) (dealId d), d)) deals)) w.

(** The world [w] with the session [id] of the user of that e-mail address. *)
Definition with_session (id mail : jsstring) (w : world) : world :=
  with_SESS (insert (js "s:" ++ id) {| sub := js "u:" ++ mail; email := mail |}) w.

(** 250 deals of one user and 5 of another: three pages of the listing. *)
Definition crowded_world : world :=
  with_deals (map (sample_deal (js "u:ann@example.com")) (seq 0 250)
              ++ map (sample_deal (js "u:bob@example.com")) (seq 0 5))
             (sample_world [] NetworkFailure 0).

(** Ann, signed in with the session [sid-1], owns the deal [7]; no provider
    is configured and the clock reads 1700000000000. *)
Definition ann_world : world :=
  with_session (js "sid-1") (js "ann@example.com")
    (with_deals [sample_deal (js "u:ann@example.com") 7]
       (sample_world [] NetworkFailure 1700000000000)).

(** Ann's submission for the deal [7], with the given score fields. *)
Definition ann_submits (fields : list (jsstring * form_value)) : request :=
  {| method := js "POST"; pathname := js "/assess";
     cookie_header := Some (js "theme=dark; apx=sid-1");
     formData := Some ((js "dealId", FString (js "7")) :: fields) |}.

Definition all_fives : list (jsstring * form_value) :=
  map (fun k => (js k, FString (js "5")))
      ["metrics"; "eb"; "dc"; "dp"; "pp"; "ip"; "ch"; "co"]%string.

(** ** Definitions for the further properties *)

From Stdlib Require DecimalZ.

(** *** Plain JSON data *)

(** A value without [undefined] and without a number that is not finite, at
    any depth. *)
Fixpoint json_clean (v : jsval) : bool :=
  match v with
  | VUndefined => false
  | VNum (Num _) => true
  | VNum _ => false
  | VArr l => forallb json_clean l
  | VObj props => forallb (fun kv => json_clean (snd kv)) props
  | _ => true
  end.

(** *** Characters a piece of a path, of a key or of a header must not hold *)

(** No [/] in [s]. *)
Definition no_slash (s : jsstring) : Prop := existsb (N.eqb 47) s = false.

(** No [:] in [s]. *)
Definition no_colon (s : jsstring) : Prop := existsb (N.eqb 58) s = false.

(** No [-] in [s]. *)
Definition no_hyphen (s : jsstring) : Prop := existsb (N.eqb 45) s = false.

(** No [;] in [s]. *)
Definition no_semicolon (s : jsstring) : Prop := existsb (N.eqb 59) s = false.

(** Nothing, or something that begins with [;]. *)
Definition ends_value (rest : jsstring) : Prop := rest = [] \/ exists q, rest = 59%N :: q.

(** *** The document of a new deal *)

Section NewDeal.
Context {platform : Platform}.

(** The object literal [doc] of [POST /deal], as stored. *)
Definition new_document (user : SessionUser) (f : list (jsstring * form_value))
    (id : jsstring) (now : Z) : Deal :=
  {| userId := sub user;
     dealId := id;
     account := trim (form_string f (js "account") []);
     title := trim (form_string f (js "title") []);
     value := to_json (VNum (form_number f (js "value")));
     stage := form_string f (js "stage") (js "Qualification");
     lastAssessmentId := None;
     lastTier := VUndefined;
     lastScore := VUndefined;
     updatedAt := now |}.

End NewDeal.

(** *** More inputs, requests and worlds for the examples *)

(** The sample payload with the given ScoreSet. *)
Definition scored (s : ScoreSet) : Payload.t :=
  {| Payload.account := js "Acme"; Payload.title := js "Renewal";
     Payload.value := VNum (of_Z 1000); Payload.stage := js "Discovery";
     Payload.scores := Some s; Payload.notes := [] |}.

(** A request without a body. *)
Definition request_of (m path : string) (cookies : option jsstring) : request :=
  {| method := js m; pathname := js path; cookie_header := cookies; formData := None |}.

(** A form submission. *)
Definition submission (path : string) (cookies : option jsstring)
    (fields : list (jsstring * form_value)) : request :=
  {| method := js "POST"; pathname := js path; cookie_header := cookies;
     formData := Some fields |}.

(** The request [req] with another [Cookie] header, or none. *)
Definition with_cookie (c : option jsstring) (req : request) : request :=
  {| method := method req; pathname := pathname req; cookie_header := c;
     formData := formData req |}.

(** The session record of Ann. *)
Definition ann : SessionUser :=
  {| sub := js "u:ann@example.com"; email := js "ann@example.com" |}.

(** Ann's world with the given secrets and a network that always gives
    [reply]. *)
Definition ann_world_with (secrets : list (jsstring * jsstring)) (reply : fetch_reply)
  : world :=
  with_session (js "sid-1") (js "ann@example.com")
    (with_deals [sample_deal (js "u:ann@example.com") 7]
       (sample_world secrets reply 1700000000000)).

(** Ann's world with one more user, whose address is Ann's followed by
    [:ops], and who owns the deal [3]. *)
Definition ops_world : world :=
  with_session (js "sid-1") (js "ann@example.com")
    (with_deals [sample_deal (js "u:ann@example.com") 7;
                 sample_deal (js "u:ann@example.com:ops") 3]
       (sample_world [] NetworkFailure 1700000000000)).


(** * Properties *)

(** ** Numbers *)

Lemma num_le_of_Z (a b : Z) : num_le (of_Z a) (of_Z b) = (a <=? b).
Proof.
  unfold num_le, of_Z. destruct (Qlt_le_dec (inject_Z b) (inject_Z a)) as [H | H].
  - rewrite <- Zlt_Qlt in H. symmetry. apply Z.leb_gt. exact H.
  - rewrite <- Zle_Qle in H. symmetry. apply Z.leb_le. exact H.
Qed.

Lemma Math_min_of_Z (a b : Z) : Math_min (of_Z a) (of_Z b) = of_Z (Z.min a b).
Proof.
  unfold Math_min. change (of_Z a) with (Num (inject_Z a)) at 1.
  change (of_Z b) with (Num (inject_Z b)) at 1. cbv iota beta.
  change (Num (inject_Z a)) with (of_Z a). change (Num (inject_Z b)) with (of_Z b).
  rewrite num_le_of_Z. destruct (Z.leb_spec a b).
  - now rewrite Z.min_l.
  - rewrite Z.min_r; [reflexivity | lia].
Qed.

Lemma Math_max_of_Z (a b : Z) : Math_max (of_Z a) (of_Z b) = of_Z (Z.max a b).
Proof.
  unfold Math_max. change (of_Z a) with (Num (inject_Z a)) at 1.
  change (of_Z b) with (Num (inject_Z b)) at 1. cbv iota beta.
  change (Num (inject_Z a)) with (of_Z a). change (Num (inject_Z b)) with (of_Z b).
  rewrite num_le_of_Z. destruct (Z.leb_spec a b).
  - now rewrite Z.max_r.
  - rewrite Z.max_l; [reflexivity | lia].
Qed.

Lemma tier_of_Z (t : Z) : tier_of (of_Z t) = spec_tier t.
Proof. unfold tier_of, spec_tier, num_ge. now rewrite !num_le_of_Z. Qed.

Lemma decision_of_Z (t : Z) : decision_of (of_Z t) = spec_decision t.
Proof. unfold decision_of, spec_decision, num_ge. now rewrite !num_le_of_Z. Qed.

(** ** Rounding to binary64 *)

(** *** The nearest integer *)

Lemma rne_cases (q : Q) : rne q = Qfloor q \/ rne q = Qfloor q + 1.
Proof.
  unfold rne. destruct (Qcompare _ _); [destruct (Z.even _) | |]; auto.
Qed.

Lemma rne_comp (x y : Q) : (x == y)%Q -> rne x = rne y.
Proof.
  intros E. unfold rne. rewrite (Qfloor_comp x y E).
  assert (C : ((x - inject_Z (Qfloor y)) ?= (1 # 2))%Q = ((y - inject_Z (Qfloor y)) ?= (1 # 2))%Q).
  { apply Qcompare_comp; [now rewrite E | reflexivity]. }
  now rewrite C.
Qed.

Lemma rne_inject_Z (k : Z) : rne (inject_Z k) = k.
Proof.
  unfold rne. rewrite Qfloor_Z.
  assert (C : ((inject_Z k - inject_Z k) ?= (1 # 2))%Q = Lt).
  { apply (proj1 (Qlt_alt _ _)). lra. }
  now rewrite C.
Qed.

Lemma rne_mono (x y : Q) : (x <= y)%Q -> rne x <= rne y.
Proof.
  intros H. pose proof (Qfloor_resp_le x y H) as Hf.
  destruct (Z.eq_dec (Qfloor x) (Qfloor y)) as [E | Hne].
  - unfold rne. rewrite E.
    destruct (Qcompare (x - inject_Z (Qfloor y)) (1 # 2)) eqn:Cx;
      destruct (Qcompare (y - inject_Z (Qfloor y)) (1 # 2)) eqn:Cy;
      try (destruct (Z.even (Qfloor y))); try lia.
    all: first [apply (proj2 (Qeq_alt _ _)) in Cx | apply (proj2 (Qlt_alt _ _)) in Cx
                | apply (proj2 (Qgt_alt _ _)) in Cx].
    all: first [apply (proj2 (Qeq_alt _ _)) in Cy | apply (proj2 (Qlt_alt _ _)) in Cy
                | apply (proj2 (Qgt_alt _ _)) in Cy].
    all: lra.
  - destruct (rne_cases x) as [-> | ->]; destruct (rne_cases y) as [-> | ->]; lia.
Qed.

Lemma rne_ge (k : Z) (x : Q) : (inject_Z k <= x)%Q -> k <= rne x.
Proof. intros H. rewrite <- (rne_inject_Z k). now apply rne_mono. Qed.

Lemma rne_le (k : Z) (x : Q) : (x <= inject_Z k)%Q -> rne x <= k.
Proof. intros H. rewrite <- (rne_inject_Z k). now apply rne_mono. Qed.

(** *** Powers of two *)

Lemma two_pos (z : Z) : (0 < 2 ^ z)%Q.
Proof. apply Qpower_0_lt. reflexivity. Qed.

Lemma two_plus (a b : Z) : (2 ^ (a + b) == 2 ^ a * 2 ^ b)%Q.
Proof. apply Qpower_plus. discriminate. Qed.

Lemma two_le (a b : Z) : a <= b -> (2 ^ a <= 2 ^ b)%Q.
Proof. intros H. apply Qpower_le_compat_l; [exact H | discriminate]. Qed.

Lemma two_lt (a b : Z) : a < b -> (2 ^ a < 2 ^ b)%Q.
Proof. intros H. apply Qpower_lt_compat_l; [exact H | reflexivity]. Qed.

Lemma two_lt_inv (a b : Z) : (2 ^ a < 2 ^ b)%Q -> a < b.
Proof. intros H. apply (Qpower_lt_compat_l_inv 2); [exact H | reflexivity]. Qed.

Lemma two_inject (n : Z) : 0 <= n -> (inject_Z (2 ^ n) == 2 ^ n)%Q.
Proof. intros H. now rewrite Zpower_Qpower. Qed.

(** *** The binade *)

Lemma Q_as_quotient (m : Q) : (m * inject_Z (Zpos (Qden m)) == inject_Z (Qnum m))%Q.
Proof. destruct m as [n d]. unfold Qeq, Qmult, inject_Z. simpl. lia. Qed.

Lemma binade_spec (m : Q) :
  (0 < m)%Q -> (2 ^ binade m <= m /\ m < 2 ^ (binade m + 1))%Q.
Proof.
  intros Hm. unfold binade.
  set (n := Qnum m). set (d := Zpos (Qden m)).
  assert (Hn : 0 < n) by (destruct m as [mn md]; unfold Qlt in Hm; simpl in *; lia).
  assert (Hd : 0 < d) by reflexivity.
  set (ln := Z.log2 n). set (ld := Z.log2 d). set (a := ln - ld).
  pose proof (Z.log2_nonneg n) as Hln0. pose proof (Z.log2_nonneg d) as Hld0.
  destruct (Z.log2_spec n Hn) as [Hn1 Hn2]. destruct (Z.log2_spec d Hd) as [Hd1 Hd2].
  fold ln in Hn1, Hn2, Hln0. fold ld in Hd1, Hd2, Hld0.
  replace (Z.succ ln) with (ln + 1) in Hn2 by lia.
  replace (Z.succ ld) with (ld + 1) in Hd2 by lia.
  assert (QN1 : (2 ^ ln <= inject_Z n)%Q) by (rewrite <- two_inject by lia; now rewrite <- Zle_Qle).
  assert (QN2 : (inject_Z n < 2 ^ (ln + 1))%Q) by (rewrite <- two_inject by lia; now rewrite <- Zlt_Qlt).
  assert (QD1 : (2 ^ ld <= inject_Z d)%Q) by (rewrite <- two_inject by lia; now rewrite <- Zle_Qle).
  assert (QD2 : (inject_Z d < 2 ^ (ld + 1))%Q) by (rewrite <- two_inject by lia; now rewrite <- Zlt_Qlt).
  pose proof (Q_as_quotient m) as Hq. fold n d in Hq.
  assert (Hdq : (0 < inject_Z d)%Q) by (change 0%Q with (inject_Z 0); now rewrite <- Zlt_Qlt).
  (* m < 2^(a+1) *)
  assert (Hup : (m < 2 ^ (a + 1))%Q).
  { assert (E : (2 ^ (ln + 1) == 2 ^ (a + 1) * 2 ^ ld)%Q).
    { rewrite <- two_plus. unfold a. now replace (ln - ld + 1 + ld) with (ln + 1) by lia. }
    pose proof (two_pos (a + 1)) as P.
    assert (H1 : (m * inject_Z d < 2 ^ (a + 1) * inject_Z d)%Q) by nra.
    nra. }
  assert (Hlo : (2 ^ (a - 1) < m)%Q).
  { assert (E : (2 ^ ln == 2 ^ (a - 1) * 2 ^ (ld + 1))%Q).
    { rewrite <- two_plus. unfold a. now replace (ln - ld - 1 + (ld + 1)) with ln by lia. }
    pose proof (two_pos (a - 1)) as P.
    assert (H1 : (2 ^ (a - 1) * inject_Z d < m * inject_Z d)%Q) by nra.
    nra. }
  destruct (Qle_bool (2 ^ a) m) eqn:B.
  - apply Qle_bool_iff in B. split; [exact B | exact Hup].
  - assert (Hlt : (m < 2 ^ a)%Q).
    { apply Qnot_le_lt. intros H. apply Qle_bool_iff in H. congruence. }
    split; [apply Qlt_le_weak; exact Hlo |].
    now replace (a - 1 + 1) with a by lia.
Qed.

Lemma binade_unique (m : Q) (e : Z) :
  (2 ^ e <= m)%Q -> (m < 2 ^ (e + 1))%Q -> binade m = e.
Proof.
  intros H1 H2.
  assert (Hm : (0 < m)%Q) by (pose proof (two_pos e); lra).
  destruct (binade_spec m Hm) as [B1 B2].
  assert (binade m < e + 1) by (apply two_lt_inv; lra).
  assert (e < binade m + 1) by (apply two_lt_inv; lra).
  lia.
Qed.

Lemma binade_mono (m m' : Q) : (0 < m)%Q -> (m <= m')%Q -> binade m <= binade m'.
Proof.
  intros Hm H. destruct (binade_spec m Hm) as [B1 _].
  destruct (binade_spec m' ltac:(lra)) as [_ B2].
  assert (binade m < binade m' + 1) by (apply two_lt_inv; lra). lia.
Qed.

Lemma binade_comp (m m' : Q) : (0 < m)%Q -> (m == m')%Q -> binade m = binade m'.
Proof.
  intros Hm E. destruct (binade_spec m Hm) as [B1 B2].
  symmetry. apply binade_unique; lra.
Qed.

(** *** The nearest multiple of the spacing *)

Lemma exponent_ge (m : Q) : -1022 <= exponent m.
Proof. unfold exponent. lia. Qed.

Lemma scaled_le (m m' u : Q) : (0 < u)%Q -> (m <= m')%Q -> (m / u <= m' / u)%Q.
Proof.
  intros Hu H. unfold Qdiv. apply Qmult_le_compat_r; [exact H |].
  apply Qlt_le_weak. now apply Qinv_lt_0_compat.
Qed.

Lemma scaled_back (m u : Q) : (0 < u)%Q -> (m / u * u == m)%Q.
Proof. intros Hu. field. lra. Qed.

Lemma nearest_upper (m : Q) : (0 < m)%Q -> (nearest m <= 2 ^ (exponent m + 1))%Q.
Proof.
  intros Hm. unfold nearest. set (e := exponent m). set (u := (2 ^ (e - 52))%Q).
  assert (Hu : (0 < u)%Q) by apply two_pos.
  destruct (binade_spec m Hm) as [_ B].
  assert (Hme : (m < 2 ^ (e + 1))%Q).
  { apply Qlt_le_trans with (1 := B). apply two_le. unfold e, exponent. lia. }
  assert (E : (2 ^ (e + 1) == inject_Z (2 ^ 53) * u)%Q).
  { rewrite two_inject by lia. unfold u. rewrite <- two_plus.
    now replace (53 + (e - 52)) with (e + 1) by lia. }
  assert (Hx : (m / u <= inject_Z (2 ^ 53))%Q).
  { apply Qle_shift_div_r; [exact Hu |]. lra. }
  apply rne_le in Hx. rewrite E.
  apply Qmult_le_compat_r; [| lra]. now rewrite <- Zle_Qle.
Qed.

Lemma nearest_lower (m : Q) :
  (0 < m)%Q -> -1022 <= binade m -> (2 ^ exponent m <= nearest m)%Q.
Proof.
  intros Hm Hb. unfold nearest.
  assert (He : exponent m = binade m) by (unfold exponent; lia).
  set (e := exponent m) in *. set (u := (2 ^ (e - 52))%Q).
  assert (Hu : (0 < u)%Q) by apply two_pos.
  destruct (binade_spec m Hm) as [B _]. rewrite <- He in B.
  assert (E : (2 ^ e == inject_Z (2 ^ 52) * u)%Q).
  { rewrite two_inject by lia. unfold u. rewrite <- two_plus.
    now replace (52 + (e - 52)) with e by lia. }
  assert (Hx : (inject_Z (2 ^ 52) <= m / u)%Q).
  { apply Qle_shift_div_l; [exact Hu |]. lra. }
  apply rne_ge in Hx. rewrite E.
  apply Qmult_le_compat_r; [| lra]. now rewrite <- Zle_Qle.
Qed.

Lemma nearest_nonneg (m : Q) : (0 < m)%Q -> (0 <= nearest m)%Q.
Proof.
  intros Hm. unfold nearest. set (u := (2 ^ (exponent m - 52))%Q).
  assert (Hu : (0 < u)%Q) by apply two_pos.
  assert (Hx : (inject_Z 0 <= m / u)%Q).
  { apply Qle_shift_div_l; [exact Hu |]. change (inject_Z 0) with 0%Q. lra. }
  apply rne_ge in Hx. apply Qmult_le_0_compat; [| lra].
  change 0%Q with (inject_Z 0). now rewrite <- Zle_Qle.
Qed.

Lemma nearest_mono (m m' : Q) : (0 < m)%Q -> (m <= m')%Q -> (nearest m <= nearest m')%Q.
Proof.
  intros Hm H. assert (Hm' : (0 < m')%Q) by lra.
  pose proof (binade_mono m m' Hm H) as Hb.
  destruct (Z.eq_dec (exponent m) (exponent m')) as [E | Hne].
  - unfold nearest. rewrite E. set (u := (2 ^ (exponent m' - 52))%Q).
    assert (Hu : (0 < u)%Q) by apply two_pos.
    apply Qmult_le_compat_r; [| lra]. rewrite <- Zle_Qle.
    apply rne_mono. now apply scaled_le.
  - assert (Hlt : exponent m + 1 <= exponent m') by (unfold exponent in *; lia).
    apply Qle_trans with (1 := nearest_upper m Hm).
    apply Qle_trans with (2 := nearest_lower m' Hm' ltac:(unfold exponent in *; lia)).
    now apply two_le.
Qed.

Lemma nearest_comp (m m' : Q) : (0 < m)%Q -> (m == m')%Q -> nearest m = nearest m'.
Proof.
  intros Hm E. unfold nearest, exponent. rewrite (binade_comp m m' Hm E).
  set (u := (2 ^ _)%Q). f_equal. f_equal. apply rne_comp. now rewrite E.
Qed.

Lemma nearest_exact (m : Q) (k : Z) :
  (m / 2 ^ (exponent m - 52) == inject_Z k)%Q -> (nearest m == m)%Q.
Proof.
  intros E. unfold nearest. rewrite (rne_comp _ _ E), rne_inject_Z, <- E.
  apply scaled_back, two_pos.
Qed.

Lemma round_magnitude_comp (m m' : Q) :
  (0 < m)%Q -> (m == m')%Q -> round_magnitude m = round_magnitude m'.
Proof. intros Hm E. unfold round_magnitude. now rewrite (nearest_comp m m' Hm E). Qed.

(** *** [round64] respects equality and order *)

Lemma round64_comp (x y : Q) : (x == y)%Q -> round64 x = round64 y.
Proof.
  intros E. unfold round64.
  assert (C : (x ?= 0)%Q = (y ?= 0)%Q) by (apply Qcompare_comp; [exact E | reflexivity]).
  rewrite <- C. destruct (x ?= 0)%Q eqn:S; [reflexivity | |].
  - apply (proj2 (Qlt_alt _ _)) in S.
    rewrite (round_magnitude_comp (- x) (- y)); [reflexivity | lra | now rewrite E].
  - apply (proj2 (Qgt_alt _ _)) in S.
    rewrite (round_magnitude_comp x y); [reflexivity | lra | exact E].
Qed.

Lemma num_le_Num (x y : Q) : num_le (Num x) (Num y) = true <-> (x <= y)%Q.
Proof.
  unfold num_le. destruct (Qlt_le_dec y x) as [H | H]; split; intros H'; try easy.
  exfalso. lra.
Qed.

Lemma round_magnitude_spec (m : Q) :
  match round_magnitude m with
  | Some v => (v == nearest m)%Q /\ (nearest m < 2 ^ 1024)%Q
  | None => (2 ^ 1024 <= nearest m)%Q
  end.
Proof.
  unfold round_magnitude. destruct (Qle_bool (2 ^ 1024) (nearest m)) eqn:B.
  - now apply Qle_bool_iff.
  - split; [apply Qred_correct |]. apply Qnot_le_lt. intros H.
    apply Qle_bool_iff in H. congruence.
Qed.

Lemma round64_mono (x y : Q) : (x <= y)%Q -> num_le (round64 x) (round64 y) = true.
Proof.
  intros H. unfold round64.
  destruct (x ?= 0)%Q eqn:Sx; destruct (y ?= 0)%Q eqn:Sy.
  all: first [apply (proj2 (Qeq_alt _ _)) in Sx | apply (proj2 (Qlt_alt _ _)) in Sx
              | apply (proj2 (Qgt_alt _ _)) in Sx].
  all: first [apply (proj2 (Qeq_alt _ _)) in Sy | apply (proj2 (Qlt_alt _ _)) in Sy
              | apply (proj2 (Qgt_alt _ _)) in Sy].
  all: try (exfalso; lra).
  - reflexivity.
  - pose proof (round_magnitude_spec y) as Ry. pose proof (nearest_nonneg y Sy).
    destruct (round_magnitude y) as [v |]; [| reflexivity].
    apply num_le_Num. lra.
  - pose proof (round_magnitude_spec (- x)) as Rx. pose proof (nearest_nonneg (- x) ltac:(lra)).
    destruct (round_magnitude (- x)) as [v |]; [| reflexivity].
    apply num_le_Num. rewrite Qred_correct. lra.
  - pose proof (round_magnitude_spec (- x)) as Rx.
    pose proof (round_magnitude_spec (- y)) as Ry.
    pose proof (nearest_mono (- y) (- x) ltac:(lra) ltac:(lra)) as Hn.
    destruct (round_magnitude (- x)) as [v |]; destruct (round_magnitude (- y)) as [v' |];
      try reflexivity.
    + apply num_le_Num. rewrite !Qred_correct. lra.
    + exfalso. lra.
  - pose proof (round_magnitude_spec (- x)) as Rx.
    pose proof (round_magnitude_spec y) as Ry.
    pose proof (nearest_nonneg (- x) ltac:(lra)). pose proof (nearest_nonneg y Sy).
    destruct (round_magnitude (- x)) as [v |]; destruct (round_magnitude y) as [v' |];
      try reflexivity.
    apply num_le_Num. rewrite Qred_correct. lra.
  - pose proof (round_magnitude_spec x) as Rx.
    pose proof (round_magnitude_spec y) as Ry.
    pose proof (nearest_mono x y Sx H) as Hn.
    destruct (round_magnitude x) as [v |]; destruct (round_magnitude y) as [v' |];
      try reflexivity.
    + apply num_le_Num. lra.
    + exfalso. lra.
Qed.

(** *** Integers up to 2^53 are kept *)

Lemma Qred_inject_Z (z : Z) : Qred (inject_Z z) = inject_Z z.
Proof.
  apply Qcanon.Qred_identity. simpl. apply Z.gcd_1_r.
Qed.

Lemma binade_inject_Z (z : Z) : 0 < z -> binade (inject_Z z) = Z.log2 z.
Proof.
  intros Hz. destruct (Z.log2_spec z Hz) as [H1 H2].
  pose proof (Z.log2_nonneg z) as H0.
  apply binade_unique.
  - rewrite <- two_inject by lia. now rewrite <- Zle_Qle.
  - rewrite <- two_inject by lia. rewrite <- Zlt_Qlt. lia.
Qed.

Lemma nearest_inject_Z (z : Z) : 0 < z <= 2 ^ 53 -> (nearest (inject_Z z) == inject_Z z)%Q.
Proof.
  intros [Hz Hb]. pose proof (binade_inject_Z z Hz) as Hbin.
  destruct (Z.log2_spec z Hz) as [H1 H2]. pose proof (Z.log2_nonneg z) as H0.
  assert (Hl : Z.log2 z <= 53).
  { destruct (Z.le_gt_cases (Z.log2 z) 53) as [? | Hgt]; [assumption |].
    assert (2 ^ 54 <= 2 ^ Z.log2 z) by (apply Z.pow_le_mono_r; lia). lia. }
  assert (He : exponent (inject_Z z) = Z.log2 z) by (unfold exponent; lia).
  destruct (Z.eq_dec (Z.log2 z) 53) as [E53 | Hne].
  - assert (Ez : z = 2 ^ 53) by (rewrite E53 in H1; lia).
    apply (nearest_exact _ (2 ^ 52)). rewrite He, E53, Ez. reflexivity.
  - apply (nearest_exact _ (z * 2 ^ (52 - Z.log2 z))). rewrite He.
    rewrite inject_Z_mult, two_inject by lia.
    assert (P : (2 ^ (52 - Z.log2 z) * 2 ^ (Z.log2 z - 52) == 1)%Q).
    { rewrite <- two_plus. now replace (52 - Z.log2 z + (Z.log2 z - 52)) with 0 by lia. }
    pose proof (two_pos (Z.log2 z - 52)) as Hp.
    set (p := (2 ^ (52 - Z.log2 z))%Q) in *. set (u := (2 ^ (Z.log2 z - 52))%Q) in *.
    rewrite <- (Qdiv_mult_l (inject_Z z * p) u) by lra.
    assert (E : (inject_Z z * p * u == inject_Z z)%Q) by (rewrite <- Qmult_assoc, P; ring).
    now rewrite E.
Qed.

Lemma round64_inject_Z (z : Z) : Z.abs z <= 2 ^ 53 -> round64 (inject_Z z) = of_Z z.
Proof.
  intros Hz. unfold round64, of_Z.
  assert (Big : (inject_Z (2 ^ 53) < 2 ^ 1024)%Q) by reflexivity.
  destruct (inject_Z z ?= 0)%Q eqn:S.
  - apply (proj2 (Qeq_alt _ _)) in S. change 0%Q with (inject_Z 0) in S.
    apply (proj1 (inject_Z_injective _ _)) in S. now subst z.
  - apply (proj2 (Qlt_alt _ _)) in S.
    assert (P : (0 < - inject_Z z)%Q) by (generalize dependent (inject_Z z); intros; lra).
    change 0%Q with (inject_Z 0) in S. rewrite <- Zlt_Qlt in S.
    assert (E : (- inject_Z z == inject_Z (- z))%Q) by (rewrite inject_Z_opp; reflexivity).
    rewrite (round_magnitude_comp _ _ P E).
    pose proof (nearest_inject_Z (- z) ltac:(lia)) as N.
    unfold round_magnitude.
    assert (B : Qle_bool (2 ^ 1024) (nearest (inject_Z (- z))) = false).
    { destruct (Qle_bool _ _) eqn:B; [| reflexivity]. apply Qle_bool_iff in B.
      rewrite N in B. assert ((inject_Z (- z) <= inject_Z (2 ^ 53))%Q) by (rewrite <- Zle_Qle; lia).
      exfalso. lra. }
    rewrite B. f_equal. etransitivity; [| apply Qred_inject_Z]. apply Qred_complete.
    rewrite Qred_correct, N, inject_Z_opp. ring.
  - apply (proj2 (Qgt_alt _ _)) in S. change 0%Q with (inject_Z 0) in S.
    rewrite <- Zlt_Qlt in S.
    pose proof (nearest_inject_Z z ltac:(lia)) as N.
    unfold round_magnitude.
    assert (B : Qle_bool (2 ^ 1024) (nearest (inject_Z z)) = false).
    { destruct (Qle_bool _ _) eqn:B; [| reflexivity]. apply Qle_bool_iff in B.
      rewrite N in B. assert ((inject_Z z <= inject_Z (2 ^ 53))%Q) by (rewrite <- Zle_Qle; lia).
      exfalso. lra. }
    rewrite B. f_equal. etransitivity; [| apply Qred_inject_Z]. now apply Qred_complete.
Qed.

(** *** How far the rounding moves a number *)

Lemma rne_close (x : Q) : (x - (1 # 2) <= inject_Z (rne x) <= x + (1 # 2))%Q.
Proof.
  pose proof (Qfloor_le x) as Hlo. pose proof (Qlt_floor x) as Hhi.
  rewrite inject_Z_plus in Hhi. change (inject_Z 1) with 1%Q in Hhi.
  unfold rne.
  destruct (Qcompare (x - inject_Z (Qfloor x)) (1 # 2)) eqn:C;
    first [apply (proj2 (Qeq_alt _ _)) in C | apply (proj2 (Qlt_alt _ _)) in C
           | apply (proj2 (Qgt_alt _ _)) in C].
  - destruct (Z.even (Qfloor x)); rewrite ?inject_Z_plus; change (inject_Z 1) with 1%Q;
      generalize dependent (inject_Z (Qfloor x)); intros; lra.
  - generalize dependent (inject_Z (Qfloor x)); intros; lra.
  - rewrite inject_Z_plus. change (inject_Z 1) with 1%Q.
    generalize dependent (inject_Z (Qfloor x)); intros; lra.
Qed.

(** A number from 1 on, below 2^(E+1): rounding moves it by half a unit in
    the last place of that binade at most. *)
Lemma round64_close (m : Q) (E : Z) :
  (1 <= m)%Q -> (m < 2 ^ (E + 1))%Q -> E < 1023 ->
  exists v, round64 m = Num v /\ (m - 2 ^ (E - 53) <= v <= m + 2 ^ (E - 53))%Q.
Proof.
  intros H1 HE Hbig.
  assert (Hm : (0 < m)%Q) by lra.
  destruct (binade_spec m Hm) as [B1 B2].
  assert (Hb0 : 0 <= binade m).
  { assert (0 < binade m + 1); [| lia]. apply two_lt_inv.
    change (2 ^ 0)%Q with 1%Q. lra. }
  assert (HbE : binade m <= E).
  { assert (binade m < E + 1); [| lia]. apply two_lt_inv. lra. }
  assert (He : exponent m = binade m) by (unfold exponent; lia).
  pose proof (nearest_upper m Hm) as Hup. rewrite He in Hup.
  assert (Hfin : (nearest m < 2 ^ 1024)%Q).
  { apply Qle_lt_trans with (1 := Hup). apply two_lt. lia. }
  assert (Hclose : (m - 2 ^ (E - 53) <= nearest m <= m + 2 ^ (E - 53))%Q).
  { unfold nearest. rewrite He. set (u := (2 ^ (binade m - 52))%Q).
    assert (Hu : (0 < u)%Q) by apply two_pos.
    assert (Hhalf : (u * (1 # 2) <= 2 ^ (E - 53))%Q).
    { assert (E2 : (u == 2 ^ (binade m - 53) * 2)%Q).
      { unfold u. change 2%Q with (2 ^ 1)%Q at 3. rewrite <- two_plus.
        now replace (binade m - 53 + 1) with (binade m - 52) by lia. }
      pose proof (two_le (binade m - 53) (E - 53) ltac:(lia)). lra. }
    pose proof (rne_close (m / u)) as [R1 R2].
    pose proof (scaled_back m u Hu) as Eb.
    set (k := inject_Z (rne (m / u))) in *. set (y := (m / u)%Q) in *.
    split; nra. }
  unfold round64.
  assert (C : (m ?= 0)%Q = Gt) by (apply (proj1 (Qgt_alt _ _)); lra).
  rewrite C. unfold round_magnitude.
  assert (B : Qle_bool (2 ^ 1024) (nearest m) = false).
  { destruct (Qle_bool _ _) eqn:B; [| reflexivity]. apply Qle_bool_iff in B. exfalso. lra. }
  rewrite B. eexists. split; [reflexivity |]. rewrite Qred_correct. exact Hclose.
Qed.

Lemma Qfloor_between (y : Q) (T : Z) :
  (inject_Z T <= y)%Q -> (y < inject_Z T + 1)%Q -> Qfloor y = T.
Proof.
  intros H1 H2.
  pose proof (Qfloor_resp_le _ _ H1) as L. rewrite Qfloor_Z in L.
  pose proof (Qfloor_le y) as U.
  assert (Hlt : (inject_Z (Qfloor y) < inject_Z (T + 1))%Q).
  { rewrite inject_Z_plus. change (inject_Z 1) with 1%Q. lra. }
  rewrite <- Zlt_Qlt in Hlt. lia.
Qed.

Lemma round64_not_NaN (q : Q) : round64 q <> NaN.
Proof.
  unfold round64. destruct (q ?= 0)%Q; [discriminate | |];
    destruct (round_magnitude _); discriminate.
Qed.

Lemma number_eqb_eq (a b : number) : number_eqb a b = true -> a = b.
Proof.
  destruct a as [| s | [xn xd]], b as [| t | [yn yd]]; simpl; try discriminate; try reflexivity.
  - intros H. apply Bool.eqb_prop in H. now subst.
  - intros H. apply andb_true_iff in H as [H1 H2].
    apply Z.eqb_eq in H1. apply Pos.eqb_eq in H2. now subst.
Qed.

(** ** The order of numbers *)

Lemma num_le_not_NaN (a b : number) : num_le a b = true -> a <> NaN /\ b <> NaN.
Proof. destruct a as [| [|] |], b as [| [|] |]; simpl; intros H; split; congruence. Qed.

Lemma num_le_refl (a : number) : a <> NaN -> num_le a a = true.
Proof.
  destruct a as [| [|] | x]; try easy. intros _. apply num_le_Num. apply Qle_refl.
Qed.

Lemma num_le_below (a : number) : a <> NaN -> num_le (Inf true) a = true.
Proof. destruct a as [| [|] |]; easy. Qed.

Lemma num_le_above (a : number) : a <> NaN -> num_le a (Inf false) = true.
Proof. destruct a as [| [|] |]; easy. Qed.

Lemma num_le_trans (a b c : number) :
  num_le a b = true -> num_le b c = true -> num_le a c = true.
Proof.
  destruct a as [| [|] | x], b as [| [|] | y], c as [| [|] | z]; try easy.
  intros H1 H2. apply num_le_Num in H1, H2. apply num_le_Num. lra.
Qed.

Lemma num_le_total (a b : number) :
  a <> NaN -> b <> NaN -> num_le a b = false -> num_le b a = true.
Proof.
  destruct a as [| [|] | x], b as [| [|] | y]; try easy.
  intros _ _. unfold num_le. destruct (Qlt_le_dec y x), (Qlt_le_dec x y); try easy.
  exfalso. lra.
Qed.

(** ** The scorer's operations keep the order *)

Lemma num_add_mono (a a' : number) (x y : Q) :
  num_le a a' = true -> (x <= y)%Q ->
  num_le (num_add a (Num x)) (num_add a' (Num y)) = true.
Proof.
  intros H Hxy. destruct a as [| [|] | p], a' as [| [|] | p']; try easy.
  - apply num_le_below, round64_not_NaN.
  - apply num_le_above, round64_not_NaN.
  - apply num_le_Num in H. apply round64_mono. lra.
Qed.

Lemma reduce_mono (qs qs' : list Q) (a a' : number) :
  Forall2 Qle qs qs' -> num_le a a' = true ->
  num_le (fold_left num_add (map Num qs) a) (fold_left num_add (map Num qs') a') = true.
Proof.
  intros H. revert a a'. induction H as [| x y l l' Hxy _ IH]; intros a a' Ha; cbn [map fold_left].
  - exact Ha.
  - apply IH. now apply num_add_mono.
Qed.

Lemma Qsign_inject_Z (n : Z) : Qsign (inject_Z n) = (n ?= 0).
Proof. reflexivity. Qed.

Lemma num_div_mono (a a' : number) (n : Z) :
  0 < n -> num_le a a' = true ->
  num_le (num_div a (of_Z n)) (num_div a' (of_Z n)) = true.
Proof.
  intros Hn H.
  assert (Hs : Qsign (inject_Z n) = Gt) by (rewrite Qsign_inject_Z; now apply Z.compare_gt_iff).
  assert (Hq : (0 < inject_Z n)%Q) by (change 0%Q with (inject_Z 0); now rewrite <- Zlt_Qlt).
  destruct a as [| [|] | p], a' as [| [|] | p']; try easy; unfold num_div, of_Z; rewrite Hs.
  - reflexivity.
  - reflexivity.
  - apply num_le_below, round64_not_NaN.
  - reflexivity.
  - apply num_le_above, round64_not_NaN.
  - apply num_le_Num in H. apply round64_mono. now apply scaled_le.
Qed.

Lemma num_mul_mono (a a' : number) :
  num_le a a' = true -> num_le (num_mul a (of_Z 20)) (num_mul a' (of_Z 20)) = true.
Proof.
  intros H. destruct a as [| [|] | p], a' as [| [|] | p']; try easy.
  - apply num_le_below, round64_not_NaN.
  - apply num_le_above, round64_not_NaN.
  - apply num_le_Num in H. apply round64_mono.
    apply Qmult_le_compat_r; [exact H | discriminate].
Qed.

Lemma Math_round_mono (a a' : number) :
  num_le a a' = true -> num_le (Math_round a) (Math_round a') = true.
Proof.
  intros H. destruct a as [| [|] | p], a' as [| [|] | p']; try easy.
  apply num_le_Num in H. unfold Math_round. rewrite num_le_of_Z.
  apply Z.leb_le, Qfloor_resp_le. lra.
Qed.

Lemma Math_min_mono (c a a' : number) :
  c <> NaN -> num_le a a' = true -> num_le (Math_min c a) (Math_min c a') = true.
Proof.
  intros Hc H. destruct (num_le_not_NaN _ _ H) as [Ha Ha'].
  assert (E : forall b, b <> NaN -> Math_min c b = if num_le c b then c else b).
  { intros b Hb. destruct c, b; easy. }
  rewrite (E a Ha), (E a' Ha').
  destruct (num_le c a) eqn:C; destruct (num_le c a') eqn:C'.
  - now apply num_le_refl.
  - rewrite (num_le_trans c a a' C H) in C'. discriminate.
  - now apply num_le_total.
  - exact H.
Qed.

Lemma Math_max_mono (c a a' : number) :
  c <> NaN -> num_le a a' = true -> num_le (Math_max c a) (Math_max c a') = true.
Proof.
  intros Hc H. destruct (num_le_not_NaN _ _ H) as [Ha Ha'].
  assert (E : forall b, b <> NaN -> Math_max c b = if num_le c b then b else c).
  { intros b Hb. destruct c, b; easy. }
  rewrite (E a Ha), (E a' Ha').
  destruct (num_le c a) eqn:C; destruct (num_le c a') eqn:C'.
  - exact H.
  - rewrite (num_le_trans c a a' C H) in C'. discriminate.
  - exact C'.
  - now apply num_le_refl.
Qed.

Lemma total_of_mono (a a' : number) :
  num_le a a' = true -> num_le (total_of a) (total_of a') = true.
Proof.
  intros H. unfold total_of.
  apply Math_max_mono; [discriminate |]. apply Math_min_mono; [discriminate |].
  now apply Math_round_mono, num_mul_mono.
Qed.

Lemma average_mono (qs qs' : list Q) :
  Forall2 Qle qs qs' -> num_le (average (map Num qs)) (average (map Num qs')) = true.
Proof.
  intros H. pose proof (Forall2_length _ _ _ H) as Hl.
  destruct H as [| x y l l' Hxy Hrest]; [reflexivity |].
  unfold average. cbn [map]. cbn [length] in *. rewrite !length_map.
  injection Hl as <-. apply num_div_mono; [lia |].
  change (Num x :: map Num l) with (map Num (x :: l)).
  change (Num y :: map Num l') with (map Num (y :: l')).
  apply reduce_mono; [now constructor | reflexivity].
Qed.

(** The total of finite ratings is a number, and it grows with them. *)
Lemma score_total_mono (qs qs' : list Q) :
  Forall2 Qle qs qs' ->
  num_le (total_of (average (map Num qs))) (total_of (average (map Num qs'))) = true.
Proof. intros H. now apply total_of_mono, average_mono. Qed.

Lemma Forall2_Qle_refl (qs : list Q) : Forall2 Qle qs qs.
Proof. induction qs; constructor; [apply Qle_refl | assumption]. Qed.

(** ** The total is NaN or an integer from 0 to 100 *)

Lemma total_of_cases (avg : number) :
  (avg = NaN /\ total_of avg = NaN)
  \/ exists t, 0 <= t <= 100 /\ total_of avg = of_Z t.
Proof.
  destruct avg as [| [|] | a].
  - left. split; reflexivity.
  - right. exists 0. split; [lia |]. reflexivity.
  - right. exists 100. split; [lia |]. reflexivity.
  - right. unfold total_of. change (num_mul (Num a) (of_Z 20)) with (round64 (a * inject_Z 20)).
    destruct (round64 (a * inject_Z 20)) as [| [|] | q] eqn:E.
    + now apply round64_not_NaN in E.
    + exists 0. split; [lia |]. reflexivity.
    + exists 100. split; [lia |]. reflexivity.
    + unfold Math_round. rewrite Math_min_of_Z, Math_max_of_Z.
      eexists. split; [| reflexivity]. lia.
Qed.

(** ** Sums of integers *)

Lemma num_add_of_Z (a b : Z) :
  Z.abs (a + b) <= 2 ^ 53 -> num_add (of_Z a) (of_Z b) = of_Z (a + b).
Proof.
  intros H. unfold num_add, of_Z.
  rewrite (round64_comp _ (inject_Z (a + b))) by (now rewrite inject_Z_plus).
  now apply round64_inject_Z.
Qed.

Lemma Zsum_abs (zs : list Z) : Z.abs (Zsum zs) <= Zsum (map Z.abs zs).
Proof. induction zs as [| z zs IH]; unfold Zsum in *; simpl; lia. Qed.

Lemma Zsum_abs_nonneg (zs : list Z) : 0 <= Zsum (map Z.abs zs).
Proof. induction zs as [| z zs IH]; unfold Zsum in *; simpl; lia. Qed.

(** The reduction of integers whose sizes add up to 2^53 at most: every
    partial sum is kept. *)
Lemma reduce_integers (zs : list Z) (a : Z) :
  Z.abs a + Zsum (map Z.abs zs) <= 2 ^ 53 ->
  fold_left num_add (map of_Z zs) (of_Z a) = of_Z (a + Zsum zs).
Proof.
  revert a. induction zs as [| z zs IH]; intros a H; cbn [map fold_left].
  - unfold Zsum. simpl. now rewrite Z.add_0_r.
  - pose proof (Zsum_abs_nonneg zs) as Hn.
    assert (Hz : Zsum (map Z.abs (z :: zs)) = Z.abs z + Zsum (map Z.abs zs)) by reflexivity.
    rewrite Hz in H.
    rewrite num_add_of_Z by lia. rewrite IH by lia.
    f_equal. unfold Zsum. simpl. lia.
Qed.

Lemma Zsum_bounds (zs : list Z) :
  List.Forall (fun z => 0 <= z <= 5) zs -> 0 <= Zsum zs <= 5 * Z.of_nat (length zs).
Proof.
  induction 1 as [| z zs Hz _ IH]; unfold Zsum in *; simpl fold_right; simpl length; lia.
Qed.

Lemma Zsum_ratings (zs : list Z) :
  List.Forall (fun z => 1 <= z <= 5) zs ->
  Z.of_nat (length zs) <= Zsum zs <= 5 * Z.of_nat (length zs)
  /\ Zsum (map Z.abs zs) = Zsum zs.
Proof.
  induction 1 as [| z zs Hz _ IH]; unfold Zsum in *; cbn [map fold_right length]; [lia |].
  rewrite (Z.abs_eq z) by lia. lia.
Qed.

Lemma Qsum_integers (zs : list Z) : (Qsum (map inject_Z zs) == inject_Z (Zsum zs))%Q.
Proof.
  induction zs as [| z zs IH]; [reflexivity |].
  change (Qsum (map inject_Z (z :: zs))) with (inject_Z z + Qsum (map inject_Z zs))%Q.
  change (Zsum (z :: zs)) with (z + Zsum zs). now rewrite IH, inject_Z_plus.
Qed.

Lemma map_of_Z (zs : list Z) : map of_Z zs = map Num (map inject_Z zs).
Proof. now rewrite map_map. Qed.

Lemma Zrange_elem (a b z : Z) : a <= z <= b -> In z (Zrange a b).
Proof.
  intros H. unfold Zrange. apply in_map_iff. exists (Z.to_nat (z - a)).
  split; [lia |]. apply in_seq. lia.
Qed.

(** ** The heuristic scorer *)

Lemma spec_total_bounds (qs : list Q) : 0 <= spec_total qs <= 100.
Proof. unfold spec_total. lia. Qed.

Lemma Qsum_bounds (qs : list Q) :
  Forall (fun q => 1 <= q <= 5)%Q qs ->
  (inject_Z (Z.of_nat (length qs)) <= Qsum qs
   /\ Qsum qs <= 5 * inject_Z (Z.of_nat (length qs)))%Q.
Proof.
  induction 1 as [| q qs [Hlo Hhi] _ [IHlo IHhi]].
  - split; unfold Qsum; simpl; [apply Qle_refl | discriminate].
  - assert (Hlen : (inject_Z (Z.of_nat (length (q :: qs)))
                    == 1 + inject_Z (Z.of_nat (length qs)))%Q).
    { simpl length. rewrite Nat2Z.inj_succ, <- Z.add_1_l, inject_Z_plus. reflexivity. }
    change (Qsum (q :: qs)) with (q + Qsum qs)%Q. rewrite Hlen. split.
    + apply Qplus_le_compat; assumption.
    + assert (E : (5 * (1 + inject_Z (Z.of_nat (length qs)))
                   == 5 + 5 * inject_Z (Z.of_nat (length qs)))%Q) by ring.
      rewrite E. apply Qplus_le_compat; assumption.
Qed.

Lemma spec_mean_bounds (qs : list Q) :
  Forall (fun q => 1 <= q <= 5)%Q qs -> (1 <= spec_mean qs <= 5)%Q.
Proof.
  intros Hall. destruct qs as [| q qs]; [split; discriminate |].
  destruct (Qsum_bounds _ Hall) as [Hlo Hhi].
  unfold spec_mean. set (n := inject_Z (Z.of_nat (length (q :: qs)))) in *.
  assert (Hn : (0 < n)%Q).
  { subst n. change 0%Q with (inject_Z 0). rewrite <- Zlt_Qlt. simpl length. lia. }
  split.
  - apply Qle_shift_div_l; [exact Hn |]. now rewrite Qmult_1_l.
  - apply Qle_shift_div_r; [exact Hn | exact Hhi].
Qed.

(** Within the range of the ratings the clamp changes nothing. *)
Lemma spec_total_in_range (qs : list Q) :
  Forall (fun q => 1 <= q <= 5)%Q qs ->
  spec_total qs = Qfloor (spec_mean qs * 20 + (1 # 2))%Q /\ 20 <= spec_total qs <= 100.
Proof.
  intros Hall. destruct (spec_mean_bounds qs Hall) as [Hlo Hhi].
  set (x := (spec_mean qs * 20 + (1 # 2))%Q).
  assert (H20 : 20 <= Qfloor x).
  { change 20 with (Qfloor (inject_Z 20)). apply Qfloor_resp_le.
    subst x. apply Qle_trans with (1 * 20 + 0)%Q; [discriminate |].
    apply Qplus_le_compat; [| discriminate].
    apply Qmult_le_compat_r; [exact Hlo | discriminate]. }
  assert (H100 : Qfloor x <= 100).
  { assert (Hlt : (inject_Z (Qfloor x) < inject_Z 101)%Q).
    { apply Qle_lt_trans with x; [apply Qfloor_le |].
      subst x. apply Qle_lt_trans with (5 * 20 + (1 # 2))%Q; [| reflexivity].
      apply Qplus_le_compat; [| apply Qle_refl].
      apply Qmult_le_compat_r; [exact Hhi | discriminate]. }
    rewrite <- Zlt_Qlt in Hlt. lia. }
  unfold spec_total. fold x. lia.
Qed.

(** ** The total of integer ratings *)

(** The eighty averages from 1 to 5 whose product with 20 is a half, 20.5
    to 99.5: the scorer's product is that half, and it rounds up. *)
Lemma halves_agree : forallb half_agrees (Zrange 21 100) = true.
Proof. vm_compute. reflexivity. Qed.

(** The quotient of a sum [s] by a count [n], for ratings from 1 to 5: the
    scorer's total is [round(s / n * 20)].  At a half the product is
    exact; elsewhere the half is at least [1 / (2 * n)] away, and the two
    roundings move the product by less. *)
Lemma total_of_quotient (s n : Z) :
  0 < n <= 2 ^ 43 -> n <= s <= 5 * n ->
  let T := Qfloor (inject_Z s / inject_Z n * 20 + (1 # 2))%Q in
  total_of (num_div (of_Z s) (of_Z n)) = of_Z T /\ 20 <= T <= 100.
Proof.
  intros Hn Hs T.
  set (x := (inject_Z s / inject_Z n)%Q) in *.
  assert (HN : (0 < inject_Z n)%Q) by (change 0%Q with (inject_Z 0); rewrite <- Zlt_Qlt; lia).
  assert (HxN : (x * inject_Z n == inject_Z s)%Q) by (apply scaled_back; exact HN).
  assert (HS1 : (inject_Z n <= inject_Z s)%Q) by (rewrite <- Zle_Qle; lia).
  assert (HS5 : (inject_Z s <= 5 * inject_Z n)%Q).
  { change 5%Q with (inject_Z 5). rewrite <- inject_Z_mult, <- Zle_Qle. lia. }
  assert (HNb : (inject_Z n <= inject_Z (2 ^ 43))%Q) by (rewrite <- Zle_Qle; lia).
  assert (Hdiv : num_div (of_Z s) (of_Z n) = round64 x).
  { unfold num_div, of_Z. rewrite Qsign_inject_Z.
    destruct (Z.compare_spec n 0); try lia. reflexivity. }
  rewrite Hdiv.
  pose proof (Qfloor_le (x * 20 + (1 # 2))) as HT1.
  pose proof (Qlt_floor (x * 20 + (1 # 2))) as HT2.
  fold T in HT1, HT2. rewrite inject_Z_plus in HT2. change (inject_Z 1) with 1%Q in HT2.
  assert (Hx1 : (1 <= x)%Q).
  { unfold x. apply Qle_shift_div_l; [exact HN | lra]. }
  assert (Hx5 : (x <= 5)%Q).
  { unfold x. apply Qle_shift_div_r; [exact HN | lra]. }
  assert (HTrange : 20 <= T <= 100).
  { assert (A : (inject_Z 20 < inject_Z T + 1)%Q) by (change (inject_Z 20) with 20%Q; lra).
    assert (B : (inject_Z T < inject_Z 101)%Q) by (change (inject_Z 101) with 101%Q; lra).
    change 1%Q with (inject_Z 1) in A. rewrite <- inject_Z_plus in A.
    rewrite <- Zlt_Qlt in A, B. lia. }
  split; [| exact HTrange].
  destruct (Qeq_dec (x * 20 + (1 # 2)) (inject_Z T)) as [Htie | Hoff].
  - (* at a half *)
    assert (E : (x == inject_Z (2 * T - 1) / 40)%Q).
    { replace (2 * T - 1) with (2 * T + -1) by lia.
      rewrite inject_Z_plus, inject_Z_mult.
      change (inject_Z 2) with 2%Q. change (inject_Z (-1)) with (-1 # 1)%Q.
      generalize dependent (inject_Z T). intros t. intros. field_simplify_eq. lra. }
    rewrite (round64_comp _ _ E).
    assert (HT21 : 21 <= T <= 100).
    { assert (A : (inject_Z 20 < inject_Z T)%Q) by (change (inject_Z 20) with 20%Q; lra).
      rewrite <- Zlt_Qlt in A. lia. }
    pose proof halves_agree as H. rewrite forallb_forall in H.
    specialize (H T (Zrange_elem _ _ _ HT21)). now apply number_eqb_eq in H.
  - (* away from the halves *)
    assert (HZ1 : 2 * n * T + 1 <= 40 * s + n).
    { assert (A : (inject_Z (2 * n * T) < inject_Z (40 * s + n))%Q).
      { rewrite inject_Z_plus, !inject_Z_mult.
        change (inject_Z 2) with 2%Q. change (inject_Z 40) with 40%Q.
        assert (Hlt : (inject_Z T < x * 20 + (1 # 2))%Q).
        { apply Qle_lt_or_eq in HT1 as [? | Heq]; [assumption |]. symmetry in Heq. contradiction. }
        clear - Hlt HxN HN. generalize dependent (inject_Z T).
        generalize dependent (inject_Z s). generalize dependent (inject_Z n).
        intros. nra. }
      rewrite <- Zlt_Qlt in A. lia. }
    assert (HZ2 : 40 * s + n + 1 <= 2 * n * (T + 1)).
    { assert (A : (inject_Z (40 * s + n) < inject_Z (2 * n * (T + 1)))%Q).
      { rewrite !inject_Z_plus, !inject_Z_mult, inject_Z_plus.
        change (inject_Z 2) with 2%Q. change (inject_Z 40) with 40%Q.
        change (inject_Z 1) with 1%Q.
        clear - HT2 HxN HN. generalize dependent (inject_Z T).
        generalize dependent (inject_Z s). generalize dependent (inject_Z n).
        intros. nra. }
      rewrite <- Zlt_Qlt in A. lia. }
    assert (Q1 : (2 * inject_Z n * inject_Z T + 1 <= 40 * inject_Z s + inject_Z n)%Q).
    { change 1%Q with (inject_Z 1). change 2%Q with (inject_Z 2). change 40%Q with (inject_Z 40).
      rewrite <- !inject_Z_mult, <- !inject_Z_plus, <- Zle_Qle. exact HZ1. }
    assert (Q2 : (40 * inject_Z s + inject_Z n + 1 <= 2 * inject_Z n * (inject_Z T + 1))%Q).
    { change 1%Q with (inject_Z 1). change 2%Q with (inject_Z 2). change 40%Q with (inject_Z 40).
      rewrite <- !inject_Z_plus, <- !inject_Z_mult, <- !inject_Z_plus, <- Zle_Qle. exact HZ2. }
    destruct (round64_close x 2 Hx1 ltac:(change (2 ^ (2 + 1))%Q with 8%Q; lra) ltac:(lia))
      as (v1 & Hv1 & C1).
    assert (P51 : (2 ^ (2 - 53) == 1 # 2251799813685248)%Q) by reflexivity.
    rewrite P51 in C1.
    destruct (round64_close (v1 * 20) 6 ltac:(lra)
                ltac:(change (2 ^ (6 + 1))%Q with 128%Q; lra) ltac:(lia))
      as (v2 & Hv2 & C2).
    assert (P47 : (2 ^ (6 - 53) == 1 # 140737488355328)%Q) by reflexivity.
    rewrite P47 in C2.
    rewrite Hv1. unfold total_of.
    change (num_mul (Num v1) (of_Z 20)) with (round64 (v1 * 20)). rewrite Hv2.
    unfold Math_round.
    assert (F : Qfloor (v2 + (1 # 2)) = T).
    { change (inject_Z (2 ^ 43)) with 8796093022208%Q in HNb.
      apply Qfloor_between.
      - clear - Q1 HxN HN HNb C1 C2. generalize dependent (inject_Z T).
        generalize dependent (inject_Z s). generalize dependent (inject_Z n).
        intros. nra.
      - clear - Q2 HxN HN HNb C1 C2. generalize dependent (inject_Z T).
        generalize dependent (inject_Z s). generalize dependent (inject_Z n).
        intros. nra. }
    rewrite F, Math_min_of_Z, Math_max_of_Z. f_equal. lia.
Qed.

(** On integer ratings from 1 to 5 the scorer's total is [round(mean * 20)]:
    the sum is exact, and the quotient is the one of [total_of_quotient]. *)
Lemma score_total_integers (zs : list Z) :
  List.Forall (fun z => 1 <= z <= 5) zs -> Z.of_nat (length zs) <= 2 ^ 43 ->
  total_of (average (map of_Z zs)) = of_Z (spec_total (map inject_Z zs)).
Proof.
  intros Hall Hlen. destruct zs as [| z zs]; [vm_compute; reflexivity |].
  set (l := z :: zs) in *.
  destruct (Zsum_ratings l Hall) as [Hsum Habs].
  assert (Hn : 0 < Z.of_nat (length l) <= 2 ^ 43) by (subst l; cbn [length] in *; lia).
  assert (Hav : average (map of_Z l) = num_div (of_Z (Zsum l)) (of_Z (Z.of_nat (length l)))).
  { unfold average. subst l. cbn [map]. cbn [length]. rewrite length_map.
    change (of_Z z :: map of_Z zs) with (map of_Z (z :: zs)).
    rewrite reduce_integers; [reflexivity |]. rewrite Habs. cbn [length] in *. lia. }
  rewrite Hav.
  destruct (total_of_quotient (Zsum l) (Z.of_nat (length l)) Hn Hsum) as [E HT].
  rewrite E. f_equal. unfold spec_total.
  assert (Em : Qfloor (spec_mean (map inject_Z l) * 20 + (1 # 2))
               = Qfloor (inject_Z (Zsum l) / inject_Z (Z.of_nat (length l)) * 20 + (1 # 2))).
  { apply Qfloor_comp. unfold spec_mean. subst l. cbn [map]. rewrite <- (length_map inject_Z).
    change (inject_Z z :: map inject_Z zs) with (map inject_Z (z :: zs)).
    now rewrite Qsum_integers, length_map. }
  rewrite Em. lia.
Qed.

Lemma ratings_as_rationals (zs : list Z) :
  List.Forall (fun z => 1 <= z <= 5) zs ->
  Forall (fun q => 1 <= q <= 5)%Q (map inject_Z zs).
Proof.
  induction 1 as [| z zs Hz _ IH]; constructor; [| exact IH].
  change 1%Q with (inject_Z 1). change 5%Q with (inject_Z 5). now rewrite <- !Zle_Qle.
Qed.

Lemma Zsum_repeat (z : Z) (n : nat) : Zsum (repeat z n) = z * Z.of_nat n.
Proof. induction n as [| n IH]; unfold Zsum in *; cbn [repeat fold_right]; lia. Qed.

(** As many ratings, all of them [z], from 1 to 5: the average is [z]. *)
Lemma average_repeat (z : Z) (n : nat) :
  1 <= z <= 5 -> (0 < n)%nat -> Z.of_nat n <= 2 ^ 43 ->
  average (map of_Z (repeat z n)) = of_Z z.
Proof.
  intros Hz Hn Hlen. destruct n as [| n]; [lia |].
  unfold average. cbn [repeat map]. cbn [length]. rewrite length_map, repeat_length.
  change (of_Z z :: map of_Z (repeat z n)) with (map of_Z (repeat z (S n))).
  assert (Habs : Zsum (map Z.abs (repeat z (S n))) = z * Z.of_nat (S n)).
  { rewrite <- (Zsum_repeat z (S n)). f_equal.
    clear - Hz. induction (S n) as [| k IH]; [reflexivity |].
    cbn [repeat map]. rewrite IH, Z.abs_eq by lia. reflexivity. }
  assert (Hprod : 0 <= z * Z.of_nat (S n) <= 5 * 2 ^ 43) by nia.
  rewrite reduce_integers by (rewrite Habs; change (Z.abs 0) with 0; lia).
  rewrite Zsum_repeat. unfold num_div, of_Z. rewrite Qsign_inject_Z.
  destruct (Z.compare_spec (Z.of_nat (S n)) 0); try lia.
  - etransitivity; [| apply (round64_inject_Z z); lia]. apply round64_comp.
    rewrite Z.add_0_l, inject_Z_mult. field.
    change 0%Q with (inject_Z 0). intros E. apply (proj1 (inject_Z_injective _ _)) in E. lia.
Qed.

(** Ratings from 1 to 5: the average is a number from 1 to 5, its product
    with 20 a number from 20 to 100, and the total the integer nearest to
    that product, which the clamp leaves as it is. *)
Lemma score_total_in_range (qs : list Q) :
  Forall (fun q => 1 <= q <= 5)%Q qs -> Z.of_nat (length qs) <= 2 ^ 43 ->
  exists a p : Q,
    average (map Num qs) = Num a /\ (1 <= a <= 5)%Q
    /\ num_mul (Num a) (of_Z 20) = Num p /\ (20 <= p <= 100)%Q
    /\ total_of (average (map Num qs)) = of_Z (Qfloor (p + (1 # 2)))
    /\ 20 <= Qfloor (p + (1 # 2)) <= 100.
Proof.
  intros Hall Hlen.
  assert (Ha : exists a, average (map Num qs) = Num a /\ (1 <= a <= 5)%Q).
  { destruct qs as [| q qs]; [exists 3%Q; split; [reflexivity | split; discriminate] |].
    set (l := q :: qs) in *.
    assert (Hn : (0 < length l)%nat) by (subst l; cbn [length]; lia).
    assert (Hlo : Forall2 Qle (map inject_Z (repeat 1 (length l))) l).
    { clear Hlen Hn. induction Hall as [| x xs [Hx _] _ IH]; constructor; assumption. }
    assert (Hhi : Forall2 Qle l (map inject_Z (repeat 5 (length l)))).
    { clear Hlen Hn Hlo. induction Hall as [| x xs [_ Hx] _ IH]; constructor; assumption. }
    pose proof (average_mono _ _ Hlo) as M1. pose proof (average_mono _ _ Hhi) as M5.
    rewrite <- map_of_Z, average_repeat in M1, M5 by lia.
    destruct (average (map Num l)) as [| [|] | a]; try discriminate.
    exists a. split; [reflexivity |]. apply num_le_Num in M1, M5.
    change (inject_Z 1) with 1%Q in M1. change (inject_Z 5) with 5%Q in M5. split; assumption. }
  destruct Ha as (a & Ea & Ha1 & Ha5). exists a.
  assert (Hp : exists p, round64 (a * 20) = Num p /\ (20 <= p <= 100)%Q).
  { pose proof (round64_mono 20 (a * 20) ltac:(lra)) as M1.
    pose proof (round64_mono (a * 20) 100 ltac:(lra)) as M2.
    change 20%Q with (inject_Z 20) in M1 at 1. rewrite round64_inject_Z in M1 by (simpl; lia).
    change 100%Q with (inject_Z 100) in M2. rewrite round64_inject_Z in M2 by (simpl; lia).
    destruct (round64 (a * 20)) as [| [|] | p]; try discriminate.
    exists p. split; [reflexivity |]. apply num_le_Num in M1, M2.
    change (inject_Z 20) with 20%Q in M1. change (inject_Z 100) with 100%Q in M2.
    split; assumption. }
  destruct Hp as (p & Ep & Hp1 & Hp2). exists p.
  assert (HT : 20 <= Qfloor (p + (1 # 2)) <= 100).
  { split.
    - change 20 with (Qfloor (inject_Z 20)). apply Qfloor_resp_le.
      change (inject_Z 20) with 20%Q. lra.
    - assert (Hlt : (inject_Z (Qfloor (p + (1 # 2))) < inject_Z 101)%Q).
      { apply Qle_lt_trans with (1 := Qfloor_le _). change (inject_Z 101) with 101%Q. lra. }
      rewrite <- Zlt_Qlt in Hlt. lia. }
  split; [exact Ea |]. split; [split; assumption |].
  split; [exact Ep |]. split; [split; assumption |].
  split; [| exact HT].
  rewrite Ea. unfold total_of. change (num_mul (Num a) (of_Z 20)) with (round64 (a * 20)).
  rewrite Ep. unfold Math_round. rewrite Math_min_of_Z, Math_max_of_Z. f_equal. lia.
Qed.

(** C2. For a ScoreSet of integer ratings from 1 to 5 (2^43 of them at
    most) the scorer returns the total [round(mean * 20)], the mean being 3
    for the empty mapping; that total is in [0,100], where the clamp changes
    nothing, and tier and decision follow the fixed thresholds: at least 80
    is Strong/Go, from 60 up to 80 is Workable/Hold, below 60 is Weak/No-go,
    the boundaries 60 and 80 included.  For values in [1,5] that are not
    integers the average that binary64 computes is a number from 1 to 5,
    its product with 20 a number from 20 to 100, and the total the integer
    [Math.round] gives for that product: it is in [0,100], the clamp
    changes nothing, and tier and decision follow the same thresholds; but
    the rounding of the sum can put the product on the other side of a
    half than the exact mean ([heuristicScore_crosses_a_threshold]). *)
Theorem heuristicScore_thresholds :
  (forall (input : Payload.t) (zs : list Z),
     score_values input = map of_Z zs ->
     List.Forall (fun z => 1 <= z <= 5) zs ->
     Z.of_nat (length zs) <= 2 ^ 43 ->
     let r := heuristicScore input in
     let qs := map inject_Z zs in
     let t := spec_total qs in
     member r (js "total_score") = VNum (of_Z t)
     /\ t = Qfloor (spec_mean qs * 20 + (1 # 2))%Q
     /\ 0 <= t <= 100
     /\ (80 <= t ->
         member r (js "tier") = VStr (js "Strong")
         /\ member r (js "go_hold_nogo") = VStr (js "Go"))
     /\ (60 <= t < 80 ->
         member r (js "tier") = VStr (js "Workable")
         /\ member r (js "go_hold_nogo") = VStr (js "Hold"))
     /\ (t < 60 ->
         member r (js "tier") = VStr (js "Weak")
         /\ member r (js "go_hold_nogo") = VStr (js "No-go")))
  /\ (forall (input : Payload.t) (qs : list Q),
        score_values input = map Num qs ->
        Forall (fun q => 1 <= q <= 5)%Q qs ->
        Z.of_nat (length qs) <= 2 ^ 43 ->
        let r := heuristicScore input in
        exists (a p : Q) (t : Z),
          average (score_values input) = Num a /\ (1 <= a <= 5)%Q
          /\ num_mul (Num a) (of_Z 20) = Num p /\ (20 <= p <= 100)%Q
          /\ t = Qfloor (p + (1 # 2))%Q
          /\ member r (js "total_score") = VNum (of_Z t)
          /\ 0 <= t <= 100
          /\ (80 <= t ->
              member r (js "tier") = VStr (js "Strong")
              /\ member r (js "go_hold_nogo") = VStr (js "Go"))
          /\ (60 <= t < 80 ->
              member r (js "tier") = VStr (js "Workable")
              /\ member r (js "go_hold_nogo") = VStr (js "Hold"))
          /\ (t < 60 ->
              member r (js "tier") = VStr (js "Weak")
              /\ member r (js "go_hold_nogo") = VStr (js "No-go"))).
Proof.
  assert (Hthresholds : forall (t : Z) (m : jsstring),
    let r := result_object (spec_tier t) (spec_decision t) (of_Z t) m in
    (80 <= t ->
     member r (js "tier") = VStr (js "Strong") /\ member r (js "go_hold_nogo") = VStr (js "Go"))
    /\ (60 <= t < 80 ->
        member r (js "tier") = VStr (js "Workable")
        /\ member r (js "go_hold_nogo") = VStr (js "Hold"))
    /\ (t < 60 ->
        member r (js "tier") = VStr (js "Weak")
        /\ member r (js "go_hold_nogo") = VStr (js "No-go"))).
  { intros t m r. subst r.
    change (member (result_object ?a ?b ?c ?d) (js "tier")) with (VStr a).
    change (member (result_object ?a ?b ?c ?d) (js "go_hold_nogo")) with (VStr b).
    unfold spec_tier, spec_decision.
    split; [| split].
    - intros Hr. destruct (Z.leb_spec 80 t); [split; reflexivity | lia].
    - intros Hr. destruct (Z.leb_spec 80 t); [lia |].
      destruct (Z.leb_spec 60 t); [split; reflexivity | lia].
    - intros Hr. destruct (Z.leb_spec 80 t); [lia |].
      destruct (Z.leb_spec 60 t); [lia | split; reflexivity]. }
  split.
  - intros input zs Hv Hall Hlen r qs t.
    pose proof (score_total_integers zs Hall Hlen) as Htotal. fold qs in Htotal. fold t in Htotal.
    assert (Hr : r = result_object (spec_tier t) (spec_decision t) (of_Z t) heuristic_marker).
    { subst r. unfold heuristicScore. now rewrite Hv, Htotal, tier_of_Z, decision_of_Z. }
    rewrite Hr. split; [reflexivity |].
    split; [apply (spec_total_in_range qs (ratings_as_rationals zs Hall)) |].
    split; [apply spec_total_bounds |]. apply Hthresholds.
  - intros input qs Hv Hall Hlen r.
    destruct (score_total_in_range qs Hall Hlen) as (a & p & Ea & Ha & Ep & Hp & Htotal & HT).
    exists a, p, (Qfloor (p + (1 # 2))).
    assert (Hr : r = result_object (spec_tier (Qfloor (p + (1 # 2))))
                       (spec_decision (Qfloor (p + (1 # 2))))
                       (of_Z (Qfloor (p + (1 # 2)))) heuristic_marker).
    { subst r. unfold heuristicScore. now rewrite Hv, Htotal, tier_of_Z, decision_of_Z. }
    rewrite Hr. split; [now rewrite Hv |]. split; [exact Ha |]. split; [exact Ep |].
    split; [exact Hp |]. split; [reflexivity |]. split; [reflexivity |]. split; [lia |].
    apply Hthresholds.
Qed.

(** At the two boundaries: eight ratings of 4 total 80 and are Strong/Go,
    eight ratings of 3 total 60 and are Workable/Hold; and the eight
    ratings 2.1, 3.0, 2.7, 2.9, 1.5, 4.3, 2.9, 4.4 total 59 and are Weak/No-go. *)
Lemma heuristicScore_thresholds_witness :
  (member (heuristicScore (rated (repeat (of_Z 4) 8))) (js "total_score") = VNum (of_Z 80)
   /\ member (heuristicScore (rated (repeat (of_Z 4) 8))) (js "tier") = VStr (js "Strong")
   /\ member (heuristicScore (rated (repeat (of_Z 4) 8))) (js "go_hold_nogo") = VStr (js "Go"))
  /\ (member (heuristicScore (rated (repeat (of_Z 3) 8))) (js "total_score") = VNum (of_Z 60)
      /\ member (heuristicScore (rated (repeat (of_Z 3) 8))) (js "tier") = VStr (js "Workable")
      /\ member (heuristicScore (rated (repeat (of_Z 3) 8))) (js "go_hold_nogo")
         = VStr (js "Hold"))
  /\ (member (heuristicScore (rated (map Num (map tenths close_ratings)))) (js "total_score")
      = VNum (of_Z 59)
      /\ member (heuristicScore (rated (map Num (map tenths close_ratings)))) (js "tier")
         = VStr (js "Weak")
      /\ member (heuristicScore (rated (map Num (map tenths close_ratings))))
                (js "go_hold_nogo")
         = VStr (js "No-go")).
Proof.
  destruct heuristicScore_thresholds as [Hint Hany].
  assert (Hall : forall z, 1 <= z <= 5 -> List.Forall (fun z => 1 <= z <= 5) (repeat z 8)).
  { intros z Hz. apply List.Forall_forall. intros x Hx. apply repeat_spec in Hx. now subst. }
  split; [| split].
  - destruct (Hint (rated (repeat (of_Z 4) 8)) (repeat 4 8) eq_refl (Hall 4 ltac:(lia))
                ltac:(vm_compute; discriminate)) as (Ht & _ & _ & H80 & _).
    assert (E : spec_total (map inject_Z (repeat 4 8)) = 80) by (vm_compute; reflexivity).
    rewrite E in Ht, H80. split; [exact Ht |]. apply H80. lia.
  - destruct (Hint (rated (repeat (of_Z 3) 8)) (repeat 3 8) eq_refl (Hall 3 ltac:(lia))
                ltac:(vm_compute; discriminate)) as (Ht & _ & _ & _ & H60 & _).
    assert (E : spec_total (map inject_Z (repeat 3 8)) = 60) by (vm_compute; reflexivity).
    rewrite E in Ht, H60. split; [exact Ht |]. apply H60. lia.
  - assert (Hclose : Forall (fun q => 1 <= q <= 5)%Q (map tenths close_ratings)).
    { unfold close_ratings. cbn [map].
      repeat (apply List.Forall_cons;
              [split; apply Qle_bool_iff; vm_compute; reflexivity |]).
      apply List.Forall_nil. }
    destruct (Hany (rated (map Num (map tenths close_ratings))) (map tenths close_ratings)
                eq_refl Hclose ltac:(vm_compute; discriminate))
      as (a & p & t & _ & _ & _ & _ & _ & Ht & _ & _ & _ & Hweak).
    assert (E : member (heuristicScore (rated (map Num (map tenths close_ratings))))
                       (js "total_score") = VNum (of_Z 59)) by (vm_compute; reflexivity).
    split; [exact E |]. rewrite E in Ht. injection Ht as <-. apply Hweak. lia.
Defined.

(** The ratings 2.1, 3.0, 2.7, 2.9, 1.5, 4.3, 2.9 and 4.4, each the binary64
    number of its decimal: their mean times 20 is 59.5 and more, which rounds
    to 60, Workable; the scorer's sum comes out one unit in the last place
    lower, its product is 59.49999999999999, and the result is 59, Weak.
    The machine's binary64 operations give the same product. *)
Example heuristicScore_crosses_a_threshold :
  let qs := map tenths close_ratings in
  let r := heuristicScore (rated (map Num qs)) in
  score_values (rated (map Num qs)) = map Num qs
  /\ Forall (fun q => 1 <= q <= 5)%Q qs
  /\ member r (js "total_score") = VNum (of_Z 59)
  /\ member r (js "tier") = VStr (js "Weak")
  /\ member r (js "go_hold_nogo") = VStr (js "No-go")
  /\ Qfloor (spec_mean qs * 20 + (1 # 2))%Q = 60
  /\ spec_total qs = 60
  /\ spec_tier (spec_total qs) = js "Workable"
  /\ map binary64_number (map binary64_tenths close_ratings) = map Num qs
  /\ binary64_number (scaled_average_binary64 (map binary64_tenths close_ratings))
     = num_mul (average (map Num qs)) (of_Z 20).
Proof.
  intros qs r.
  split; [reflexivity |].
  split.
  { subst qs. unfold close_ratings. cbn [map].
    repeat (apply List.Forall_cons;
            [split; apply Qle_bool_iff; vm_compute; reflexivity |]).
    apply List.Forall_nil. }
  repeat split; vm_compute; reflexivity.
Qed.

(** C9. With no ratings the average is 3, the total 60, the tier Workable and
    the decision Hold; and whatever the input, the result of the heuristic
    scorer carries the marker "Heuristic fallback scoring.". *)
Theorem heuristicScore_empty_and_marker :
  (forall input : Payload.t,
     score_values input = [] ->
     average (score_values input) = of_Z 3
     /\ total_of (average (score_values input)) = of_Z 60
     /\ heuristicScore input =
          result_object (js "Workable") (js "Hold") (of_Z 60) (js "Heuristic fallback scoring."))
  /\ (forall input : Payload.t,
        member (heuristicScore input) (js "analysis") = VStr (js "Heuristic fallback scoring.")).
Proof.
  split.
  - intros input Hv. unfold heuristicScore. rewrite Hv.
    repeat split; vm_compute; reflexivity.
  - intros input. reflexivity.
Qed.

(** The payload with an empty [scores] object, and the one without [scores]. *)
Lemma heuristicScore_empty_and_marker_witness :
  let input s :=
    {| Payload.account := js "Acme"; Payload.title := js "Renewal";
       Payload.value := VNum (of_Z 1000); Payload.stage := js "Discovery";
       Payload.scores := s; Payload.notes := [] |} in
  heuristicScore (input (Some [])) =
    result_object (js "Workable") (js "Hold") (of_Z 60) heuristic_marker
  /\ heuristicScore (input None) =
       result_object (js "Workable") (js "Hold") (of_Z 60) heuristic_marker.
Proof.
  intros input. destruct heuristicScore_empty_and_marker as [Hempty _].
  split.
  - apply (Hempty (input (Some []))). reflexivity.
  - apply (Hempty (input None)). reflexivity.
Defined.

(** ** The scorer in binary64 *)

(** A property of every integer from 0 to [n], checked one by one. *)
Lemma each_upto (P : Z -> Prop) (n : nat) :
  List.Forall P (map Z.of_nat (seq 0 (S n))) ->
  forall z, 0 <= z <= Z.of_nat n -> P z.
Proof.
  intros H z Hz. rewrite List.Forall_forall in H. apply H.
  apply in_map_iff. exists (Z.to_nat z). split; [lia |].
  apply in_seq. lia.
Qed.

(** Adding a rating to a partial sum is exact. *)
Lemma binary64_add_exact (a b : Z) :
  0 <= a <= 40 -> 0 <= b <= 5 ->
  PrimFloat.add (binary64 a) (binary64 b) = binary64 (a + b).
Proof.
  intros Ha Hb. revert b Hb. pattern a. apply (each_upto _ 40); [| exact Ha].
  repeat (apply List.Forall_cons;
          [intros b Hb; pattern b; apply (each_upto _ 5); [| exact Hb];
           repeat (apply List.Forall_cons; [vm_compute; reflexivity |]);
           apply List.Forall_nil |]).
  apply List.Forall_nil.
Qed.

Lemma binary64_sum_exact (zs : list Z) (a : Z) :
  List.Forall (fun z => 0 <= z <= 5) zs ->
  0 <= a -> a + 5 * Z.of_nat (length zs) <= 45 ->
  fold_left PrimFloat.add (map binary64 zs) (binary64 a) = binary64 (a + Zsum zs).
Proof.
  intros Hall. revert a.
  induction Hall as [| z zs Hz _ IH]; intros a Ha Hlen; cbn [map fold_left].
  - unfold Zsum. simpl. now rewrite Z.add_0_r.
  - simpl length in Hlen. rewrite binary64_add_exact by lia.
    rewrite IH by lia. f_equal. unfold Zsum. simpl. lia.
Qed.

(** On eight integer ratings from 0 to 5, the number the scorer rounds,
    [avg * 20], is on the machine the number of the model. *)
Lemma binary64_on_eight_ratings (zs : list Z) :
  length zs = 8%nat ->
  List.Forall (fun z => 0 <= z <= 5) zs ->
  option_map Num (binary64_value (scaled_average_binary64 (map binary64 zs)))
  = Some (num_mul (average (map of_Z zs)) (of_Z 20)).
Proof.
  intros Hlen Hall. pose proof (Zsum_bounds zs Hall) as Hsum. rewrite Hlen in Hsum.
  unfold scaled_average_binary64. rewrite length_map, Hlen.
  rewrite (binary64_sum_exact zs 0 Hall) by (rewrite ?Hlen; lia).
  assert (Habs : Zsum (map Z.abs zs) = Zsum zs).
  { clear Hlen Hsum. induction Hall as [| z l Hz _ IH]; [reflexivity |].
    unfold Zsum in *. cbn [map fold_right]. rewrite IH, (Z.abs_eq z) by lia. reflexivity. }
  assert (Hav : average (map of_Z zs) = num_div (of_Z (0 + Zsum zs)) (of_Z 8)).
  { destruct zs as [| z zs]; [discriminate Hlen |].
    unfold average. cbn [map]. rewrite <- (reduce_integers (z :: zs) 0).
    - cbn [map length]. rewrite length_map. simpl in Hlen. injection Hlen as ->. reflexivity.
    - rewrite Habs. simpl Z.abs. lia. }
  rewrite Hav. simpl (0 + Zsum zs). pattern (Zsum zs). apply (each_upto _ 40); [| simpl; lia].
  repeat (apply List.Forall_cons; [vm_compute; reflexivity |]). apply List.Forall_nil.
Qed.

(** Sum, quotient and product of the binary64 numbers [a / 10] and [b / 10],
    for [a] from 0 to 40 and [b] from 1 to 50: the machine's results are the
    ones of [round64]. *)
Example round64_as_the_machine :
  forallb (fun a => forallb (fun b => machine_agrees (binary64_tenths a) (binary64_tenths b))
                            (Zrange 1 50))
          (Zrange 0 40) = true.
Proof. vm_compute. reflexivity. Qed.

(** Past the largest finite number, at the smallest, and between two
    neighbours. *)
Example round64_at_the_ends :
  round64 (2 ^ 1024) = Inf false
  /\ round64 (2 ^ 1024 - 2 ^ 970) = Inf false
  /\ round64 (2 ^ 1024 - 2 ^ 970 - 1) = Num (Qred (2 ^ 1024 - 2 ^ 971))
  /\ round64 (- 2 ^ 1024) = Inf true
  /\ round64 (2 ^ (-1075)) = Num 0
  /\ round64 (3 * 2 ^ (-1075)) = Num (Qred (2 ^ (-1073)))
  /\ round64 (inject_Z (2 ^ 53 + 1)) = of_Z (2 ^ 53)
  /\ round64 (inject_Z (2 ^ 53 + 3)) = of_Z (2 ^ 53 + 4)
  /\ round64 (1 # 10) = Num (3602879701896397 # 36028797018963968).
Proof. repeat split; vm_compute; reflexivity. Qed.

(** ** [JSON.parse] on examples *)

Example JSON_parse_object :
  JSON_parse (jsq " {'tier': 'Strong', 'total_score': 85, 'tags': [true, null, -1.5e1]} ")
  = Some (VObj [ (js "tier", VStr (js "Strong"));
                 (js "total_score", VNum (of_Z 85));
                 (js "tags", VArr [VBool true; VNull; VNum (of_Z (-15))]) ]).
Proof. vm_compute. reflexivity. Qed.

Example JSON_parse_escapes :
  JSON_parse (jsq "'a\n\u0041\''") = Some (VStr [97; 10; 65; 34]%N).
Proof. vm_compute. reflexivity. Qed.

Example JSON_parse_repeated_key :
  JSON_parse (jsq "{'a': 1, 'b': 2, 'a': 3}")
  = Some (VObj [ (js "a", VNum (of_Z 3)); (js "b", VNum (of_Z 2)) ]).
Proof. vm_compute. reflexivity. Qed.

(** Array indices come first among the properties, in ascending order. *)
Example JSON_parse_index_keys :
  JSON_parse (jsq "{'b': 1, '10': 2, '9': 3, '01': 4, 'a': 5}")
  = Some (VObj [ (js "9", VNum (of_Z 3)); (js "10", VNum (of_Z 2));
                 (js "b", VNum (of_Z 1)); (js "01", VNum (of_Z 4));
                 (js "a", VNum (of_Z 5)) ]).
Proof. vm_compute. reflexivity. Qed.

(** A literal is the nearest binary64 number: an infinity past the largest,
    the even neighbour at a tie. *)
Example JSON_parse_rounds :
  JSON_parse (js "1e400") = Some (VNum (Inf false))
  /\ JSON_parse (js "-1e400") = Some (VNum (Inf true))
  /\ JSON_parse (js "9007199254740993") = Some (VNum (of_Z 9007199254740992))
  /\ JSON_parse (js "0.1") = Some (VNum (Num (3602879701896397 # 36028797018963968)))
  /\ JSON_parse (js "1e-400") = Some (VNum (of_Z 0)).
Proof. repeat split; vm_compute; reflexivity. Qed.

Example JSON_parse_rejects :
  map JSON_parse [ js ""; js "[1,]"; js "01"; js "[1 2]"; jsq "{'a':1,}"; js "nul";
                   js "-"; js "1."; js ".5"; js "[]]"; js "[[]"; js "truefalse";
                   jsq "{a:1}"; jsq "'open"; js "```" ]
  = repeat None 15.
Proof. vm_compute. reflexivity. Qed.

Example safeJSON_fenced :
  safeJSON (js "```json" ++ [10%N] ++ jsq "{'tier':'Weak'}" ++ [10%N] ++ js "```")
  = VObj [ (js "tier", VStr (js "Weak")) ].
Proof. vm_compute. reflexivity. Qed.

Example cookie_match_examples :
  cookie_match (js "apx") (js "apx=abc; theme=dark") = Some (js "abc")
  /\ cookie_match (js "apx") (js "theme=dark; apx=abc") = Some (js "abc")
  /\ cookie_match (js "apx") (js "xapx=abc") = None
  /\ cookie_match (js "apx") (js "apx=; theme=dark") = None.
Proof. repeat split. Qed.

(** ** The lexer at the ends of a text *)

(** Booleans of the character tests, as propositions for [lia]. *)
Ltac char_facts :=
  repeat match goal with
         | H : _ && _ = true |- _ => apply andb_true_iff in H; destruct H
         | H : _ || _ = true |- _ => apply orb_true_iff in H; destruct H
         | H : _ && _ = false |- _ => apply andb_false_iff in H; destruct H
         | H : _ || _ = false |- _ => apply orb_false_iff in H; destruct H
         | H : N.eqb _ _ = true |- _ => apply N.eqb_eq in H
         | H : N.eqb _ _ = false |- _ => apply N.eqb_neq in H
         | H : N.leb _ _ = true |- _ => apply N.leb_le in H
         | H : N.leb _ _ = false |- _ => apply N.leb_gt in H
         | H : N.ltb _ _ = true |- _ => apply N.ltb_lt in H
         | H : N.ltb _ _ = false |- _ => apply N.ltb_ge in H
         end.

(** Decide a character test in the goal from the facts at hand. *)
Ltac char_test :=
  repeat match goal with
         | |- context [N.eqb ?a ?b] =>
             let E := fresh "E" in destruct (N.eqb a b) eqn:E; char_facts; try lia
         | |- context [N.leb ?a ?b] =>
             let E := fresh "E" in destruct (N.leb a b) eqn:E; char_facts; try lia
         | |- context [N.ltb ?a ?b] =>
             let E := fresh "E" in destruct (N.ltb a b) eqn:E; char_facts; try lia
         end.

Lemma idle_step_space (c : N) :
  is_js_space c = true ->
  idle_step c = if is_json_space c then Some (MIdle, []) else None.
Proof.
  intros H. unfold idle_step. destruct (is_json_space c) eqn:Ej; [reflexivity |].
  unfold is_js_space, is_json_space, is_digit in *. char_facts.
  all: char_test; simpl; try reflexivity; try lia.
Qed.

Lemma number_step_space (ph : numphase) (a : numacc) (c : N) :
  is_js_space c = true -> number_step ph a c = None.
Proof.
  intros H. unfold is_js_space in H. char_facts.
  all: destruct ph; unfold number_step, is_digit; char_test; reflexivity.
Qed.

Lemma literal_char (l : literal) (seen : nat) (x : N) :
  nth_error (literal_text l) seen = Some x ->
  is_js_space x = false /\ x <> backtick.
Proof.
  intros H.
  destruct l; do 6 (try destruct seen as [| seen]); simpl in H;
    try discriminate; injection H as <-; split; (reflexivity || discriminate).
Qed.

Lemma lex_fail_absorbing (s : jsstring) : fold_left lex_feed s None = None.
Proof. induction s; simpl; auto. Qed.

Lemma lex_run_snoc (s : jsstring) (c : N) : lex_run (s ++ [c]) = lex_feed (lex_run s) c.
Proof. unfold lex_run. now rewrite fold_left_app. Qed.

(** White space at the end of a text adds no token. *)
Lemma finish_feed_space (st : lex_state) (c : N) (ts : list token) :
  is_js_space c = true ->
  lex_finish (lex_feed st c) = Some ts ->
  lex_finish st = Some ts.
Proof.
  intros Hc H. destruct st as [[m out] |]; [| discriminate].
  destruct m as [| acc | acc | more code acc | l seen | ph a];
    unfold lex_feed, lex_step in H.
  - rewrite (idle_step_space c Hc) in H.
    destruct (is_json_space c); [| discriminate].
    simpl in H. now rewrite app_nil_r in H.
  - exfalso. destruct (N.eqb_spec c 34) as [-> | _]; [discriminate Hc |].
    destruct (N.eqb c 92); [discriminate H |].
    destruct (N.ltb c 32); discriminate H.
  - exfalso. destruct (N.eqb c 117); [discriminate H |].
    destruct (escape_value c); discriminate H.
  - exfalso. destruct (hex_value c); [| discriminate H].
    destruct more; discriminate H.
  - exfalso. destruct (nth_error (literal_text l) seen) as [x |] eqn:Ex; [| discriminate H].
    destruct (literal_char _ _ _ Ex) as [Hx _].
    destruct (N.eqb_spec c x) as [-> | _]; [congruence | discriminate H].
  - rewrite (number_step_space ph a c Hc) in H. simpl.
    destruct (num_final ph); [| discriminate H].
    rewrite (idle_step_space c Hc) in H.
    destruct (is_json_space c); [| discriminate H].
    simpl in H. exact H.
Qed.

(** No text that ends in a backtick is lexed. *)
Lemma finish_feed_backtick (st : lex_state) : lex_finish (lex_feed st backtick) = None.
Proof.
  destruct st as [[m out] |]; [| reflexivity].
  destruct m as [| acc | acc | more code acc | l seen | ph a];
    unfold lex_feed, lex_step; try reflexivity.
  - destruct (nth_error (literal_text l) seen) as [x |] eqn:Ex; [| reflexivity].
    destruct (literal_char _ _ _ Ex) as [_ Hx].
    destruct (N.eqb_spec backtick x) as [E | _]; [congruence | reflexivity].
  - destruct ph; reflexivity.
Qed.

Lemma JSON_lex_snoc_space (s : jsstring) (c : N) (ts : list token) :
  is_js_space c = true -> JSON_lex (s ++ [c]) = Some ts -> JSON_lex s = Some ts.
Proof.
  unfold JSON_lex. rewrite lex_run_snoc. apply finish_feed_space.
Qed.

Lemma JSON_lex_snoc_backtick (s : jsstring) : JSON_lex (s ++ [backtick]) = None.
Proof. unfold JSON_lex. rewrite lex_run_snoc. apply finish_feed_backtick. Qed.

Lemma JSON_lex_cons_space (c : N) (s : jsstring) (ts : list token) :
  is_js_space c = true -> JSON_lex (c :: s) = Some ts -> JSON_lex s = Some ts.
Proof.
  intros Hc. unfold JSON_lex, lex_run. simpl.
  rewrite (idle_step_space c Hc). destruct (is_json_space c); [trivial |].
  now rewrite lex_fail_absorbing.
Qed.

(** A text that is lexed begins with no backtick and no letter J. *)
Lemma JSON_lex_first (c : N) (s : jsstring) (ts : list token) :
  JSON_lex (c :: s) = Some ts -> c <> backtick /\ eq_nocase 106 c = false.
Proof.
  unfold JSON_lex, lex_run. simpl. intros H.
  assert (Hi : idle_step c <> None).
  { intros E. rewrite E, lex_fail_absorbing in H. discriminate. }
  split.
  - intros ->. now apply Hi.
  - unfold eq_nocase. destruct (N.eqb_spec c 106) as [-> | _]; [now elim Hi |].
    destruct (N.eqb_spec c (106 - 32)) as [-> | _]; [now elim Hi | reflexivity].
Qed.

(** ** [trim] *)

Lemma trimStart_blank_app (pre s : jsstring) : blank pre -> trimStart (pre ++ s) = trimStart s.
Proof.
  unfold blank. induction pre as [| c pre IH]; simpl; [trivial |].
  intros H. apply andb_true_iff in H as [Hc Hpre]. rewrite Hc. auto.
Qed.

Lemma trimStart_app (s t : jsstring) :
  trimStart s <> [] -> trimStart (s ++ t) = trimStart s ++ t.
Proof.
  induction s as [| c s IH]; simpl; [congruence |].
  destruct (is_js_space c); auto.
Qed.

Lemma trimEnd_snoc (s : jsstring) (c : N) :
  trimEnd (s ++ [c]) = if is_js_space c then trimEnd s else s ++ [c].
Proof.
  unfold trimEnd. rewrite rev_app_distr. simpl.
  destruct (is_js_space c); [reflexivity |].
  simpl. now rewrite rev_involutive.
Qed.

Lemma trimEnd_app_blank (s post : jsstring) : blank post -> trimEnd (s ++ post) = trimEnd s.
Proof.
  unfold blank. induction post as [| c post IH] using rev_ind; intros H.
  - now rewrite app_nil_r.
  - rewrite forallb_app in H. apply andb_true_iff in H as [Hpost Hc].
    simpl in Hc. rewrite andb_true_r in Hc.
    rewrite app_assoc, trimEnd_snoc, Hc. auto.
Qed.

Lemma trimEnd_app (a b : jsstring) : trimEnd b <> [] -> trimEnd (a ++ b) = a ++ trimEnd b.
Proof.
  induction b as [| c b IH] using rev_ind; [now unfold trimEnd |].
  rewrite app_assoc, !trimEnd_snoc. destruct (is_js_space c); [exact IH |].
  now rewrite app_assoc.
Qed.

(** A JSON text stays one when [trim] takes the white space off its ends. *)
Lemma JSON_lex_trimStart (s : jsstring) (ts : list token) :
  JSON_lex s = Some ts -> JSON_lex (trimStart s) = Some ts.
Proof.
  induction s as [| c s IH]; simpl; [trivial |].
  destruct (is_js_space c) eqn:Hc; [| trivial].
  intros H. apply IH. exact (JSON_lex_cons_space c s ts Hc H).
Qed.

Lemma JSON_lex_trimEnd (s : jsstring) (ts : list token) :
  JSON_lex s = Some ts -> JSON_lex (trimEnd s) = Some ts.
Proof.
  induction s as [| c s IH] using rev_ind; [trivial |].
  rewrite trimEnd_snoc. destruct (is_js_space c) eqn:Hc; [| trivial].
  intros H. apply IH. exact (JSON_lex_snoc_space s c ts Hc H).
Qed.

Lemma JSON_parse_trimStart (s : jsstring) (v : jsval) :
  JSON_parse s = Some v -> JSON_parse (trimStart s) = Some v.
Proof.
  unfold JSON_parse. destruct (JSON_lex s) as [ts |] eqn:E; [| discriminate].
  now rewrite (JSON_lex_trimStart s ts E).
Qed.

Lemma JSON_parse_trimEnd (s : jsstring) (v : jsval) :
  JSON_parse s = Some v -> JSON_parse (trimEnd s) = Some v.
Proof.
  unfold JSON_parse. destruct (JSON_lex s) as [ts |] eqn:E; [| discriminate].
  now rewrite (JSON_lex_trimEnd s ts E).
Qed.

(** The two ends of a JSON text: it is not empty, it begins with no
    backtick and no letter J, and it does not end in a backtick. *)
Lemma JSON_parse_ends (s : jsstring) (v : jsval) :
  JSON_parse s = Some v ->
  (exists c r, s = c :: r /\ c <> backtick /\ eq_nocase 106 c = false)
  /\ (forall r, s <> r ++ [backtick]).
Proof.
  unfold JSON_parse. destruct (JSON_lex s) as [ts |] eqn:E; [| discriminate].
  intros Hv. split.
  - destruct s as [| c r]; [cbv in E; injection E as <-; discriminate Hv |].
    exists c, r. split; [reflexivity |]. exact (JSON_lex_first c r ts E).
  - intros r ->. rewrite JSON_lex_snoc_backtick in E. discriminate.
Qed.

Lemma trimStart_nil_blank (s : jsstring) : trimStart s = [] -> blank s.
Proof.
  unfold blank. induction s as [| c s IH]; simpl; [trivial |].
  destruct (is_js_space c); [exact IH | discriminate].
Qed.

Lemma trimStart_blank (s : jsstring) : blank s -> trimStart s = [].
Proof.
  intros H. rewrite <- (app_nil_r s). now rewrite trimStart_blank_app.
Qed.

(** White space around a text does not survive [trim]. *)
Lemma trim_blank (pre s post : jsstring) :
  blank pre -> blank post -> trim (pre ++ s ++ post) = trim s.
Proof.
  intros Hpre Hpost. unfold trim. rewrite (trimStart_blank_app pre _ Hpre).
  destruct (trimStart s) as [| c r] eqn:E.
  - rewrite trimStart_blank; [reflexivity |].
    unfold blank in *. rewrite forallb_app, Hpost, andb_true_r.
    exact (trimStart_nil_blank s E).
  - rewrite trimStart_app by congruence. rewrite E.
    now apply trimEnd_app_blank.
Qed.

Lemma trimEnd_fence (s : jsstring) : trimEnd (s ++ fence) = s ++ fence.
Proof.
  change fence with ([backtick; backtick] ++ [backtick]).
  rewrite app_assoc, trimEnd_snoc. reflexivity.
Qed.

(** ** The fences *)

Lemma strip_fence_json_other (c : N) (rest : jsstring) :
  c <> backtick -> strip_fence_json (c :: rest) = c :: rest.
Proof.
  intros Hc. unfold strip_fence_json.
  destruct rest as [| ? [| ? [| ? [| ? [| ? [| ? ?]]]]]]; try reflexivity.
  apply N.eqb_neq in Hc. now rewrite Hc.
Qed.

Lemma strip_fence_json_untagged (c : N) (rest : jsstring) :
  eq_nocase 106 c = false -> strip_fence_json (fence ++ c :: rest) = fence ++ c :: rest.
Proof.
  intros Hc. unfold strip_fence_json, fence. simpl app.
  destruct rest as [| ? [| ? [| ? ?]]]; try reflexivity.
  rewrite Hc. reflexivity.
Qed.

Lemma strip_fence_json_tagged (tag rest : jsstring) :
  is_json_tag tag = true -> strip_fence_json (fence ++ tag ++ rest) = rest.
Proof.
  intros Ht. destruct tag as [| j [| s [| o [| n [| ? ?]]]]]; try discriminate Ht.
  unfold is_json_tag in Ht. unfold strip_fence_json, fence. simpl app.
  cbv beta iota. rewrite !N.eqb_refl. cbn [andb]. now rewrite Ht.
Qed.

Lemma strip_fence_open_other (c : N) (rest : jsstring) :
  c <> backtick -> strip_fence_open (c :: rest) = c :: rest.
Proof.
  intros Hc. unfold strip_fence_open, fence. cbn [strip_prefix].
  destruct (N.eqb_spec backtick c) as [E | _]; [congruence | reflexivity].
Qed.

Lemma strip_fence_open_fence (rest : jsstring) : strip_fence_open (fence ++ rest) = rest.
Proof. reflexivity. Qed.

Lemma strip_fence_close_fence (s : jsstring) : strip_fence_close (s ++ fence) = s.
Proof.
  unfold strip_fence_close. rewrite rev_app_distr. simpl. apply rev_involutive.
Qed.

Lemma strip_fence_close_other (s : jsstring) :
  (forall r, s <> r ++ [backtick]) -> strip_fence_close s = s.
Proof.
  intros Hs. unfold strip_fence_close.
  destruct s as [| d r] using rev_ind; [reflexivity |].
  rewrite rev_app_distr. unfold fence. cbn [rev app strip_prefix].
  destruct (N.eqb_spec backtick d) as [<- | _]; [now elim (Hs r) | reflexivity].
Qed.

(** Around a JSON text, the three replacements remove the fences and
    nothing else. *)
Lemma strip_fences_around (x opening closing : jsstring) (v : jsval) :
  JSON_parse x = Some v ->
  opening_fence opening ->
  closing_fence closing ->
  strip_fence_close (strip_fence_open (strip_fence_json (opening ++ x ++ closing))) = x.
Proof.
  intros Hx Ho Hc.
  destruct (JSON_parse_ends x v Hx) as [(c & r & -> & Hbt & Hj) Hlast].
  assert (Hfront : strip_fence_open (strip_fence_json (opening ++ (c :: r) ++ closing))
                   = (c :: r) ++ closing).
  { destruct Ho as [-> | (tag & -> & [-> | Htag])].
    - cbn [app]. rewrite strip_fence_json_other by exact Hbt.
      now apply strip_fence_open_other.
    - rewrite app_nil_r. cbn [app].
      rewrite (strip_fence_json_untagged c (r ++ closing) Hj).
      apply strip_fence_open_fence.
    - rewrite <- app_assoc, strip_fence_json_tagged by exact Htag.
      cbn [app]. now apply strip_fence_open_other. }
  rewrite Hfront. destruct Hc as [-> | ->].
  - rewrite app_nil_r. now apply strip_fence_close_other.
  - apply strip_fence_close_fence.
Qed.

(** What [trim] leaves of a fenced JSON text: the fences, around a JSON text
    of the same value. *)
Lemma trim_fenced (body opening closing : jsstring) (v : jsval) :
  JSON_parse body = Some v ->
  opening_fence opening ->
  closing_fence closing ->
  exists x, trim (opening ++ body ++ closing) = opening ++ x ++ closing
            /\ JSON_parse x = Some v.
Proof.
  intros Hb Ho Hc.
  pose proof (JSON_parse_trimStart body v Hb) as Hs.
  pose proof (JSON_parse_trimEnd body v Hb) as He.
  assert (Hne : forall s, JSON_parse s = Some v -> s <> []).
  { intros s H. destruct (JSON_parse_ends s v H) as [(c & r & -> & _) _]. discriminate. }
  unfold trim. destruct Ho as [-> | (tag & -> & _)]; destruct Hc as [-> | ->].
  - exists (trimEnd (trimStart body)). rewrite !app_nil_r. simpl. split; [reflexivity |].
    now apply JSON_parse_trimEnd.
  - exists (trimStart body). simpl. split; [| exact Hs].
    rewrite trimStart_app by now apply Hne. apply trimEnd_fence.
  - exists (trimEnd body). rewrite !app_nil_r. split; [| exact He].
    change (trimStart ((fence ++ tag) ++ body)) with ((fence ++ tag) ++ body).
    apply trimEnd_app. now apply Hne.
  - exists body. split; [| exact Hb].
    change (trimStart ((fence ++ tag) ++ body ++ fence)) with ((fence ++ tag) ++ body ++ fence).
    rewrite (app_assoc (fence ++ tag) body fence). apply trimEnd_fence.
Qed.

(** C4. A provider text that is a JSON text, bare or wrapped in Markdown
    fences (three backticks, with or without the tag json, before it; three
    backticks after it), with or without white space around, is parsed to
    the value of that JSON text.  A text that is no JSON text once cleaned
    gives exactly the default object: tier Workable, decision Hold, score
    60, analysis "Fallback result.".  [safeJSON] is total: nothing is thrown. *)
Theorem safeJSON_unwraps_or_falls_back :
  (forall (pre opening body closing post : jsstring) (v : jsval),
     JSON_parse body = Some v ->
     opening_fence opening ->
     closing_fence closing ->
     blank pre ->
     blank post ->
     safeJSON (pre ++ opening ++ body ++ closing ++ post) = v)
  /\ (forall text : jsstring,
        JSON_parse (strip_fences text) = None ->
        safeJSON text =
          VObj [ (js "tier", VStr (js "Workable"));
                 (js "go_hold_nogo", VStr (js "Hold"));
                 (js "total_score", VNum (of_Z 60));
                 (js "analysis", VStr (js "Fallback result.")) ]).
Proof.
  split.
  - intros pre opening body closing post v Hb Ho Hc Hpre Hpost.
    assert (Hstrip : exists x, strip_fences (pre ++ opening ++ body ++ closing ++ post) = x
                               /\ JSON_parse x = Some v).
    { unfold strip_fences.
      replace (pre ++ opening ++ body ++ closing ++ post)
        with (pre ++ (opening ++ body ++ closing) ++ post)
        by now rewrite <- !app_assoc.
      rewrite (trim_blank pre _ post Hpre Hpost).
      destruct (trim_fenced body opening closing v Hb Ho Hc) as (x & -> & Hx).
      exists x. split; [| exact Hx].
      exact (strip_fences_around x opening closing v Hx Ho Hc). }
    destruct Hstrip as (x & Hs & Hx).
    unfold safeJSON. now rewrite Hs, Hx.
  - intros text H. unfold safeJSON. now rewrite H.
Qed.

(** A fenced answer with the tag and a trailing line break, and an answer
    that is no JSON at all. *)
Lemma safeJSON_unwraps_or_falls_back_witness :
  let body := [10%N] ++ jsq "{'tier':'Strong','go_hold_nogo':'Go','total_score':90}" ++ [10%N] in
  safeJSON ([] ++ (fence ++ js "json") ++ body ++ fence ++ [10%N]) =
    VObj [ (js "tier", VStr (js "Strong"));
           (js "go_hold_nogo", VStr (js "Go"));
           (js "total_score", VNum (of_Z 90)) ]
  /\ safeJSON (js "Sorry, I cannot score this deal.") = fallback_result.
Proof.
  intros body. destruct safeJSON_unwraps_or_falls_back as [Hwrap Hfall]. split.
  - apply Hwrap.
    + vm_compute. reflexivity.
    + right. exists (js "json"). split; [reflexivity | right; reflexivity].
    + right. reflexivity.
    + reflexivity.
    + reflexivity.
  - apply Hfall. vm_compute. reflexivity.
Defined.

(** ** [llmAssess] *)

Lemma chain_fuel (v : jsval) (k : jsval -> outcome (option jsstring)) :
  (forall x, k x <> OutOfFuel) -> chain v k <> OutOfFuel.
Proof. intros Hk. unfold chain. destruct (nullish v); [discriminate | apply Hk]. Qed.

Lemma call_trim_fuel (v : jsval) : call_trim v <> OutOfFuel.
Proof. apply chain_fuel. intros []; discriminate. Qed.

Lemma response_text_fuel (rq : fetch_request) (j : jsval) : response_text rq j <> OutOfFuel.
Proof.
  unfold response_text, openai_text, anthropic_text.
  destruct (jsstring_eqb (url rq) openai_url);
    repeat first [apply call_trim_fuel | apply chain_fuel; intros ?].
Qed.

(** [llmAssess], path by path. *)
Lemma llmAssess_run (input : Payload.t) (w : world) :
  llmAssess input w =
    match llm_request input w with
    | None => (Ok (heuristicScore input), w)
    | Some rq =>
        match llm_reply rq w with
        | NetworkFailure => (Ok (heuristicScore input), called rq w)
        | Reply code text =>
            match JSON_parse text with
            | None => (Ok (heuristicScore input), called rq w)
            | Some j =>
                match response_text rq j with
                | Ok t => (Ok (safeJSON (or_string t (js "{}"))), called rq w)
                | _ => (Ok (heuristicScore input), called rq w)
                end
            end
        end
    end.
Proof.
  unfold llmAssess, llm_request, llm_reply, called, bind, getSecret, try_catch.
  set (provider := or_string (SECRETS w !! js "LLM_PROVIDER") default_provider).
  set (model := or_string (SECRETS w !! js "LLM_MODEL") default_model).
  destruct (jsstring_eqb provider (js "openai")).
  - destruct (SECRETS w !! js "OPENAI_API_KEY") as [[| c k] |]; try reflexivity.
    cbn [no_key or_string]. unfold fetch.
    match goal with |- context [network w _ ?r] => set (rq := r) end.
    destruct (network w (length (outbound w)) rq) as [| code text]; [reflexivity |].
    unfold response_json. cbn [snd].
    destruct (JSON_parse text) as [j |]; [| reflexivity].
    unfold ret, lift. change (response_text rq j) with (openai_text j).
    pose proof (response_text_fuel rq j) as Hf. change (response_text rq j) with (openai_text j) in Hf.
    destruct (openai_text j); try reflexivity. now elim Hf.
  - destruct (SECRETS w !! js "ANTHROPIC_API_KEY") as [[| c k] |]; try reflexivity.
    cbn [no_key or_string]. unfold fetch.
    match goal with |- context [network w _ ?r] => set (rq := r) end.
    destruct (network w (length (outbound w)) rq) as [| code text]; [reflexivity |].
    unfold response_json. cbn [snd].
    destruct (JSON_parse text) as [j |]; [| reflexivity].
    unfold ret, lift. change (response_text rq j) with (anthropic_text j).
    pose proof (response_text_fuel rq j) as Hf. change (response_text rq j) with (anthropic_text j) in Hf.
    destruct (anthropic_text j); try reflexivity. now elim Hf.
Qed.

(** C3. With no provider secret and no Anthropic key configured, the
    function returns the heuristic result of its input and leaves the world
    as it was: no request has been sent. *)
Theorem llmAssess_default_without_key (input : Payload.t) (w : world) :
  SECRETS w !! js "LLM_PROVIDER" = None ->
  SECRETS w !! js "ANTHROPIC_API_KEY" = None ->
  llmAssess input w = (Ok (heuristicScore input), w)
  /\ outbound (snd (llmAssess input w)) = outbound w.
Proof.
  intros Hp Hk.
  assert (H : llmAssess input w = (Ok (heuristicScore input), w)).
  { rewrite llmAssess_run. unfold llm_request. rewrite Hp, Hk. reflexivity. }
  rewrite H. split; reflexivity.
Qed.

Lemma llmAssess_default_without_key_witness :
  let w := sample_world [] (Reply 200 (js "{}")) 0 in
  llmAssess sample_input w = (Ok (heuristicScore sample_input), w)
  /\ outbound (snd (llmAssess sample_input w)) = outbound w.
Proof.
  intros w. apply llmAssess_default_without_key; reflexivity.
Defined.

Lemma llmAssess_returns (input : Payload.t) (w : world) :
  exists v, fst (llmAssess input w) = Ok v.
Proof.
  rewrite llmAssess_run.
  destruct (llm_request input w) as [rq |]; [| eauto].
  destruct (llm_reply rq w) as [| code text]; [eauto |].
  destruct (JSON_parse text) as [j |]; [| eauto].
  destruct (response_text rq j); eauto.
Qed.

(** C1, as the code has it.  On the external call path nothing is thrown to
    the caller.  A missing key, a network failure, a response body that is
    not JSON, and a text field that is not a string give the heuristic
    result of the same input.  A response without text at the expected place
    gives the empty object, whatever the status, which is not looked at.  A
    model text that is not JSON gives the fixed fallback object. *)
Theorem llmAssess_failure_paths (input : Payload.t) (w : world) :
  (exists v, fst (llmAssess input w) = Ok v)
  /\ (llm_request input w = None ->
      llmAssess input w = (Ok (heuristicScore input), w))
  /\ (forall rq, llm_request input w = Some rq ->
      (llm_reply rq w = NetworkFailure ->
       fst (llmAssess input w) = Ok (heuristicScore input))
      /\ (forall code text, llm_reply rq w = Reply code text ->
          (JSON_parse text = None ->
           fst (llmAssess input w) = Ok (heuristicScore input))
          /\ (forall j, JSON_parse text = Some j ->
              (forall e, response_text rq j = Throw e ->
               fst (llmAssess input w) = Ok (heuristicScore input))
              /\ (response_text rq j = Ok None ->
                  fst (llmAssess input w) = Ok (VObj []))
              /\ (forall txt, response_text rq j = Ok (Some txt) ->
                  txt <> [] ->
                  JSON_parse (strip_fences txt) = None ->
                  fst (llmAssess input w) = Ok fallback_result)))).
Proof.
  split; [apply llmAssess_returns |].
  rewrite llmAssess_run. split.
  - now intros ->.
  - intros rq ->. split.
    + now intros ->.
    + intros code text ->. split.
      * now intros ->.
      * intros j ->. split; [| split].
        -- now intros e ->.
        -- now intros ->.
        -- intros txt -> Hne Hp. destruct txt as [| c r]; [congruence |].
           cbn [or_string fst]. unfold safeJSON. now rewrite Hp.
Qed.

(** A network failure, with the Anthropic key configured. *)
Lemma llmAssess_failure_paths_witness :
  let w := sample_world [(js "ANTHROPIC_API_KEY", js "sk-test")] NetworkFailure 0 in
  fst (llmAssess sample_input w) = Ok (heuristicScore sample_input).
Proof.
  intros w.
  destruct (llmAssess_failure_paths sample_input w) as (_ & _ & H).
  destruct (H {| url := anthropic_url; api_key := js "sk-test"; model := default_model;
                 prompt_input := sample_input |} eq_refl) as [Hnet _].
  apply Hnet. reflexivity.
Defined.

(** Not every failure ends in the heuristic result: with a key configured
    and the call made, a model text that is not JSON makes the function
    return the fallback object, and an error response in JSON (status 500)
    makes it return the empty object; neither is the heuristic result. *)
Lemma llmAssess_failure_not_heuristic :
  let unparsable :=
    sample_world [(js "ANTHROPIC_API_KEY", js "sk-test")]
      (Reply 200 (jsq "{'content':[{'type':'text','text':'I cannot score this.'}]}")) 0 in
  let refused :=
    sample_world [(js "ANTHROPIC_API_KEY", js "sk-test")]
      (Reply 500 (jsq "{'type':'error','error':{'type':'api_error'}}")) 0 in
  (length (outbound (snd (llmAssess sample_input unparsable))) = 1%nat
   /\ JSON_parse (strip_fences (js "I cannot score this.")) = None
   /\ fst (llmAssess sample_input unparsable) = Ok fallback_result
   /\ fst (llmAssess sample_input unparsable) <> Ok (heuristicScore sample_input))
  /\ (length (outbound (snd (llmAssess sample_input refused))) = 1%nat
      /\ fst (llmAssess sample_input refused) = Ok (VObj [])
      /\ fst (llmAssess sample_input refused) <> Ok (heuristicScore sample_input)).
Proof.
  intros unparsable refused.
  assert (H1 : fst (llmAssess sample_input unparsable) = Ok fallback_result)
    by (vm_compute; reflexivity).
  assert (H2 : fst (llmAssess sample_input refused) = Ok (VObj []))
    by (vm_compute; reflexivity).
  repeat split; try (vm_compute; reflexivity).
  - rewrite H1. vm_compute. discriminate.
  - rewrite H2. vm_compute. discriminate.
Qed.

(** C5, as the code has it.  After a provider call that yields a text, the
    result is that text parsed, returned as it is: no field is checked.  If
    the text is not JSON the whole result is the default object, tier
    Workable, decision Hold, score 60, analysis "Fallback result.", which is
    within the enumerations and the bounds; the request does not fail. *)
Theorem llmAssess_result_is_parsed_text
    (input : Payload.t) (w : world) (rq : fetch_request)
    (code : Z) (text : jsstring) (j : jsval) (txt : jsstring) :
  llm_request input w = Some rq ->
  llm_reply rq w = Reply code text ->
  JSON_parse text = Some j ->
  response_text rq j = Ok (Some txt) ->
  txt <> [] ->
  fst (llmAssess input w) =
    Ok (match JSON_parse (strip_fences txt) with
        | Some v => v
        | None => fallback_result
        end)
  /\ fallback_result =
       result_object (js "Workable") (js "Hold") (of_Z 60) (js "Fallback result.")
  /\ valid_result fallback_result.
Proof.
  intros Hrq Hre Hj Ht Hne. rewrite llmAssess_run, Hrq, Hre, Hj, Ht.
  destruct txt as [| c r]; [congruence |]. split; [reflexivity |].
  split; [reflexivity |]. unfold valid_result. repeat split.
  - right. left. reflexivity.
  - right. left. reflexivity.
  - exists 60. split; [reflexivity | lia].
Qed.

(** The provider's fields reach the caller unchecked: a tier outside the
    enumeration, no decision, a score above 100. *)
Lemma llmAssess_result_not_validated :
  let w :=
    sample_world [(js "ANTHROPIC_API_KEY", js "sk-test")]
      (Reply 200 (jsq "{'content':[{'text':'{\'tier\':\'Excellent\',\'total_score\':250}'}]}"))
      0 in
  fst (llmAssess sample_input w) =
    Ok (VObj [ (js "tier", VStr (js "Excellent")); (js "total_score", VNum (of_Z 250)) ])
  /\ ~ valid_result
         (VObj [ (js "tier", VStr (js "Excellent")); (js "total_score", VNum (of_Z 250)) ]).
Proof.
  intros w. split; [vm_compute; reflexivity |].
  intros [Htier _]. cbn in Htier. destruct Htier as [H | [H | H]]; discriminate H.
Qed.

Lemma llmAssess_result_is_parsed_text_witness :
  let w :=
    sample_world [(js "ANTHROPIC_API_KEY", js "sk-test")]
      (Reply 200 (jsq "{'content':[{'text':'{\'tier\':\'Excellent\',\'total_score\':250}'}]}"))
      0 in
  fst (llmAssess sample_input w) =
    Ok (VObj [ (js "tier", VStr (js "Excellent")); (js "total_score", VNum (of_Z 250)) ]).
Proof.
  intros w.
  refine (proj1 (llmAssess_result_is_parsed_text sample_input w
            {| url := anthropic_url; api_key := js "sk-test"; model := default_model;
               prompt_input := sample_input |}
            200 _ (VObj [(js "content",
                          VArr [VObj [(js "text",
                                      VStr (jsq "{'tier':'Excellent','total_score':250}"))]])])
            (jsq "{'tier':'Excellent','total_score':250}") eq_refl eq_refl _ _ _)).
  - vm_compute. reflexivity.
  - vm_compute. reflexivity.
  - discriminate.
Defined.

(** ** [listDeals] *)

Lemma sort_insert_perm {A} (cmp : A -> A -> Z) (a : A) (l : list A) :
  sort_insert cmp a l ≡ₚ a :: l.
Proof.
  induction l as [| x l IH]; simpl; [reflexivity |].
  destruct (cmp a x <=? 0); [reflexivity |].
  rewrite IH. apply Permutation_swap.
Qed.

Lemma sort_perm {A} (cmp : A -> A -> Z) (l : list A) : sort cmp l ≡ₚ l.
Proof.
  induction l as [| x l IH]; simpl; [reflexivity |].
  now rewrite sort_insert_perm, IH.
Qed.

Lemma or_zero_id (z : Z) : or_zero z = z.
Proof. unfold or_zero. destruct (Z.eqb_spec z 0); congruence. Qed.

Lemma sort_insert_sorted (a : Deal) (l : list Deal) :
  StronglySorted newer_first l ->
  StronglySorted newer_first (sort_insert by_updatedAt_desc a l).
Proof.
  induction 1 as [| x l Hs IH Hx]; simpl.
  - repeat constructor.
  - unfold by_updatedAt_desc at 1. rewrite !or_zero_id.
    destruct (Z.leb_spec (updatedAt x - updatedAt a) 0) as [Hle | Hgt].
    + constructor; [now constructor |].
      constructor; [unfold newer_first; lia |].
      eapply Forall_impl; [exact Hx |]. unfold newer_first. intros y Hy. lia.
    + constructor; [exact IH |].
      rewrite sort_insert_perm. constructor; [unfold newer_first; lia | exact Hx].
Qed.

Lemma sort_sorted (l : list Deal) : StronglySorted newer_first (sort by_updatedAt_desc l).
Proof.
  induction l as [| x l IH]; simpl; [constructor | now apply sort_insert_sorted].
Qed.

(** With pages enough, the loop gathers every key from the cursor on. *)
Lemma page_loop_all (fuel : nat) (prefix : jsstring) (w : world) :
  forall (cursor : option nat) (keys : list jsstring),
    (default 0 cursor <= length (kv_keys (DEALS w) prefix))%nat ->
    (length (kv_keys (DEALS w) prefix) < default 0 cursor + 100 * fuel)%nat ->
    page_loop fuel prefix cursor keys w
    = (Ok (keys ++ drop (default 0%nat cursor) (kv_keys (DEALS w) prefix)), w).
Proof.
  induction fuel as [| fuel IH]; intros cursor keys Hstart Hlen; [lia |].
  cbn [page_loop]. unfold bind, DEALS_list, kv_list.
  set (all := kv_keys (DEALS w) prefix) in *.
  set (start := default 0%nat cursor) in *.
  destruct (Nat.ltb_spec (start + 100) (length all)) as [Hmore | Hlast].
  - rewrite (IH (Some (start + 100)%nat)); [| simpl; lia | simpl; lia].
    simpl default. rewrite <- app_assoc. do 2 f_equal.
    rewrite <- (take_drop 100 (drop start all)) at 2.
    now rewrite drop_drop.
  - unfold ret. do 2 f_equal. f_equal.
    apply take_ge. rewrite length_drop. lia.
Qed.

Lemma read_deals_all (keys : list jsstring) (w : world) :
  forall out : list Deal,
    read_deals keys out w = (Ok (out ++ omap (fun k => DEALS w !! k) keys), w).
Proof.
  induction keys as [| k keys IH]; intros out; simpl.
  - unfold ret. now rewrite app_nil_r.
  - unfold bind, DEALS_get. rewrite IH.
    destruct (DEALS w !! k) as [d |]; [| reflexivity].
    now rewrite <- app_assoc.
Qed.

(** Reading back the listed keys gives the documents kept under them. *)
Lemma read_listed_keys (w : world) (prefix : jsstring) :
  omap (fun k => DEALS w !! k) (kv_keys (DEALS w) prefix)
  = map snd (List.filter (fun kv => startsWith (fst kv) prefix) (map_to_list (DEALS w))).
Proof.
  unfold kv_keys.
  assert (H : forall kv, kv ∈ map_to_list (DEALS w) -> DEALS w !! fst kv = Some (snd kv)).
  { intros [k d] Hin. now apply elem_of_map_to_list. }
  induction (map_to_list (DEALS w)) as [| [k d] l IH]; [reflexivity |].
  simpl. destruct (startsWith k prefix).
  - pose proof (H (k, d) ltac:(left)) as Hk. cbn [fst snd] in Hk.
    cbn [omap list_omap map snd]. rewrite Hk. f_equal. apply IH.
    intros kv Hkv. apply H. now right.
  - apply IH. intros kv Hkv. apply H. now right.
Qed.

Lemma strip_prefix_app (p s : jsstring) : strip_prefix p (p ++ s) = Some s.
Proof. induction p as [| c p IH]; simpl; [reflexivity |]. now rewrite N.eqb_refl. Qed.

(** The key of a deal of a user is under the prefix the listing asks for. *)
Lemma deal_key_under_prefix (user id : jsstring) :
  startsWith (deal_key user id) (deal_prefix user) = true.
Proof.
  unfold startsWith, deal_key, deal_prefix.
  replace (js "deal:" ++ user ++ js ":" ++ id) with ((js "deal:" ++ user ++ js ":") ++ id)
    by now rewrite <- !app_assoc.
  now rewrite strip_prefix_app.
Qed.

(** C8. Given pages enough for the keys under the user's prefix, however
    many they are, [listDeals] returns, without changing any store, the
    documents kept under that prefix, all of them and each once, the most
    recently updated first. *)
Theorem listDeals_all_newest_first (fuel : nat) (user : jsstring) (w : world) :
  (length (kv_keys (DEALS w) (deal_prefix user)) < 100 * fuel)%nat ->
  exists deals,
    listDeals fuel user w = (Ok deals, w)
    /\ deals ≡ₚ deals_of w user
    /\ (forall k d, DEALS w !! k = Some d ->
                    startsWith k (deal_prefix user) = true -> d ∈ deals)
    /\ (forall id d, DEALS w !! deal_key user id = Some d -> d ∈ deals)
    /\ StronglySorted newer_first deals.
Proof.
  intros Hfuel. exists (sort by_updatedAt_desc (deals_of w user)).
  assert (Hrun : listDeals fuel user w
                 = (Ok (sort by_updatedAt_desc (deals_of w user)), w)).
  { unfold listDeals, bind.
    rewrite (page_loop_all fuel (deal_prefix user) w None []) by (simpl; lia).
    simpl default. rewrite drop_0, app_nil_l, read_deals_all, app_nil_l.
    unfold ret. now rewrite read_listed_keys. }
  assert (Hin : forall k d, DEALS w !! k = Some d ->
                            startsWith k (deal_prefix user) = true ->
                            d ∈ sort by_updatedAt_desc (deals_of w user)).
  { intros k d Hk Hp. rewrite sort_perm. unfold deals_of.
    apply list_elem_of_In, in_map_iff. exists (k, d). split; [reflexivity |].
    apply filter_In. split; [| exact Hp].
    apply list_elem_of_In. now apply elem_of_map_to_list. }
  split; [exact Hrun |]. split; [apply sort_perm |]. split; [exact Hin |].
  split; [| apply sort_sorted].
  intros id d Hd. apply (Hin _ d Hd). apply deal_key_under_prefix.
Qed.

(** 250 deals, listed in three pages of 100: all 250 come back, the newest
    first. *)
Lemma listDeals_all_newest_first_witness :
  exists deals,
    listDeals 3 (js "u:ann@example.com") crowded_world = (Ok deals, crowded_world)
    /\ length deals = 250%nat
    /\ StronglySorted newer_first deals.
Proof.
  destruct (listDeals_all_newest_first 3 (js "u:ann@example.com") crowded_world)
    as (deals & Hrun & Hperm & _ & _ & Hsorted).
  - vm_compute. lia.
  - exists deals. split; [exact Hrun |]. split; [| exact Hsorted].
    rewrite Hperm. vm_compute. reflexivity.
Defined.

(** ** The router *)

Section RouterProperties.
Context {platform : Platform}.

Lemma requireSession_anonymous (req : request) (w : world) :
  anonymous req w ->
  requireSession req w = (Throw (ThrownResponse (redirect (js "/"))), w).
Proof.
  unfold requireSession, getSession, bind, lift.
  intros [H | (id & H & Hs)]; rewrite H.
  - reflexivity.
  - destruct id as [| c id]; [reflexivity |]. now rewrite Hs.
Qed.

Lemma requireSession_inv (req : request) (w w' : world) (id : jsstring) (user : SessionUser) :
  requireSession req w = (Ok (id, user), w') ->
  w' = w /\ id <> [] /\ cookieGet req (js "apx") = Ok id
  /\ SESS w !! (js "s:" ++ id) = Some user.
Proof.
  unfold requireSession, getSession, bind, lift.
  destruct (cookieGet req (js "apx")) as [[| c i] | e |]; try discriminate.
  destruct (SESS w !! (js "s:" ++ c :: i)) as [u |] eqn:Hs; [| discriminate].
  unfold ret. intros H. injection H as <- <- <-.
  split; [reflexivity |]. split; [discriminate |]. split; [reflexivity | exact Hs].
Qed.

(** The branch of the router a request takes. *)
Lemma handle_deals (fuel : nat) (req : request) :
  method req = js "GET" -> pathname req = js "/deals" ->
  handle fuel req = deals_page fuel req.
Proof. intros Hm Hp. unfold handle. rewrite Hm, Hp. reflexivity. Qed.

Lemma handle_deal (fuel : nat) (req : request) (id : jsstring) :
  method req = js "GET" -> pathname req = js "/deal/" ++ id ->
  handle fuel req = deal_page req.
Proof. intros Hm Hp. unfold handle. rewrite Hm, Hp. reflexivity. Qed.

Lemma handle_assess (fuel : nat) (req : request) :
  method req = js "POST" -> pathname req = js "/assess" ->
  handle fuel req = assess req.
Proof. intros Hm Hp. unfold handle. rewrite Hm, Hp. reflexivity. Qed.

Lemma handle_assessment (fuel : nat) (req : request) (rest : jsstring) :
  method req = js "GET" -> pathname req = js "/assessment/" ++ rest ->
  handle fuel req = assessment_page req.
Proof. intros Hm Hp. unfold handle. rewrite Hm, Hp. reflexivity. Qed.

(** An anonymous request to a protected route: the handler throws the
    redirect that [requireSession] builds, and returns nothing. *)
Lemma handle_anonymous (fuel : nat) (req : request) (w : world) :
  protected_route req ->
  anonymous req w ->
  handle fuel req w = (Throw (ThrownResponse (redirect (js "/"))), w).
Proof.
  intros Hroute Hanon. pose proof (requireSession_anonymous req w Hanon) as Hs.
  destruct Hroute as [[Hm Hp] | [[Hm [id Hp]] | [[Hm Hp] | [Hm [rest Hp]]]]].
  - rewrite (handle_deals fuel req Hm Hp). unfold deals_page, bind. now rewrite Hs.
  - rewrite (handle_deal fuel req id Hm Hp). unfold deal_page, bind. now rewrite Hs.
  - rewrite (handle_assess fuel req Hm Hp). unfold assess, bind. now rewrite Hs.
  - rewrite (handle_assessment fuel req rest Hm Hp). unfold assessment_page, bind.
    now rewrite Hs.
Qed.

(** C6 does not hold of the code.  For an anonymous request to [/deals],
    [/deal/{id}], [/assess] or [/assessment/{dealId}/{ts}] the handler's
    promise is rejected with the 302 response to [/] as its reason: the
    response is thrown, not returned, nothing catches it, and the client is
    answered the runtime's error instead of the redirect. *)
Theorem anonymous_request_is_not_redirected (fuel : nat) (req : request) (w : world) :
  protected_route req ->
  anonymous req w ->
  handle fuel req w = (Throw (ThrownResponse (redirect (js "/"))), w)
  /\ (forall r, fst (handle fuel req w) <> Ok r)
  /\ on_fetch fuel req w = (Some RuntimeError, w).
Proof.
  intros Hroute Hanon. pose proof (handle_anonymous fuel req w Hroute Hanon) as H.
  unfold on_fetch. rewrite H. repeat split. intros r. discriminate.
Qed.

(** *** What [JSON.stringify] keeps of a property *)

Lemma jsstring_eqb_eq (a b : jsstring) : jsstring_eqb a b = true <-> a = b.
Proof.
  revert b. induction a as [| x a IH]; intros [| y b]; simpl; try easy.
  rewrite andb_true_iff, N.eqb_eq, IH. split; [intros [-> ->] | intros [= -> ->]]; easy.
Qed.

Lemma jsstring_eqb_refl (a : jsstring) : jsstring_eqb a a = true.
Proof. now apply jsstring_eqb_eq. Qed.

Lemma member_to_json_cons (k0 : jsstring) (v0 : jsval) (ps : list (jsstring * jsval))
    (k : jsstring) :
  member (to_json (VObj ((k0, v0) :: ps))) k =
    match to_json v0 with
    | VUndefined => member (to_json (VObj ps)) k
    | y => if jsstring_eqb k0 k then y else member (to_json (VObj ps)) k
    end.
Proof. cbn [to_json]. destruct (to_json v0); reflexivity. Qed.

Lemma member_to_json_nil (k : jsstring) : member (to_json (VObj [])) k = VUndefined.
Proof. reflexivity. Qed.

Lemma member_stored_set (ps : list (jsstring * jsval)) (k : jsstring) (v : jsval) :
  to_json v <> VUndefined ->
  member (to_json (VObj (obj_set ps k v))) k = to_json v.
Proof.
  intros Hv. induction ps as [| [k0 v0] ps IH]; cbn [obj_set].
  - rewrite member_to_json_cons, member_to_json_nil, jsstring_eqb_refl.
    destruct (to_json v); congruence.
  - destruct (jsstring_eqb k0 k) eqn:E.
    + rewrite member_to_json_cons, jsstring_eqb_refl.
      destruct (to_json v); congruence.
    + rewrite member_to_json_cons, E, IH. destruct (to_json v0); reflexivity.
Qed.

Lemma member_stored_other (ps : list (jsstring * jsval)) (k k' : jsstring) (v : jsval) :
  jsstring_eqb k' k = false ->
  member (to_json (VObj (obj_set ps k' v))) k = member (to_json (VObj ps)) k.
Proof.
  intros Hne. induction ps as [| [k0 v0] ps IH]; cbn [obj_set].
  - rewrite member_to_json_cons, Hne. destruct (to_json v); reflexivity.
  - destruct (jsstring_eqb k0 k') eqn:E.
    + apply jsstring_eqb_eq in E. subst k0.
      rewrite !member_to_json_cons, Hne.
      destruct (to_json v), (to_json v0); reflexivity.
    + rewrite !member_to_json_cons, IH. reflexivity.
Qed.

Lemma jsstring_eqb_neq (a b : jsstring) : a <> b -> jsstring_eqb a b = false.
Proof.
  intros H. destruct (jsstring_eqb a b) eqn:E; [| reflexivity].
  now apply jsstring_eqb_eq in E.
Qed.

Lemma to_json_number_defined (n : number) : to_json (VNum n) <> VUndefined.
Proof. destruct n; discriminate. Qed.

Lemma member_to_json_defined (k0 : jsstring) (v0 : jsval) (ps : list (jsstring * jsval))
    (k : jsstring) :
  to_json v0 <> VUndefined ->
  member (to_json (VObj ((k0, v0) :: ps))) k
  = if jsstring_eqb k0 k then to_json v0 else member (to_json (VObj ps)) k.
Proof. intros H. rewrite member_to_json_cons. destruct (to_json v0); congruence. Qed.

(** The stored record carries the instant and the payload of the submission. *)
Lemma assessment_record_fields (result : jsval) (ts : Z) (p : Payload.t) :
  member (assessment_record result ts p) (js "createdAt") = VNum (of_Z ts)
  /\ member (assessment_record result ts p) (js "payload") = to_json (payload_value p).
Proof.
  unfold assessment_record. split.
  - rewrite member_stored_other by reflexivity.
    rewrite member_stored_set; [reflexivity | discriminate].
  - apply member_stored_set. discriminate.
Qed.

(** Of a result that is an object the stored record keeps every property,
    as [JSON.stringify] writes that object, but [createdAt] and [payload]. *)
Lemma assessment_record_result (ps : list (jsstring * jsval)) (ts : Z) (p : Payload.t)
    (k : jsstring) :
  k <> js "createdAt" -> k <> js "payload" ->
  member (assessment_record (VObj ps) ts p) k = member (to_json (VObj ps)) k.
Proof.
  intros H1 H2. unfold assessment_record, spread.
  rewrite member_stored_other by (apply jsstring_eqb_neq; congruence).
  apply member_stored_other. apply jsstring_eqb_neq. congruence.
Qed.

(** The ratings as stored: each a finite number or [null]. *)
Lemma to_json_scores (s : ScoreSet) :
  to_json (scores_value s)
  = VObj (map (fun kv => (fst kv, to_json (VNum (snd kv)))) s).
Proof.
  unfold scores_value. cbn [to_json]. f_equal.
  induction s as [| [k n] s IH]; [reflexivity |].
  cbn [map fst snd]. rewrite IH. destruct n; reflexivity.
Qed.

(** The payload as stored: the four fields of the deal, the notes and the
    eight ratings of the form. *)
Lemma stored_payload (deal : Deal) (f : list (jsstring * form_value)) :
  let p := to_json (payload_value (assess_payload deal f)) in
  member p (js "account") = VStr (account deal)
  /\ member p (js "title") = VStr (title deal)
  /\ member p (js "value") = to_json (value deal)
  /\ member p (js "stage") = VStr (stage deal)
  /\ member p (js "notes") = VStr (form_string f (js "notes") [])
  /\ member p (js "scores")
     = VObj [ (js "metrics", to_json (VNum (form_number f (js "metrics"))));
              (js "economic_buyer", to_json (VNum (form_number f (js "eb"))));
              (js "decision_criteria", to_json (VNum (form_number f (js "dc"))));
              (js "decision_process", to_json (VNum (form_number f (js "dp"))));
              (js "paper_process", to_json (VNum (form_number f (js "pp"))));
              (js "identified_pain", to_json (VNum (form_number f (js "ip"))));
              (js "champion", to_json (VNum (form_number f (js "ch"))));
              (js "competition", to_json (VNum (form_number f (js "co")))) ].
Proof.
  intros p. subst p. unfold payload_value, assess_payload. cbn [Payload.account Payload.title
    Payload.value Payload.stage Payload.scores Payload.notes].
  assert (Hs : to_json (scores_value (assess_scores f)) <> VUndefined) by discriminate.
  assert (Hstr : forall s, to_json (VStr s) <> VUndefined) by discriminate.
  split; [now rewrite member_to_json_defined by apply Hstr |].
  split; [now rewrite !member_to_json_defined by apply Hstr |].
  split.
  { rewrite !member_to_json_defined by apply Hstr. cbn [jsstring_eqb js].
    change (jsstring_eqb (js "account") (js "value")) with false.
    change (jsstring_eqb (js "title") (js "value")) with false. cbv iota.
    rewrite member_to_json_cons.
    change (jsstring_eqb (js "value") (js "value")) with true.
    destruct (to_json (value deal)); reflexivity. }
  assert (Hrest : forall k, jsstring_eqb (js "account") k = false ->
                            jsstring_eqb (js "title") k = false ->
                            jsstring_eqb (js "value") k = false ->
            member (to_json (VObj [ (js "account", VStr (account deal));
                                    (js "title", VStr (title deal));
                                    (js "value", value deal);
                                    (js "stage", VStr (stage deal));
                                    (js "scores", scores_value (assess_scores f));
                                    (js "notes", VStr (form_string f (js "notes") [])) ])) k
            = member (to_json (VObj [ (js "stage", VStr (stage deal));
                                      (js "scores", scores_value (assess_scores f));
                                      (js "notes", VStr (form_string f (js "notes") [])) ])) k).
  { intros k Ha Ht Hv. rewrite !member_to_json_defined by apply Hstr. rewrite Ha, Ht.
    rewrite member_to_json_cons, Hv. destruct (to_json (value deal)); reflexivity. }
  split; [rewrite Hrest by reflexivity; now rewrite member_to_json_defined by apply Hstr |].
  split.
  { rewrite Hrest by reflexivity.
    rewrite (member_to_json_defined (js "stage")) by apply Hstr.
    rewrite (member_to_json_defined (js "scores")) by exact Hs.
    now rewrite member_to_json_defined by apply Hstr. }
  rewrite Hrest by reflexivity.
  rewrite (member_to_json_defined (js "stage")) by apply Hstr.
  rewrite (member_to_json_defined (js "scores")) by exact Hs.
  change (jsstring_eqb (js "stage") (js "scores")) with false.
  change (jsstring_eqb (js "scores") (js "scores")) with true. cbv iota.
  now rewrite to_json_scores.
Qed.

(** A [POST /assess] answered by a redirect went all the way: session,
    form, deal, assessment, the three writes. *)
Lemma assess_success (fuel : nat) (req : request) (w w' : world) (resp : response) :
  method req = js "POST" ->
  pathname req = js "/assess" ->
  handle fuel req w = (Ok resp, w') ->
  status resp = 302 ->
  exists sid user f deal result w1,
    let id := form_string f (js "dealId") [] in
    let payload := assess_payload deal f in
    requireSession req w = (Ok (sid, user), w)
    /\ formData req = Some f
    /\ DEALS w !! deal_key (sub user) id = Some deal
    /\ llmAssess payload w = (Ok result, w1)
    /\ nullish result = false
    /\ resp = redirect (js "/assessment/" ++ id ++ js "/" ++ decimal (clock w1 (ticks w1)))
    /\ w' = after_assessment user id deal payload result w1.
Proof.
  intros Hm Hp Hrun Hstatus.
  rewrite (handle_assess fuel req Hm Hp) in Hrun.
  unfold assess, bind in Hrun.
  destruct (requireSession req w) as [[[sid user] | e |] w0] eqn:Hs; try discriminate Hrun.
  destruct (requireSession_inv req w w0 sid user Hs) as (-> & _ & _ & _).
  unfold req_formData in Hrun.
  destruct (formData req) as [f |] eqn:Hf; [| discriminate Hrun].
  unfold ret at 1, DEALS_get in Hrun.
  destruct (DEALS w !! deal_key (sub user) (form_string f (js "dealId") [])) as [deal |] eqn:Hd.
  2: { injection Hrun as <- <-. discriminate Hstatus. }
  destruct (llmAssess (assess_payload deal f) w) as [[result | e |] w1] eqn:Hl;
    try discriminate Hrun.
  unfold record_assessment, bind in Hrun.
  unfold Date_now at 1, ASSESS_put, lift, get_member in Hrun.
  destruct (nullish result) eqn:Hn; [discriminate Hrun |].
  unfold DEALS_put, Date_now, USAGE_get, USAGE_put, ret in Hrun.
  injection Hrun as <- <-.
  exists sid, user, f, deal, result, w1. cbv zeta.
  split; [first [exact Hs | reflexivity] |].
  split; [first [exact Hf | reflexivity] |].
  split; [first [exact Hd | reflexivity] |].
  split; [first [exact Hl | reflexivity] |].
  split; [first [exact Hn | reflexivity] |].
  split; reflexivity.
Qed.

(** C7. A submission that succeeds, that is a [POST /assess] answered by the
    redirect to the assessment, has stored the record under the key of user,
    deal and timestamp.  The record is what [JSON.stringify] writes of the
    result with [createdAt] and [payload]: of a result that is an object,
    every property as [JSON.stringify] writes it; [createdAt], the
    timestamp; [payload], the account, title, value and stage of the deal,
    the notes and the eight ratings of the form.  The deal it read is
    updated under the same key: [lastAssessmentId] and [updatedAt] are the
    timestamp, [lastTier] and [lastScore] are the result's tier and total
    score as [JSON.stringify] writes them, which is the same string or
    finite number, [null] for a total that is NaN or an infinity, and no
    property for one that is absent.  The address it redirects to names
    the timestamp. *)
Theorem assess_records_and_updates
    (fuel : nat) (req : request) (w w' : world) (resp : response) :
  method req = js "POST" ->
  pathname req = js "/assess" ->
  handle fuel req w = (Ok resp, w') ->
  status resp = 302 ->
  exists sid user f deal result w1,
    let id := form_string f (js "dealId") [] in
    let payload := assess_payload deal f in
    let ts := clock w1 (ticks w1) in
    requireSession req w = (Ok (sid, user), w)
    /\ formData req = Some f
    /\ DEALS w !! (js "deal:" ++ sub user ++ js ":" ++ id) = Some deal
    /\ llmAssess payload w = (Ok result, w1)
    /\ (exists record,
          ASSESS w' !! (js "assessment:" ++ sub user ++ js ":" ++ id ++ js ":" ++ decimal ts)
          = Some record
          /\ record = assessment_record result ts payload
          /\ (forall ps k, result = VObj ps -> k <> js "createdAt" -> k <> js "payload" ->
                           member record k = member (to_json result) k)
          /\ member record (js "createdAt") = VNum (of_Z ts)
          /\ member (member record (js "payload")) (js "account") = VStr (account deal)
          /\ member (member record (js "payload")) (js "title") = VStr (title deal)
          /\ member (member record (js "payload")) (js "value") = to_json (value deal)
          /\ member (member record (js "payload")) (js "stage") = VStr (stage deal)
          /\ member (member record (js "payload")) (js "notes")
             = VStr (form_string f (js "notes") [])
          /\ member (member record (js "payload")) (js "scores")
             = VObj [ (js "metrics", to_json (VNum (form_number f (js "metrics"))));
                      (js "economic_buyer", to_json (VNum (form_number f (js "eb"))));
                      (js "decision_criteria", to_json (VNum (form_number f (js "dc"))));
                      (js "decision_process", to_json (VNum (form_number f (js "dp"))));
                      (js "paper_process", to_json (VNum (form_number f (js "pp"))));
                      (js "identified_pain", to_json (VNum (form_number f (js "ip"))));
                      (js "champion", to_json (VNum (form_number f (js "ch"))));
                      (js "competition", to_json (VNum (form_number f (js "co")))) ])
    /\ (exists deal',
          DEALS w' !! (js "deal:" ++ sub user ++ js ":" ++ id) = Some deal'
          /\ lastAssessmentId deal' = Some ts
          /\ lastTier deal' = to_json (member result (js "tier"))
          /\ lastScore deal' = to_json (member result (js "total_score"))
          /\ (forall s, member result (js "tier") = VStr s -> lastTier deal' = VStr s)
          /\ (forall q, member result (js "total_score") = VNum (Num q) ->
                        lastScore deal' = VNum (Num q))
          /\ (forall n, member result (js "total_score") = VNum n ->
                        (n = NaN \/ exists s, n = Inf s) -> lastScore deal' = VNull)
          /\ (member result (js "total_score") = VUndefined -> lastScore deal' = VUndefined)
          /\ updatedAt deal' = ts
          /\ (userId deal', dealId deal', account deal', title deal', value deal', stage deal')
             = (userId deal, dealId deal, account deal, title deal, value deal, stage deal))
    /\ location resp = Some (js "/assessment/" ++ id ++ js "/" ++ decimal ts).
Proof.
  intros Hm Hp Hrun Hstatus.
  destruct (assess_success fuel req w w' resp Hm Hp Hrun Hstatus)
    as (sid & user & f & deal & result & w1 & Hs & Hf & Hd & Hl & _ & -> & ->).
  exists sid, user, f, deal, result, w1. cbv zeta.
  split; [exact Hs |]. split; [exact Hf |]. split; [exact Hd |]. split; [exact Hl |].
  split; [| split; [| reflexivity]].
  - eexists.
    split; [unfold after_assessment; cbn [ASSESS with_USAGE with_DEALS with_ASSESS tick];
            apply (lookup_insert_eq (M := gmap jsstring)) |].
    split; [reflexivity |].
    split; [intros ps k -> H1 H2; now apply assessment_record_result |].
    destruct (assessment_record_fields result (clock w1 (ticks w1)) (assess_payload deal f))
      as [Hc Hpay].
    split; [exact Hc |]. rewrite Hpay. apply stored_payload.
  - eexists.
    split; [unfold after_assessment; cbn [DEALS with_USAGE with_DEALS with_ASSESS tick];
            apply (lookup_insert_eq (M := gmap jsstring)) |].
    cbn [assessed lastAssessmentId lastTier lastScore updatedAt userId dealId account title
         value stage].
    split; [reflexivity |]. split; [reflexivity |]. split; [reflexivity |].
    split; [now intros s -> |]. split; [now intros q -> |].
    split; [intros n -> [-> | [s ->]]; reflexivity |].
    split; [now intros -> |].
    split; reflexivity.
Qed.

Lemma form_number_missing (f : list (jsstring * form_value)) (field : jsstring) :
  missing_or_empty f field -> form_number f field = of_Z 0.
Proof. unfold form_number. now intros [-> | ->]. Qed.

(** The assessment a [POST /assess] runs once its three guards are passed. *)
Lemma assess_runs_llmAssess (req : request) (w : world)
    (sid : jsstring) (user : SessionUser) (f : list (jsstring * form_value)) (deal : Deal) :
  requireSession req w = (Ok (sid, user), w) ->
  formData req = Some f ->
  DEALS w !! deal_key (sub user) (form_string f (js "dealId") []) = Some deal ->
  assess req w
  = bind (llmAssess (assess_payload deal f))
         (record_assessment user (form_string f (js "dealId") []) deal (assess_payload deal f))
         w.
Proof.
  intros Hs Hf Hd. unfold assess. unfold bind at 1. rewrite Hs.
  unfold bind at 1. unfold req_formData. rewrite Hf. unfold ret at 1.
  unfold bind at 1. unfold DEALS_get. now rewrite Hd.
Qed.

(** C10. Whatever the form of a [POST /assess], the ScoreSet handed to the
    assessment has the eight named entries, a missing or empty field being
    the number 0; so the scorer never takes its default average of 3 there,
    and with all eight fields missing it gives total 0, Weak, No-go. *)
Theorem assess_scoreset_has_eight_entries :
  (forall (fuel : nat) (req : request) (w : world) (sid : jsstring) (user : SessionUser)
          (f : list (jsstring * form_value)) (deal : Deal),
     method req = js "POST" ->
     pathname req = js "/assess" ->
     requireSession req w = (Ok (sid, user), w) ->
     formData req = Some f ->
     DEALS w !! deal_key (sub user) (form_string f (js "dealId") []) = Some deal ->
     handle fuel req w
     = bind (llmAssess (assess_payload deal f))
            (record_assessment user (form_string f (js "dealId") []) deal
               (assess_payload deal f))
            w)
  /\ (forall (deal : Deal) (f : list (jsstring * form_value)),
        let input := assess_payload deal f in
        Payload.scores input
          = Some (map (fun kf => (fst kf, form_number f (snd kf))) score_fields)
        /\ length (score_values input) = 8%nat
        /\ (forall k field, In (k, field) score_fields ->
                            missing_or_empty f field -> form_number f field = of_Z 0)
        /\ average (score_values input)
             = num_div (fold_left num_add (score_values input) (of_Z 0)) (of_Z 8)
        /\ ((forall k field, In (k, field) score_fields -> missing_or_empty f field) ->
            heuristicScore input = result_object (js "Weak") (js "No-go") (of_Z 0)
                                     (js "Heuristic fallback scoring."))).
Proof.
  split.
  - intros fuel req w sid user f deal Hm Hp Hs Hf Hd.
    rewrite (handle_assess fuel req Hm Hp).
    exact (assess_runs_llmAssess req w sid user f deal Hs Hf Hd).
  - intros deal f input. split; [reflexivity |]. split; [reflexivity |].
    split; [intros k field _; apply form_number_missing |].
    split; [reflexivity |].
    intros Hall.
    assert (Hzero : forall k field, In (k, field) score_fields -> form_number f field = of_Z 0).
    { intros k field Hin. apply form_number_missing. exact (Hall k field Hin). }
    unfold heuristicScore, score_values, input, assess_payload, assess_scores.
    cbn [Payload.scores map snd].
    rewrite (Hzero (js "metrics") (js "metrics")) by (cbn; tauto).
    rewrite (Hzero (js "economic_buyer") (js "eb")) by (cbn; tauto).
    rewrite (Hzero (js "decision_criteria") (js "dc")) by (cbn; tauto).
    rewrite (Hzero (js "decision_process") (js "dp")) by (cbn; tauto).
    rewrite (Hzero (js "paper_process") (js "pp")) by (cbn; tauto).
    rewrite (Hzero (js "identified_pain") (js "ip")) by (cbn; tauto).
    rewrite (Hzero (js "champion") (js "ch")) by (cbn; tauto).
    rewrite (Hzero (js "competition") (js "co")) by (cbn; tauto).
    reflexivity.
Qed.

End RouterProperties.

(** ** The router on the sample worlds *)

(** A request the code can receive: [GET /deals] without a cookie is
    answered the runtime's error; the redirect is the reason of the
    rejection and reaches no one. *)
Lemma anonymous_request_is_not_redirected_witness :
  let req := {| method := js "GET"; pathname := js "/deals";
                cookie_header := None; formData := None |} in
  handle (platform := sample_platform) 1 req ann_world
    = (Throw (ThrownResponse (redirect (js "/"))), ann_world)
  /\ on_fetch (platform := sample_platform) 1 req ann_world = (Some RuntimeError, ann_world).
Proof.
  intros req.
  destruct (anonymous_request_is_not_redirected (platform := sample_platform) 1 req ann_world)
    as (Hthrown & _ & Hanswer).
  - left. split; reflexivity.
  - left. reflexivity.
  - split; [exact Hthrown | exact Hanswer].
Defined.

(** Ann rates her deal 5 on every dimension, with no provider configured:
    the record of the instant carries the result and the payload, and the
    deal is updated to Strong, 100, at that instant. *)
Lemma assess_records_and_updates_witness :
  let out := handle (platform := sample_platform) 0 (ann_submits all_fives) ann_world in
  (exists record,
     ASSESS (snd out) !! js "assessment:u:ann@example.com:7:1700000000000" = Some record
     /\ member record (js "tier") = VStr (js "Strong")
     /\ member record (js "total_score") = VNum (of_Z 100)
     /\ member record (js "createdAt") = VNum (of_Z 1700000000000)
     /\ member (member record (js "payload")) (js "account") = VStr (js "Acme")
     /\ member (member (member record (js "payload")) (js "scores")) (js "champion")
        = VNum (of_Z 5))
  /\ (exists deal',
        DEALS (snd out) !! js "deal:u:ann@example.com:7" = Some deal'
        /\ lastAssessmentId deal' = Some 1700000000000
        /\ lastTier deal' = VStr (js "Strong")
        /\ lastScore deal' = VNum (of_Z 100)
        /\ updatedAt deal' = 1700000000000).
Proof.
  intros out.
  destruct (assess_records_and_updates (platform := sample_platform) 0
              (ann_submits all_fives) ann_world (snd out)
              (redirect (js "/assessment/7/1700000000000")) eq_refl eq_refl)
    as (sid & user & f & deal & result & w1 & Hs & Hf & Hd & Hl
        & (record & Hrec & _ & Hres & Hcreated & Hacc & _ & _ & _ & _ & Hscores)
        & (deal' & Hd' & Hid & Htier & Hscore & _ & _ & _ & _ & Hup & _) & _).
  - vm_compute. reflexivity.
  - reflexivity.
  - vm_compute in Hs. injection Hs as <- <-.
    vm_compute in Hf. injection Hf as <-.
    vm_compute in Hd. injection Hd as <-.
    vm_compute in Hl. injection Hl as <- <-.
    split.
    + exists record. split; [exact Hrec |].
      split; [exact (Hres _ (js "tier") eq_refl ltac:(discriminate) ltac:(discriminate)) |].
      split; [exact (Hres _ (js "total_score") eq_refl ltac:(discriminate) ltac:(discriminate)) |].
      split; [exact Hcreated |]. split; [exact Hacc |].
      rewrite Hscores. reflexivity.
    + exists deal'. split; [exact Hd' |]. split; [exact Hid |].
      split; [exact Htier |]. split; [exact Hscore | exact Hup].
Defined.

(** Ann types a word for the first rating, with no provider configured: the
    total of the result is NaN, and the score stored in her deal is [null],
    which is not the total of the result. *)
Lemma assess_stores_null_for_NaN :
  let form := (js "metrics", FString (js "high")) :: List.tl all_fives in
  let deal := sample_deal (js "u:ann@example.com") 7 in
  let payload := assess_payload (platform := sample_platform) deal
                   ((js "dealId", FString (js "7")) :: form) in
  let out := handle (platform := sample_platform) 0 (ann_submits form) ann_world in
  fst (llmAssess payload ann_world) = Ok (heuristicScore payload)
  /\ member (heuristicScore payload) (js "total_score") = VNum NaN
  /\ fst out = Ok (redirect (js "/assessment/7/1700000000000"))
  /\ lastScore <$> (DEALS (snd out) !! js "deal:u:ann@example.com:7") = Some VNull
  /\ (fun record => member record (js "total_score"))
       <$> (ASSESS (snd out) !! js "assessment:u:ann@example.com:7:1700000000000")
     = Some VNull
  /\ VNull <> member (heuristicScore payload) (js "total_score").
Proof.
  intros form deal payload out.
  split; [vm_compute; reflexivity |].
  split; [vm_compute; reflexivity |].
  split; [vm_compute; reflexivity |].
  split; [vm_compute; reflexivity |].
  split; [vm_compute; reflexivity |].
  discriminate.
Qed.

(** Ann submits the form with none of the eight score fields: the
    assessment runs on the ScoreSet of eight zeros, and the scorer gives
    total 0, Weak, No-go, which is what her deal is updated to. *)
Lemma assess_scoreset_has_eight_entries_witness :
  let deal := sample_deal (js "u:ann@example.com") 7 in
  let user := {| sub := js "u:ann@example.com"; email := js "ann@example.com" |} in
  let f : list (jsstring * form_value) := [(js "dealId", FString (js "7"))] in
  let input := assess_payload (platform := sample_platform) deal f in
  handle (platform := sample_platform) 0 (ann_submits []) ann_world
  = bind (llmAssess input)
         (record_assessment (platform := sample_platform) user (js "7") deal input)
         ann_world
  /\ heuristicScore input = result_object (js "Weak") (js "No-go") (of_Z 0) heuristic_marker
  /\ lastScore <$> (DEALS (snd (handle (platform := sample_platform) 0 (ann_submits [])
                                  ann_world))
                    !! deal_key (js "u:ann@example.com") (js "7"))
     = Some (VNum (of_Z 0)).
Proof.
  intros deal user f input.
  destruct (assess_scoreset_has_eight_entries (platform := sample_platform)) as [Hrun Hscores].
  split; [| split].
  - apply (Hrun 0%nat (ann_submits []) ann_world (js "sid-1") user f deal);
      vm_compute; reflexivity.
  - destruct (Hscores deal f) as (_ & _ & _ & _ & Hzero).
    apply Hzero. intros k field Hin. left.
    cbn in Hin. repeat destruct Hin as [[= <- <-] | Hin]; try reflexivity. contradiction.
  - vm_compute. reflexivity.
Defined.

(** * Further properties of the code *)

(** ** The scorer on any ratings *)

Lemma spec_tier_cases (t : Z) :
  spec_tier t = js "Strong" \/ spec_tier t = js "Workable" \/ spec_tier t = js "Weak".
Proof. unfold spec_tier. destruct (80 <=? t), (60 <=? t); auto. Qed.

Lemma spec_decision_cases (t : Z) :
  spec_decision t = js "Go" \/ spec_decision t = js "Hold" \/ spec_decision t = js "No-go".
Proof. unfold spec_decision. destruct (80 <=? t), (60 <=? t); auto. Qed.

(** X1. Whatever the input, the heuristic result is one of two kinds.
    Either the total is NaN, and the result is Weak, No-go with that NaN; or
    the total is an integer from 0 to 100, tier and decision are the pair
    the thresholds give for it, and the result is within the enumerations
    and the bounds. *)
Theorem heuristicScore_total_or_nan (input : Payload.t) :
  let total := total_of (average (score_values input)) in
  (total = NaN
   /\ heuristicScore input = result_object (js "Weak") (js "No-go") NaN heuristic_marker)
  \/ (exists t, 0 <= t <= 100
        /\ total = of_Z t
        /\ heuristicScore input =
             result_object (spec_tier t) (spec_decision t) (of_Z t) heuristic_marker
        /\ valid_result (heuristicScore input)).
Proof.
  intros total. unfold heuristicScore. fold total.
  destruct (total_of_cases (average (score_values input))) as [[_ H] | (t & Ht & H)];
    fold total in H; rewrite H.
  - left. split; reflexivity.
  - right. exists t. rewrite tier_of_Z, decision_of_Z.
    split; [exact Ht |]. split; [reflexivity |]. split; [reflexivity |].
    unfold valid_result, result_object, member. cbn [obj_get jsstring_eqb js].
    split; [| split].
    + change (obj_get _ (js "tier")) with (VStr (spec_tier t)).
      destruct (spec_tier_cases t) as [-> | [-> | ->]]; auto.
    + change (obj_get _ (js "go_hold_nogo")) with (VStr (spec_decision t)).
      destruct (spec_decision_cases t) as [-> | [-> | ->]]; auto.
    + exists t. split; [reflexivity | exact Ht].
Qed.

Lemma num_add_NaN_r (a : number) : num_add a NaN = NaN.
Proof. destruct a as [| [|] |]; reflexivity. Qed.

Lemma reduce_from_NaN (l : list number) : fold_left num_add l NaN = NaN.
Proof. induction l as [| x l IH]; simpl; auto. Qed.

Lemma reduce_with_NaN (l : list number) (a : number) :
  In NaN l -> fold_left num_add l a = NaN.
Proof.
  revert a. induction l as [| x l IH]; intros a; simpl; [contradiction |].
  intros [-> | H].
  - rewrite num_add_NaN_r. apply reduce_from_NaN.
  - now apply IH.
Qed.

Lemma average_with_NaN (l : list number) : In NaN l -> average l = NaN.
Proof.
  intros H. destruct l as [| x l]; [contradiction |].
  unfold average. now rewrite (reduce_with_NaN (x :: l) (of_Z 0) H).
Qed.

Section ScorerOnForms.
Context {platform : Platform}.

(** X2. A rating that is not a number spoils the whole score.  If one of
    the eight score fields of the form reads as NaN, the heuristic result
    for the submission is Weak, No-go with a NaN total, whatever the other
    seven ratings are; stored in the deal summary, that total is [null]. *)
Theorem heuristicScore_rating_not_a_number
    (deal : Deal) (f : list (jsstring * form_value)) (k field : jsstring) (ts : Z) :
  In (k, field) score_fields ->
  form_number f field = NaN ->
  let r := heuristicScore (assess_payload deal f) in
  r = result_object (js "Weak") (js "No-go") NaN heuristic_marker
  /\ lastTier (assessed deal ts (member r (js "tier")) (member r (js "total_score")))
     = VStr (js "Weak")
  /\ lastScore (assessed deal ts (member r (js "tier")) (member r (js "total_score")))
     = VNull.
Proof.
  intros Hin Hnan r.
  assert (Hr : r = result_object (js "Weak") (js "No-go") NaN heuristic_marker).
  { subst r. unfold heuristicScore. rewrite average_with_NaN; [reflexivity |].
    change (score_values (assess_payload deal f))
      with (map (fun kf => form_number f (snd kf)) score_fields).
    rewrite <- Hnan.
    exact (in_map (fun kf => form_number f (snd kf)) score_fields (k, field) Hin). }
  rewrite Hr. repeat split.
Qed.

End ScorerOnForms.

(** The rating of the metrics typed as a word, the seven others as 5. *)
Lemma heuristicScore_rating_not_a_number_witness :
  let deal := sample_deal (js "u:ann@example.com") 7 in
  let f := (js "metrics", FString (js "high")) :: List.tl all_fives in
  heuristicScore (assess_payload (platform := sample_platform) deal f)
  = result_object (js "Weak") (js "No-go") NaN heuristic_marker.
Proof.
  intros deal f.
  apply (heuristicScore_rating_not_a_number (platform := sample_platform)
           deal f (js "metrics") (js "metrics") 0).
  - left. reflexivity.
  - reflexivity.
Defined.

(** X3. Better ratings never lower the total.  For two lists of finite
    ratings of the same length, each rating of the second at least the
    rating of the first at the same place, the total computed for the
    second is at least the total computed for the first. *)
Theorem heuristicScore_monotone (input input' : Payload.t) (qs qs' : list Q) (t t' : Z) :
  score_values input = map Num qs ->
  score_values input' = map Num qs' ->
  Forall2 Qle qs qs' ->
  member (heuristicScore input) (js "total_score") = VNum (of_Z t) ->
  member (heuristicScore input') (js "total_score") = VNum (of_Z t') ->
  t <= t'.
Proof.
  intros Hv Hv' Hle Ht Ht'.
  pose proof (score_total_mono qs qs' Hle) as Hm.
  unfold heuristicScore in Ht, Ht'. rewrite Hv in Ht. rewrite Hv' in Ht'.
  change (member (result_object ?a ?b ?c ?d) (js "total_score")) with (VNum c) in Ht, Ht'.
  injection Ht as E. injection Ht' as E'. unfold of_Z in E, E'.
  rewrite E, E' in Hm. change (Num (inject_Z ?z)) with (of_Z z) in Hm.
  rewrite num_le_of_Z in Hm. now apply Z.leb_le.
Qed.

(** Ratings 3 and 3 total 60; ratings 4 and 5 total 90. *)
Lemma heuristicScore_monotone_witness :
  let low := scored [(js "metrics", of_Z 3); (js "champion", of_Z 3)] in
  let high := scored [(js "metrics", of_Z 4); (js "champion", of_Z 5)] in
  member (heuristicScore low) (js "total_score") = VNum (of_Z 60)
  /\ member (heuristicScore high) (js "total_score") = VNum (of_Z 90)
  /\ 60 <= 90.
Proof.
  intros low high.
  assert (Hl : member (heuristicScore low) (js "total_score") = VNum (of_Z 60))
    by (vm_compute; reflexivity).
  assert (Hh : member (heuristicScore high) (js "total_score") = VNum (of_Z 90))
    by (vm_compute; reflexivity).
  split; [exact Hl |]. split; [exact Hh |].
  apply (heuristicScore_monotone low high [inject_Z 3; inject_Z 3] [inject_Z 4; inject_Z 5]
           60 90 eq_refl eq_refl); [| exact Hl | exact Hh].
  repeat constructor; discriminate.
Defined.


Lemma Zsum_perm (zs zs' : list Z) : zs ≡ₚ zs' -> Zsum zs = Zsum zs'.
Proof.
  induction 1 as [| x l l' _ IH | x y l | l l' l'' _ IH _ IH']; unfold Zsum in *; simpl; lia.
Qed.

(** X4. Only the ratings count, not their order or their names.  Two
    inputs whose ratings are the same integers up to order get the same
    heuristic result, whatever account, title, value, stage and notes they
    carry, when the sizes of the ratings add up to 2^53 at most, so that
    no partial sum is rounded.  (Past that the order counts: see
    [reduce_order_counts].) *)
Theorem heuristicScore_order_irrelevant (input input' : Payload.t) (zs zs' : list Z) :
  score_values input = map of_Z zs ->
  score_values input' = map of_Z zs' ->
  zs ≡ₚ zs' ->
  Zsum (map Z.abs zs) <= 2 ^ 53 ->
  heuristicScore input = heuristicScore input'.
Proof.
  intros Hv Hv' Hp Hb.
  assert (Hb' : Zsum (map Z.abs zs') <= 2 ^ 53).
  { now rewrite <- (Zsum_perm _ _ (Permutation_map Z.abs Hp)). }
  assert (E : average (map of_Z zs) = average (map of_Z zs')).
  { pose proof (Permutation_length Hp) as Hl.
    destruct zs as [| a l]; destruct zs' as [| c l']; try discriminate Hl; [reflexivity |].
    unfold average. cbn [map]. cbn [length]. rewrite !length_map.
    change (of_Z a :: map of_Z l) with (map of_Z (a :: l)).
    change (of_Z c :: map of_Z l') with (map of_Z (c :: l')).
    rewrite !reduce_integers by (simpl Z.abs; lia).
    rewrite (Zsum_perm _ _ Hp). simpl in Hl. injection Hl as ->. reflexivity. }
  unfold heuristicScore. now rewrite Hv, Hv', E.
Qed.

(** The same two ratings under other names and in the other order. *)
Lemma heuristicScore_order_irrelevant_witness :
  heuristicScore (scored [(js "metrics", of_Z 2); (js "champion", of_Z 5)])
  = heuristicScore (scored [(js "competition", of_Z 5); (js "economic_buyer", of_Z 2)]).
Proof.
  apply (heuristicScore_order_irrelevant
           (scored [(js "metrics", of_Z 2); (js "champion", of_Z 5)])
           (scored [(js "competition", of_Z 5); (js "economic_buyer", of_Z 2)])
           [2; 5] [5; 2] eq_refl eq_refl).
  - apply Permutation_swap.
  - vm_compute. discriminate.
Defined.

(** Four ratings whose sizes pass 2^53: in one order the two ones are lost
    in the sum, in the other they are kept. *)
Example reduce_order_counts :
  fold_left num_add (map of_Z [2 ^ 53; 1; 1; - 2 ^ 53]) (of_Z 0) = of_Z 0
  /\ fold_left num_add (map of_Z [1; 1; 2 ^ 53; - 2 ^ 53]) (of_Z 0) = of_Z 2
  /\ member (heuristicScore (rated (map of_Z [2 ^ 53; 1; 1; - 2 ^ 53]))) (js "total_score")
     = VNum (of_Z 0)
  /\ member (heuristicScore (rated (map of_Z [1; 1; 2 ^ 53; - 2 ^ 53]))) (js "total_score")
     = VNum (of_Z 10).
Proof.
  repeat split; vm_compute; reflexivity.
Qed.

(** ** Plain JSON, and what the parser returns *)

Lemma jsval_induction (P : jsval -> Prop) :
  P VUndefined -> P VNull -> (forall b, P (VBool b)) -> (forall n, P (VNum n)) ->
  (forall s, P (VStr s)) ->
  (forall l, List.Forall P l -> P (VArr l)) ->
  (forall ps, List.Forall (fun kv => P (snd kv)) ps -> P (VObj ps)) ->
  forall v, P v.
Proof.
  intros Hu Hn Hb Hnum Hs Ha Ho.
  fix IH 1.
  intros [| | b | n | s | l | ps];
    [exact Hu | exact Hn | apply Hb | apply Hnum | apply Hs | |].
  - apply Ha. induction l as [| x l IHl]; constructor; [apply IH | exact IHl].
  - apply Ho. induction ps as [| [k x] ps IHps]; constructor; [apply IH | exact IHps].
Qed.

Lemma json_clean_defined (v : jsval) : json_clean v = true -> v <> VUndefined.
Proof. intros H ->. discriminate H. Qed.

(** [JSON.stringify] followed by [JSON.parse] gives plain JSON back as it is. *)
Lemma to_json_clean (v : jsval) : json_clean v = true -> to_json v = v.
Proof.
  induction v as [| | b | n | s | l IH | ps IH] using jsval_induction; try reflexivity.
  - destruct n; [discriminate | discriminate | reflexivity].
  - cbn [json_clean to_json]. intros H. f_equal.
    induction IH as [| x l Hx _ IHl]; [reflexivity |].
    cbn [forallb] in H. apply andb_true_iff in H as [Hc Hl].
    cbn [map]. rewrite (Hx Hc), (IHl Hl).
    destruct x; try reflexivity. discriminate Hc.
  - cbn [json_clean to_json]. intros H. f_equal.
    induction IH as [| [k x] ps Hx _ IHps]; [reflexivity |].
    cbn [forallb snd] in H. apply andb_true_iff in H as [Hc Hl].
    cbn [snd] in Hx. rewrite (Hx Hc), (IHps Hl).
    destruct x; try reflexivity. discriminate Hc.
Qed.

(** The parser returns a value: a literal that is too large is an
    infinity, but nothing is [undefined]. *)
Lemma begin_value_defined (stack stack' : list frame) (t : token) (v : jsval) :
  begin_value stack t = Some (SDone v stack') -> v <> VUndefined.
Proof. destruct t; cbn; intros [= <- _]; discriminate. Qed.

Lemma parse_step_defined (st : pstate) (t : token) (v : jsval) (stack : list frame) :
  parse_step st t = Some (SDone v stack) -> v <> VUndefined.
Proof.
  destruct st as [st | st | st | done st | done k st | v0 st]; cbn [parse_step].
  - apply begin_value_defined.
  - destruct t; try apply begin_value_defined. intros [= <- _]. discriminate.
  - destruct t; try discriminate. intros [= <- _]. discriminate.
  - destruct t; discriminate.
  - destruct t; discriminate.
  - destruct st as [| [done | done k] st]; [discriminate | |]; destruct t; try discriminate;
      intros [= <- _]; discriminate.
Qed.

Lemma parse_tokens_defined (ts : list token) (v : jsval) :
  parse_tokens ts = Some v -> v <> VUndefined.
Proof.
  unfold parse_tokens. destruct ts as [| t ts _] using rev_ind; [discriminate |].
  rewrite fold_left_app. cbn [fold_left].
  destruct (fold_left parse_feed ts (Some (SVal []))) as [st |]; [| discriminate].
  cbn [parse_feed]. destruct (parse_step st t) as [[| | | | | v' [|]] |] eqn:E; try discriminate.
  intros [= <-]. exact (parse_step_defined st t v' [] E).
Qed.

Lemma JSON_parse_defined (s : jsstring) (v : jsval) :
  JSON_parse s = Some v -> v <> VUndefined.
Proof.
  unfold JSON_parse. destruct (JSON_lex s) as [ts |]; [apply parse_tokens_defined | discriminate].
Qed.

Lemma safeJSON_defined (maybe : jsstring) : safeJSON maybe <> VUndefined.
Proof.
  unfold safeJSON. destruct (JSON_parse (strip_fences maybe)) as [v |] eqn:E.
  - exact (JSON_parse_defined _ v E).
  - discriminate.
Qed.

Lemma member_clean (v : jsval) (k : jsstring) :
  json_clean v = true -> to_json (member v k) = member v k.
Proof.
  destruct v as [| | b | n | s | l | ps]; try reflexivity.
  cbn [json_clean member]. intros H.
  induction ps as [| [k' x] ps IH]; [reflexivity |].
  cbn [forallb snd] in H. apply andb_true_iff in H as [Hx Hps].
  cbn [obj_get]. destruct (jsstring_eqb k' k); [now apply to_json_clean | now apply IH].
Qed.

(** ** [POST /assess], from the assessment on *)

Section Recording.
Context {platform : Platform}.

Lemma record_assessment_run (user : SessionUser) (id : jsstring) (deal : Deal)
    (payload : Payload.t) (result : jsval) (w : world) :
  nullish result = false ->
  record_assessment user id deal payload result w
  = (Ok (redirect (js "/assessment/" ++ id ++ js "/" ++ decimal (clock w (ticks w)))),
     after_assessment user id deal payload result w).
Proof.
  intros Hn. unfold record_assessment, bind, Date_now, ASSESS_put, lift, get_member.
  rewrite Hn. reflexivity.
Qed.

(** X5. A result that is plain JSON data (no [undefined], no number that
    is not finite) and not [null] is recorded as it is: the deal summary
    gets exactly the result's [tier] and [total_score], whatever they are,
    absent when the result has none; and the stored record has every
    property of a result object with its value, next to [createdAt] and
    [payload]. *)
Theorem record_assessment_keeps_plain_result (user : SessionUser) (id : jsstring)
    (deal : Deal) (payload : Payload.t) (result : jsval) (w : world) :
  json_clean result = true ->
  nullish result = false ->
  let ts := clock w (ticks w) in
  let w' := snd (record_assessment user id deal payload result w) in
  (exists deal',
     DEALS w' !! deal_key (sub user) id = Some deal'
     /\ lastTier deal' = member result (js "tier")
     /\ lastScore deal' = member result (js "total_score"))
  /\ (exists record,
        ASSESS w' !! assessment_key (sub user) id (decimal ts) = Some record
        /\ forall ps k, result = VObj ps -> k <> js "createdAt" -> k <> js "payload" ->
                        member record k = obj_get ps k).
Proof.
  intros Hc Hn ts w'. subst w'. rewrite (record_assessment_run _ _ _ _ _ _ Hn).
  cbn [snd]. unfold after_assessment. split.
  - eexists. split.
    + cbn [DEALS with_USAGE with_DEALS with_ASSESS tick]. apply lookup_insert_eq.
    + cbn [assessed lastTier lastScore]. split; now apply member_clean.
  - eexists. split.
    + cbn [ASSESS with_USAGE with_DEALS with_ASSESS tick]. apply lookup_insert_eq.
    + intros ps k -> Hk1 Hk2. unfold assessment_record. cbn [spread].
      assert (E : forall a b, a <> b -> jsstring_eqb b a = false).
      { intros a b Hab. destruct (jsstring_eqb b a) eqn:Eb; [| reflexivity].
        apply jsstring_eqb_eq in Eb. congruence. }
      rewrite member_stored_other by (apply E; exact Hk2).
      rewrite member_stored_other by (apply E; exact Hk1).
      now rewrite (to_json_clean (VObj ps) Hc).
Qed.

End Recording.

(** The provider rates Ann's deal Strong, 91, and adds a property of its
    own: summary and record carry what it said. *)
Lemma record_assessment_keeps_plain_result_witness :
  let result := safeJSON (jsq "{'tier':'Strong','total_score':91,'risk':'low'}") in
  let user := {| sub := js "u:ann@example.com"; email := js "ann@example.com" |} in
  let deal := sample_deal (js "u:ann@example.com") 7 in
  let w' := snd (record_assessment (platform := sample_platform) user (js "7") deal
                   sample_input result ann_world) in
  (exists deal',
     DEALS w' !! deal_key (js "u:ann@example.com") (js "7") = Some deal'
     /\ lastTier deal' = VStr (js "Strong")
     /\ lastScore deal' = VNum (of_Z 91))
  /\ (exists record,
        ASSESS w' !! assessment_key (js "u:ann@example.com") (js "7") (js "1700000000000")
        = Some record
        /\ member record (js "risk") = VStr (js "low")).
Proof.
  intros result user deal w'.
  destruct (record_assessment_keeps_plain_result (platform := sample_platform)
              user (js "7") deal sample_input result ann_world)
    as [(deal' & Hd & Ht & Hs) (record & Hr & Hk)].
  - vm_compute. reflexivity.
  - vm_compute. reflexivity.
  - split.
    + exists deal'. split; [exact Hd |]. split; [rewrite Ht | rewrite Hs]; vm_compute; reflexivity.
    + exists record. split; [exact Hr |].
      rewrite (Hk [(js "tier", VStr (js "Strong")); (js "total_score", VNum (of_Z 91));
                   (js "risk", VStr (js "low"))] (js "risk")).
      * reflexivity.
      * vm_compute. reflexivity.
      * discriminate.
      * discriminate.
Defined.

(** ** Prose around the provider's JSON *)

Lemma strip_prefix_Some (p s r : jsstring) : strip_prefix p s = Some r -> s = p ++ r.
Proof.
  revert s. induction p as [| x p IH]; intros [| y s]; simpl; try congruence.
  destruct (N.eqb_spec x y) as [-> | _]; [| discriminate].
  intros H. now rewrite (IH s H).
Qed.

Lemma strip_fence_close_cases (s : jsstring) :
  strip_fence_close s = s \/ s = strip_fence_close s ++ fence.
Proof.
  unfold strip_fence_close. destruct (strip_prefix fence (rev s)) as [r |] eqn:E; [| now left].
  right. apply strip_prefix_Some in E. apply (f_equal (@rev N)) in E.
  rewrite rev_involutive, rev_app_distr in E. exact E.
Qed.

Lemma JSON_parse_bad_first (c : N) (s : jsstring) :
  idle_step c = None -> JSON_parse (c :: s) = None.
Proof.
  intros H. unfold JSON_parse, JSON_lex, lex_run. cbn [fold_left lex_feed lex_step].
  now rewrite H, lex_fail_absorbing.
Qed.

(** A lexer state at which a text may end takes no backtick. *)
Lemma lex_feed_backtick (st : lex_state) (ts : list token) :
  lex_finish st = Some ts -> lex_feed st backtick = None.
Proof.
  destruct st as [[m out] |]; [| discriminate].
  destruct m as [| acc | acc | more code acc | l seen | ph a]; try discriminate.
  - reflexivity.
  - cbn [lex_finish]. destruct ph; try discriminate; reflexivity.
Qed.

(** Nothing that goes on with a backtick after a JSON text is a JSON text. *)
Lemma JSON_parse_then_backtick (x rest : jsstring) (v : jsval) :
  JSON_parse x = Some v -> JSON_parse (x ++ backtick :: rest) = None.
Proof.
  unfold JSON_parse. destruct (JSON_lex x) as [ts |] eqn:E; [| discriminate].
  intros _. unfold JSON_lex, lex_run in *.
  rewrite fold_left_app. cbn [fold_left].
  now rewrite (lex_feed_backtick _ ts E), lex_fail_absorbing.
Qed.

(** The two replacements at the start, before a JSON text and whatever
    follows it. *)
Lemma strip_fences_front (x opening rest : jsstring) (v : jsval) :
  JSON_parse x = Some v ->
  opening_fence opening ->
  strip_fence_open (strip_fence_json (opening ++ x ++ rest)) = x ++ rest.
Proof.
  intros Hx Ho.
  destruct (JSON_parse_ends x v Hx) as [(c & r & -> & Hbt & Hj) _].
  destruct Ho as [-> | (tag & -> & [-> | Htag])].
  - cbn [app]. rewrite strip_fence_json_other by exact Hbt.
    now apply strip_fence_open_other.
  - rewrite app_nil_r. cbn [app].
    rewrite (strip_fence_json_untagged c (r ++ rest) Hj).
    apply strip_fence_open_fence.
  - rewrite <- app_assoc, strip_fence_json_tagged by exact Htag.
    cbn [app]. now apply strip_fence_open_other.
Qed.

(** X6. Prose around the JSON defeats [safeJSON].  A text that begins,
    white space apart, with a character that starts neither a fence nor a
    JSON value gives the fallback object; and so does a JSON text, fenced
    or not at its start, that is followed by a closing fence and then by
    more text: only a fence at the very end is removed. *)
Theorem safeJSON_prose_gives_fallback :
  (forall (maybe : jsstring) (c : N) (r : jsstring),
     trim maybe = c :: r ->
     c <> backtick ->
     idle_step c = None ->
     safeJSON maybe = fallback_result)
  /\ (forall (pre opening body more : jsstring) (d : N) (v : jsval),
        blank pre ->
        opening_fence opening ->
        JSON_parse body = Some v ->
        is_js_space d = false ->
        d <> backtick ->
        safeJSON (pre ++ opening ++ body ++ fence ++ more ++ [d]) = fallback_result).
Proof.
  split.
  - intros maybe c r Ht Hc Hi. unfold safeJSON, strip_fences. rewrite Ht.
    rewrite strip_fence_json_other, strip_fence_open_other by exact Hc.
    destruct (strip_fence_close_cases (c :: r)) as [-> | E].
    + now rewrite JSON_parse_bad_first.
    + destruct (strip_fence_close (c :: r)) as [| c' r'].
      * injection E as -> _. now elim Hc.
      * injection E as <- _. now rewrite JSON_parse_bad_first.
  - intros pre opening body more d v Hpre Ho Hb Hd Hbt.
    pose proof (JSON_parse_trimStart body v Hb) as Hs.
    assert (Hne : trimStart body <> []).
    { intros E. rewrite E in Hs. discriminate Hs. }
    set (rest := fence ++ more ++ [d]).
    assert (Ht : exists x, JSON_parse x = Some v
                           /\ trim (pre ++ opening ++ body ++ rest) = opening ++ x ++ rest).
    { unfold trim. rewrite (trimStart_blank_app pre _ Hpre).
      assert (He : forall y, trimEnd (y ++ rest) = y ++ rest).
      { intros y. unfold rest. rewrite !app_assoc, trimEnd_snoc, Hd. reflexivity. }
      destruct Ho as [-> | (tag & -> & _)].
      - exists (trimStart body). split; [exact Hs |]. cbn [app].
        rewrite (trimStart_app body rest Hne). apply He.
      - exists body. split; [exact Hb |].
        change (trimStart ((fence ++ tag) ++ body ++ rest)) with ((fence ++ tag) ++ body ++ rest).
        rewrite (app_assoc (fence ++ tag) body rest). rewrite He.
        now rewrite <- app_assoc. }
    destruct Ht as (x & Hx & Ht).
    unfold safeJSON, strip_fences. rewrite Ht.
    rewrite (strip_fences_front x opening rest v Hx Ho).
    rewrite strip_fence_close_other.
    + unfold rest, fence. cbn [app]. now rewrite (JSON_parse_then_backtick x _ v Hx).
    + intros y E. unfold rest in E. rewrite !app_assoc in E.
      apply app_inj_tail in E as [_ ->]. now elim Hbt.
Qed.

(** "Here is the assessment:" before the JSON, and a line of explanation
    after the closing fence. *)
Lemma safeJSON_prose_gives_fallback_witness :
  safeJSON (js "Here is the assessment: " ++ jsq "{'tier':'Strong','total_score':90}")
  = fallback_result
  /\ safeJSON ([] ++ (fence ++ js "json") ++ ([10%N] ++ jsq "{'tier':'Strong','total_score':90}"
                                               ++ [10%N])
               ++ fence ++ ([10%N] ++ js "Let me know if you need more") ++ [46%N])
     = fallback_result.
Proof.
  destruct safeJSON_prose_gives_fallback as [Hbefore Hafter]. split.
  - eapply Hbefore; [vm_compute; reflexivity | discriminate | reflexivity].
  - apply (Hafter [] (fence ++ js "json") _ _ 46%N
             (VObj [(js "tier", VStr (js "Strong")); (js "total_score", VNum (of_Z 90))])).
    + reflexivity.
    + right. exists (js "json"). split; [reflexivity | right; reflexivity].
    + vm_compute. reflexivity.
    + reflexivity.
    + discriminate.
Defined.

(** ** [llmAssess]: what it sends and what it touches *)

Lemma or_string_openai (p : option jsstring) :
  jsstring_eqb (or_string p default_provider) (js "openai") = true ->
  p = Some (js "openai").
Proof.
  intros H. apply jsstring_eqb_eq in H.
  destruct p as [[| c s] |]; try discriminate H. cbn [or_string] in H. now rewrite H.
Qed.

(** X7. One call at most, and nothing else.  [llmAssess] writes to no
    store and reads neither the clock nor an identifier; it sends no
    request or exactly one.  The request carries the input; it goes to the
    OpenAI endpoint with the OpenAI key when the provider secret is
    "openai", and to the Anthropic endpoint with the Anthropic key in every
    other case; the key it carries is never empty. *)
Theorem llmAssess_one_call_at_most (input : Payload.t) (w : world) :
  let w' := snd (llmAssess input w) in
  (SESS w', DEALS w', ASSESS w', USAGE w', SECRETS w', ticks w', uuids_used w')
  = (SESS w, DEALS w, ASSESS w, USAGE w, SECRETS w, ticks w, uuids_used w)
  /\ (outbound w' = outbound w
      \/ exists rq,
           outbound w' = outbound w ++ [rq]
           /\ prompt_input rq = input
           /\ api_key rq <> []
           /\ ((url rq = openai_url
                /\ SECRETS w !! js "LLM_PROVIDER" = Some (js "openai")
                /\ SECRETS w !! js "OPENAI_API_KEY" = Some (api_key rq))
               \/ (url rq = anthropic_url
                   /\ SECRETS w !! js "LLM_PROVIDER" <> Some (js "openai")
                   /\ SECRETS w !! js "ANTHROPIC_API_KEY" = Some (api_key rq)))).
Proof.
  intros w'.
  assert (Hw : w' = match llm_request input w with Some rq => called rq w | None => w end).
  { subst w'. rewrite llmAssess_run.
    destruct (llm_request input w) as [rq |]; [| reflexivity].
    destruct (llm_reply rq w) as [| code text]; [reflexivity |].
    destruct (JSON_parse text) as [j |]; [| reflexivity].
    destruct (response_text rq j); reflexivity. }
  rewrite Hw. clear Hw w'.
  destruct (llm_request input w) as [rq |] eqn:Hrq; [| split; [reflexivity | now left]].
  split; [reflexivity |]. right. exists rq. split; [reflexivity |].
  unfold llm_request in Hrq.
  destruct (jsstring_eqb (or_string (SECRETS w !! js "LLM_PROVIDER") default_provider)
              (js "openai")) eqn:Ep.
  - apply or_string_openai in Ep.
    destruct (SECRETS w !! js "OPENAI_API_KEY" : option jsstring) as [[| c k] |] eqn:Ek;
      try discriminate Hrq.
    injection Hrq as <-. cbn [prompt_input api_key url].
    split; [reflexivity |]. split; [discriminate |]. left. now rewrite Ep.
  - destruct (SECRETS w !! js "ANTHROPIC_API_KEY" : option jsstring) as [[| c k] |] eqn:Ek;
      try discriminate Hrq.
    injection Hrq as <-. cbn [prompt_input api_key url].
    split; [reflexivity |]. split; [discriminate |]. right.
    split; [reflexivity |]. split; [| reflexivity].
    intros E. rewrite E in Ep. discriminate Ep.
Qed.

(** ** [trim] twice, and white space around the text *)

Lemma trimStart_suffix (s : jsstring) : exists pre, s = pre ++ trimStart s.
Proof.
  induction s as [| c s [pre IH]]; [now exists [] |].
  simpl. destruct (is_js_space c).
  - exists (c :: pre). simpl. now rewrite <- IH.
  - now exists [].
Qed.

Lemma trimStart_idem (s : jsstring) : trimStart (trimStart s) = trimStart s.
Proof.
  induction s as [| c s IH]; [reflexivity |].
  simpl. destruct (is_js_space c) eqn:E; [exact IH |]. simpl. now rewrite E.
Qed.

Lemma trimStart_head (s : jsstring) (c : N) (r : jsstring) :
  trimStart s = c :: r -> is_js_space c = false.
Proof.
  induction s as [| x s IH]; [discriminate |].
  simpl. destruct (is_js_space x) eqn:E; [exact IH |]. now intros [= <- _].
Qed.

Lemma trimEnd_prefix (s : jsstring) : exists post, s = trimEnd s ++ post.
Proof.
  unfold trimEnd. destruct (trimStart_suffix (rev s)) as [pre E].
  exists (rev pre). rewrite <- rev_app_distr, <- E. now rewrite rev_involutive.
Qed.

Lemma trim_idem (s : jsstring) : trim (trim s) = trim s.
Proof.
  unfold trim.
  assert (Hs : trimStart (trimEnd (trimStart s)) = trimEnd (trimStart s)).
  { destruct (trimEnd_prefix (trimStart s)) as [post E].
    destruct (trimEnd (trimStart s)) as [| c r]; [reflexivity |].
    assert (Hc : is_js_space c = false).
    { apply (trimStart_head s c (r ++ post)). rewrite E. reflexivity. }
    simpl. now rewrite Hc. }
  rewrite Hs. unfold trimEnd. now rewrite rev_involutive, trimStart_idem.
Qed.

Lemma safeJSON_trim (s : jsstring) : safeJSON (trim s) = safeJSON s.
Proof. unfold safeJSON, strip_fences. now rewrite trim_idem. Qed.

(** X8. White space around the text plays no part, and there is always a
    result.  [safeJSON] gives the same value for a text and for that text
    with white space before and after it, or trimmed; and it never returns
    [undefined]. *)
Theorem safeJSON_ignores_outer_space (pre maybe post : jsstring) :
  blank pre ->
  blank post ->
  safeJSON (pre ++ maybe ++ post) = safeJSON maybe
  /\ safeJSON (trim maybe) = safeJSON maybe
  /\ safeJSON maybe <> VUndefined.
Proof.
  intros Hpre Hpost. split; [| split].
  - unfold safeJSON, strip_fences. now rewrite (trim_blank pre maybe post Hpre Hpost).
  - apply safeJSON_trim.
  - apply safeJSON_defined.
Qed.

(** An answer that is not JSON, with a line break after it. *)
Lemma safeJSON_ignores_outer_space_witness :
  safeJSON ([32%N] ++ js "N/A" ++ [10%N]) = safeJSON (js "N/A").
Proof. apply safeJSON_ignores_outer_space; reflexivity. Defined.

(** X9. A reply of the expected shape.  When the call is made and the body
    of the reply is a JSON object that carries a string at the provider's
    place (the [text] of the first block of [content] for Anthropic, the
    [content] of the [message] of the first of [choices] for OpenAI), the
    result is [safeJSON] of that string; a string of white space only gives
    the empty object.  Further blocks or choices and the status of the
    reply play no part. *)
Theorem llmAssess_reads_first_text
    (input : Payload.t) (w : world) (rq : fetch_request) (code : Z)
    (text : jsstring) (j first : jsval) (others : list jsval) (t : jsstring) :
  llm_request input w = Some rq ->
  llm_reply rq w = Reply code text ->
  JSON_parse text = Some j ->
  (if jsstring_eqb (url rq) openai_url
   then member j (js "choices") = VArr (first :: others)
        /\ member (member first (js "message")) (js "content") = VStr t
   else member j (js "content") = VArr (first :: others)
        /\ member first (js "text") = VStr t) ->
  fst (llmAssess input w) = Ok (match trim t with [] => VObj [] | _ => safeJSON t end).
Proof.
  intros Hrq Hre Hj Hshape. rewrite llmAssess_run, Hrq, Hre, Hj.
  assert (Hn : forall v k x, member v k = x -> x <> VUndefined -> nullish v = false).
  { intros v k x E Hx. destruct v; try reflexivity; cbn in E; congruence. }
  assert (Ht : response_text rq j = Ok (Some (trim t))).
  { unfold response_text. destruct (jsstring_eqb (url rq) openai_url).
    - destruct Hshape as [Hc Ht]. unfold openai_text, chain.
      rewrite (Hn j _ _ Hc) by discriminate. rewrite Hc. cbn [nullish first_element].
      assert (Hm : nullish (member first (js "message")) = false)
        by (apply (Hn _ _ _ Ht); discriminate).
      rewrite (Hn first (js "message") _ eq_refl), Hm, Ht; [reflexivity |].
      intros E. rewrite E in Hm. discriminate Hm.
    - destruct Hshape as [Hc Ht]. unfold anthropic_text, chain.
      rewrite (Hn j _ _ Hc) by discriminate. rewrite Hc. cbn [nullish first_element].
      rewrite (Hn first _ _ Ht) by discriminate. now rewrite Ht. }
  rewrite Ht. cbn [fst]. f_equal.
  destruct (trim t) as [| c r] eqn:E; [reflexivity |].
  cbn [or_string]. rewrite <- E. apply safeJSON_trim.
Qed.

(** An Anthropic reply with two blocks, the first holding a fenced answer. *)
Lemma llmAssess_reads_first_text_witness :
  let w :=
    sample_world [(js "ANTHROPIC_API_KEY", js "sk-test")]
      (Reply 200 (jsq "{'content':[{'text':' {\'tier\':\'Weak\'} '},{'text':'more'}]}")) 0 in
  fst (llmAssess sample_input w) = Ok (VObj [(js "tier", VStr (js "Weak"))]).
Proof.
  intros w.
  rewrite (llmAssess_reads_first_text sample_input w
             {| url := anthropic_url; api_key := js "sk-test"; model := default_model;
                prompt_input := sample_input |}
             200 _ (VObj [(js "content",
                           VArr [VObj [(js "text", VStr (jsq " {'tier':'Weak'} "))];
                                 VObj [(js "text", VStr (js "more"))]])])
             (VObj [(js "text", VStr (jsq " {'tier':'Weak'} "))])
             [VObj [(js "text", VStr (js "more"))]]
             (jsq " {'tier':'Weak'} ") eq_refl eq_refl).
  - vm_compute. reflexivity.
  - vm_compute. reflexivity.
  - split; reflexivity.
Defined.

(** ** Signing in and out *)

Section Sessions.
Context {platform : Platform}.

Lemma handle_dev_login (fuel : nat) (req : request) :
  method req = js "POST" -> pathname req = js "/dev-login" ->
  handle fuel req = dev_login req.
Proof. intros Hm Hp. unfold handle. rewrite Hm, Hp. reflexivity. Qed.

Lemma handle_logout (fuel : nat) (req : request) :
  method req = js "POST" -> pathname req = js "/logout" ->
  handle fuel req = logout req.
Proof. intros Hm Hp. unfold handle. rewrite Hm, Hp. reflexivity. Qed.

Lemma handle_home (fuel : nat) (req : request) :
  method req = js "GET" -> pathname req = js "/" ->
  handle fuel req = home req.
Proof. intros Hm Hp. unfold handle. rewrite Hm, Hp. reflexivity. Qed.

Lemma handle_new_deal (fuel : nat) (req : request) :
  method req = js "POST" -> pathname req = js "/deal" ->
  handle fuel req = new_deal req.
Proof. intros Hm Hp. unfold handle. rewrite Hm, Hp. reflexivity. Qed.

(** A request that carries the identifier of a stored session is let in. *)
Lemma requireSession_known (req : request) (w : world) (sid : jsstring) (user : SessionUser) :
  cookieGet req (js "apx") = Ok sid ->
  sid <> [] ->
  SESS w !! (js "s:" ++ sid) = Some user ->
  requireSession req w = (Ok (sid, user), w).
Proof.
  intros Hc Hne Hs. unfold requireSession, getSession, bind, lift. rewrite Hc.
  destruct sid as [| c sid]; [congruence |]. now rewrite Hs.
Qed.

(** [POST /dev-login], path by path. *)
Lemma dev_login_run (req : request) (w : world) (f : list (jsstring * form_value)) :
  formData req = Some f ->
  dev_login req w =
    match trim (toLowerCase (form_string f (js "email") [])) with
    | [] => (Ok (TEXT (js "Email required") 400), w)
    | address =>
        let sid := uuids w (uuids_used w) in
        (Ok {| status := 302; location := Some (js "/deals");
               set_cookie := Some {| cookie_name := js "apx"; cookie_value := sid;
                                     cookie_expires := clock w (ticks w) + 7 * 86400000 |};
               content := NoBody |},
         tick (with_SESS (insert (js "s:" ++ sid)
                            {| sub := js "u:" ++ address; email := address |})
                 (next_uuid w)))
    end.
Proof.
  intros Hf. unfold dev_login, bind, req_formData. rewrite Hf. unfold ret at 1.
  destruct (trim (toLowerCase (form_string f (js "email") []))); reflexivity.
Qed.

(** X10. Signing in.  [POST /dev-login] with an e-mail address that is not
    blank once lower-cased and trimmed stores a session record for the user
    [u:<address>] under a fresh identifier, answers 302 to [/deals] with the
    cookie [apx] set to that identifier for seven days, and writes nothing
    else; any later request that carries the identifier is then recognised
    as that user.  With a blank or missing address the answer is 400
    "Email required" and nothing is written. *)
Theorem dev_login_opens_session
    (fuel : nat) (req : request) (w : world) (f : list (jsstring * form_value)) :
  method req = js "POST" ->
  pathname req = js "/dev-login" ->
  formData req = Some f ->
  let address := trim (toLowerCase (form_string f (js "email") [])) in
  let sid := uuids w (uuids_used w) in
  let user := {| sub := js "u:" ++ address; email := address |} in
  (address = [] -> handle fuel req w = (Ok (TEXT (js "Email required") 400), w))
  /\ (address <> [] ->
      exists w',
        handle fuel req w
        = (Ok {| status := 302; location := Some (js "/deals");
                 set_cookie := Some {| cookie_name := js "apx"; cookie_value := sid;
                                       cookie_expires := clock w (ticks w) + 7 * 86400000 |};
                 content := NoBody |}, w')
        /\ SESS w' = <[js "s:" ++ sid := user]> (SESS w)
        /\ (DEALS w', ASSESS w', USAGE w', outbound w') = (DEALS w, ASSESS w, USAGE w, outbound w)
        /\ (sid <> [] ->
            forall req', cookieGet req' (js "apx") = Ok sid ->
                         requireSession req' w' = (Ok (sid, user), w'))).
Proof.
  intros Hm Hp Hf address sid user.
  rewrite (handle_dev_login fuel req Hm Hp), (dev_login_run req w f Hf).
  fold address sid. split.
  - intros ->. reflexivity.
  - intros Hne. destruct address as [| c a] eqn:Ea; [congruence |].
    eexists. split; [reflexivity |].
    cbn [SESS DEALS ASSESS USAGE outbound with_SESS next_uuid tick].
    split; [reflexivity |]. split; [reflexivity |].
    intros Hsid req' Hc. apply requireSession_known; [exact Hc | exact Hsid |].
    cbn [SESS with_SESS next_uuid tick]. apply lookup_insert_eq.
Qed.

(** X11. Signing out.  [POST /logout] deletes the session record the cookie
    names, if any, and no other; answers 302 to [/] with the cookie [apx]
    emptied and expired a day ago; and leaves the deals alone.  A later
    request with the same cookie is anonymous: on a protected route it is
    turned away. *)
Theorem logout_closes_session (fuel : nat) (req : request) (w : world) (sid : jsstring) :
  method req = js "POST" ->
  pathname req = js "/logout" ->
  cookieGet req (js "apx") = Ok sid ->
  exists w',
    handle fuel req w
    = (Ok {| status := 302; location := Some (js "/");
             set_cookie := Some {| cookie_name := js "apx"; cookie_value := [];
                                   cookie_expires := clock w (ticks w) - 86400000 |};
             content := NoBody |}, w')
    /\ (sid <> [] -> SESS w' = delete (js "s:" ++ sid) (SESS w))
    /\ (sid = [] -> SESS w' = SESS w)
    /\ (forall k, k <> js "s:" ++ sid -> SESS w' !! k = SESS w !! k)
    /\ (DEALS w', ASSESS w', USAGE w', outbound w') = (DEALS w, ASSESS w, USAGE w, outbound w)
    /\ (forall req', cookieGet req' (js "apx") = Ok sid ->
                     anonymous req' w'
                     /\ (protected_route req' ->
                         handle fuel req' w'
                         = (Throw (ThrownResponse (redirect (js "/"))), w'))).
Proof.
  intros Hm Hp Hc. rewrite (handle_logout fuel req Hm Hp).
  unfold logout, bind, lift. rewrite Hc.
  destruct sid as [| c sid].
  - eexists. split; [reflexivity |].
    cbn [SESS DEALS ASSESS USAGE outbound tick].
    split; [congruence |]. split; [reflexivity |]. split; [reflexivity |].
    split; [reflexivity |].
    intros req' Hc'.
    assert (Ha : anonymous req' (tick w)) by now left.
    split; [exact Ha |]. intros Hr. now apply handle_anonymous.
  - eexists. split; [reflexivity |].
    cbn [SESS DEALS ASSESS USAGE outbound tick with_SESS].
    split; [reflexivity |]. split; [discriminate |].
    split; [intros k Hk; now apply lookup_delete_ne |].
    split; [reflexivity |].
    intros req' Hc'.
    assert (Ha : anonymous req' (tick (with_SESS (delete (js "s:" ++ c :: sid)) w))).
    { right. exists (c :: sid). split; [exact Hc' |].
      cbn [SESS with_SESS tick]. apply lookup_delete_eq. }
    split; [exact Ha |]. intros Hr. now apply handle_anonymous.
Qed.

(** X12. A cookie that does not decode.  When the [apx] cookie of a request
    is not a well-formed URI component, reading it throws a URIError, and
    with it every route that looks for the session: the home page, the
    logout, and the four protected routes.  Nothing is written, and the
    client is answered the runtime's error. *)
Theorem undecodable_cookie_fails (fuel : nat) (req : request) (w : world) (v : jsstring) :
  cookie_match (js "apx") (or_string (cookie_header req) []) = Some v ->
  decodeURIComponent v = None ->
  (method req = js "GET" /\ pathname req = js "/")
  \/ (method req = js "POST" /\ pathname req = js "/logout")
  \/ protected_route req ->
  handle fuel req w = (Throw URIError, w)
  /\ on_fetch fuel req w = (Some RuntimeError, w).
Proof.
  intros Hmatch Hdec Hroute.
  assert (Hc : cookieGet req (js "apx") = Throw URIError).
  { unfold cookieGet. now rewrite Hmatch, Hdec. }
  assert (Hg : getSession req w = (Throw URIError, w)).
  { unfold getSession, bind, lift. now rewrite Hc. }
  assert (Hs : requireSession req w = (Throw URIError, w)).
  { unfold requireSession, bind. now rewrite Hg. }
  assert (H : handle fuel req w = (Throw URIError, w)).
  { destruct Hroute as [[Hm Hp] | [[Hm Hp] | Hr]].
    - rewrite (handle_home fuel req Hm Hp). unfold home, bind. now rewrite Hg.
    - rewrite (handle_logout fuel req Hm Hp). unfold logout, bind, lift. now rewrite Hc.
    - destruct Hr as [[Hm Hp] | [[Hm [id Hp]] | [[Hm Hp] | [Hm [rest Hp]]]]].
      + rewrite (handle_deals fuel req Hm Hp). unfold deals_page, bind. now rewrite Hs.
      + rewrite (handle_deal fuel req id Hm Hp). unfold deal_page, bind. now rewrite Hs.
      + rewrite (handle_assess fuel req Hm Hp). unfold assess, bind. now rewrite Hs.
      + rewrite (handle_assessment fuel req rest Hm Hp). unfold assessment_page, bind.
        now rewrite Hs. }
  split; [exact H |]. unfold on_fetch. now rewrite H.
Qed.

End Sessions.

(** Ann signs in, her address typed with capitals and spaces around: the
    session [id-0] is hers, and the cookie opens it. *)
Lemma dev_login_opens_session_witness :
  let w := sample_world [] NetworkFailure 1700000000000 in
  let req := submission "/dev-login" None [(js "email", FString (js " Ann@Example.com "))] in
  let out := handle (platform := sample_platform) 0 req w in
  fst out
  = Ok {| status := 302; location := Some (js "/deals");
          set_cookie := Some {| cookie_name := js "apx"; cookie_value := js "id-0";
                                cookie_expires := 1700604800000 |};
          content := NoBody |}
  /\ requireSession (platform := sample_platform)
       (request_of "GET" "/deals" (Some (js "apx=id-0"))) (snd out)
     = (Ok (js "id-0", ann), snd out).
Proof.
  intros w req out.
  pose proof (dev_login_opens_session (platform := sample_platform) 0 req w
                [(js "email", FString (js " Ann@Example.com "))] eq_refl eq_refl eq_refl)
    as [_ H].
  destruct H as (w' & Hrun & _ & _ & Hround); [vm_compute; discriminate |].
  subst out. rewrite Hrun. cbn [fst snd]. split.
  - reflexivity.
  - apply Hround; [vm_compute; discriminate | reflexivity].
Defined.

(** Ann signs out: her cookie no longer opens [/deals]. *)
Lemma logout_closes_session_witness :
  let req := request_of "POST" "/logout" (Some (js "apx=sid-1")) in
  let out := handle (platform := sample_platform) 0 req ann_world in
  SESS (snd out) !! js "s:sid-1" = None
  /\ handle (platform := sample_platform) 0
       (request_of "GET" "/deals" (Some (js "apx=sid-1"))) (snd out)
     = (Throw (ThrownResponse (redirect (js "/"))), snd out).
Proof.
  intros req out.
  destruct (logout_closes_session (platform := sample_platform) 0 req ann_world (js "sid-1")
              eq_refl eq_refl eq_refl) as (w' & Hrun & Hdel & _ & _ & _ & Hlater).
  assert (Hout : snd out = w') by (subst out; now rewrite Hrun).
  rewrite Hout. split.
  - rewrite Hdel by discriminate. apply lookup_delete_eq.
  - destruct (Hlater (request_of "GET" "/deals" (Some (js "apx=sid-1"))) eq_refl) as [_ H].
    apply H. left. split; reflexivity.
Defined.

(** A cookie cut short in the middle of an escape: the home page fails. *)
Lemma undecodable_cookie_fails_witness :
  let req := request_of "GET" "/" (Some (js "apx=%E0%A4%A")) in
  handle (platform := sample_platform) 0 req ann_world = (Throw URIError, ann_world)
  /\ on_fetch (platform := sample_platform) 0 req ann_world = (Some RuntimeError, ann_world).
Proof.
  intros req.
  apply (undecodable_cookie_fails (platform := sample_platform) 0 req ann_world
           (js "%E0%A4%A")).
  - reflexivity.
  - reflexivity.
  - left. split; reflexivity.
Defined.

(** ** Requests that write nothing *)

Lemma bind_same {A B} (c : M A) (k : A -> M B) (w : world) :
  snd (c w) = w -> (forall a, snd (k a w) = w) -> snd (bind c k w) = w.
Proof.
  intros Hc Hk. unfold bind. destruct (c w) as [[a | e |] w1]; cbn [snd] in Hc; subst w1;
    [apply Hk | reflexivity | reflexivity].
Qed.

Section ReadOnly.
Context {platform : Platform}.

Lemma getSession_same (req : request) (w : world) : snd (getSession req w) = w.
Proof.
  unfold getSession, bind, lift.
  destruct (cookieGet req (js "apx")) as [[| c id] | e |]; reflexivity.
Qed.

Lemma requireSession_same (req : request) (w : world) : snd (requireSession req w) = w.
Proof.
  unfold requireSession. apply bind_same; [apply getSession_same |].
  intros [[| c id] [user |]]; reflexivity.
Qed.

Lemma page_loop_same (fuel : nat) (prefix : jsstring) (w : world) :
  forall cursor keys, snd (page_loop fuel prefix cursor keys w) = w.
Proof.
  induction fuel as [| fuel IH]; intros cursor keys; [reflexivity |].
  cbn [page_loop]. unfold bind, DEALS_list.
  destruct (kv_list (DEALS w) prefix cursor 100) as [list [c |]]; [apply IH | reflexivity].
Qed.

Lemma listDeals_same (fuel : nat) (user : jsstring) (w : world) :
  snd (listDeals fuel user w) = w.
Proof.
  unfold listDeals. apply bind_same; [apply page_loop_same |].
  intros keys. apply bind_same; [now rewrite read_deals_all | reflexivity].
Qed.

(** X13. A GET writes nothing.  Whatever the path, the cookie and the
    stores, handling a GET request leaves every store, the log of outbound
    calls, the clock and the identifiers as they were, be the request
    served, refused or failed. *)
Theorem get_request_writes_nothing (fuel : nat) (req : request) (w : world) :
  method req = js "GET" ->
  snd (handle fuel req w) = w.
Proof.
  intros Hm. unfold handle. rewrite Hm.
  change (jsstring_eqb (js "GET") (js "GET")) with true.
  change (jsstring_eqb (js "GET") (js "POST")) with false.
  cbn [andb].
  destruct (jsstring_eqb (pathname req) (js "/")).
  { unfold home. apply bind_same; [apply getSession_same |].
    intros [id [user |]]; reflexivity. }
  destruct (jsstring_eqb (pathname req) (js "/deals")).
  { unfold deals_page. apply bind_same; [apply requireSession_same |].
    intros [id user]. apply bind_same; [apply listDeals_same | reflexivity]. }
  destruct (startsWith (pathname req) (js "/deal/")).
  { unfold deal_page. apply bind_same; [apply requireSession_same |].
    intros [id user]. apply bind_same; [reflexivity |].
    intros [deal |]; reflexivity. }
  destruct (startsWith (pathname req) (js "/assessment/")).
  { unfold assessment_page. apply bind_same; [apply requireSession_same |].
    intros [id user]. apply bind_same; [reflexivity |].
    intros [a |]; reflexivity. }
  destruct (jsstring_eqb (pathname req) (js "/health")); reflexivity.
Qed.

(** X14. The home page.  [GET /] with the cookie of a stored session
    redirects to [/deals]; without a cookie, or with one that names no
    stored session, it shows the login form; in both cases nothing is
    written. *)
Theorem home_page_by_session (fuel : nat) (req : request) (w : world) :
  method req = js "GET" ->
  pathname req = js "/" ->
  (anonymous req w -> handle fuel req w = (Ok (HTML LoginPage), w))
  /\ (forall sid user,
        cookieGet req (js "apx") = Ok sid ->
        sid <> [] ->
        SESS w !! (js "s:" ++ sid) = Some user ->
        handle fuel req w = (Ok (redirect (js "/deals")), w)).
Proof.
  intros Hm Hp. rewrite (handle_home fuel req Hm Hp).
  unfold home, getSession, bind, lift. split.
  - intros [Hc | (id & Hc & Hs)]; rewrite Hc; [reflexivity |].
    destruct id as [| c id]; [reflexivity |]. now rewrite Hs.
  - intros sid user Hc Hne Hs. rewrite Hc.
    destruct sid as [| c sid]; [congruence |]. now rewrite Hs.
Qed.

(** X15. What is not a route.  A request whose method is neither GET nor
    POST is answered 404 "Not found" on every path; and so is [GET
    /logout], the address of the "Logout" link of the deals page, since
    only the POST is a route: the session stays as it is. *)
Theorem unrouted_request_not_found (fuel : nat) (req : request) (w : world) :
  (method req <> js "GET" /\ method req <> js "POST")
  \/ (method req = js "GET" /\ pathname req = js "/logout") ->
  handle fuel req w = (Ok (TEXT (js "Not found") 404), w)
  /\ on_fetch fuel req w = (Some (Responded (TEXT (js "Not found") 404)), w).
Proof.
  intros H.
  assert (Hh : handle fuel req w = (Ok (TEXT (js "Not found") 404), w)).
  { unfold handle. destruct H as [[Hg Hp] | [Hm Hp]].
    - rewrite (jsstring_eqb_neq _ _ Hg), (jsstring_eqb_neq _ _ Hp). reflexivity.
    - rewrite Hm, Hp. reflexivity. }
  split; [exact Hh |]. unfold on_fetch. now rewrite Hh.
Qed.

End ReadOnly.

(** Ann's deal page, served: the world is the same after it. *)
Lemma get_request_writes_nothing_witness :
  snd (handle (platform := sample_platform) 1
         (request_of "GET" "/deal/7" (Some (js "apx=sid-1"))) ann_world)
  = ann_world.
Proof. apply get_request_writes_nothing. reflexivity. Defined.

(** Ann with her cookie, and a visitor without one. *)
Lemma home_page_by_session_witness :
  handle (platform := sample_platform) 0 (request_of "GET" "/" (Some (js "apx=sid-1"))) ann_world
  = (Ok (redirect (js "/deals")), ann_world)
  /\ handle (platform := sample_platform) 0 (request_of "GET" "/" None) ann_world
     = (Ok (HTML LoginPage), ann_world).
Proof.
  split.
  - destruct (home_page_by_session (platform := sample_platform) 0
                (request_of "GET" "/" (Some (js "apx=sid-1"))) ann_world eq_refl eq_refl)
      as [_ H].
    apply (H (js "sid-1") ann); [reflexivity | discriminate | reflexivity].
  - destruct (home_page_by_session (platform := sample_platform) 0
                (request_of "GET" "/" None) ann_world eq_refl eq_refl) as [H _].
    apply H. left. reflexivity.
Defined.

(** Ann follows the "Logout" link: not found, and she is still signed in. *)
Lemma unrouted_request_not_found_witness :
  let req := request_of "GET" "/logout" (Some (js "apx=sid-1")) in
  handle (platform := sample_platform) 0 req ann_world
  = (Ok (TEXT (js "Not found") 404), ann_world)
  /\ SESS ann_world !! js "s:sid-1" = Some ann.
Proof.
  intros req. split; [| reflexivity].
  apply (unrouted_request_not_found (platform := sample_platform) 0 req ann_world).
  right. split; reflexivity.
Defined.

(** ** Paths *)

Lemma split_slash_nonempty (s cur : jsstring) : split_slash s cur <> [].
Proof.
  revert cur. induction s as [| c s IH]; intros cur; simpl; [discriminate |].
  destruct (N.eqb c 47); [discriminate | apply IH].
Qed.

Lemma split_slash_piece (s cur : jsstring) :
  no_slash s -> split_slash s cur = [rev cur ++ s].
Proof.
  unfold no_slash. revert cur. induction s as [| c s IH]; intros cur;
    cbn [existsb split_slash].
  - now rewrite app_nil_r.
  - rewrite (N.eqb_sym 47 c). destruct (N.eqb c 47); [discriminate |]. cbn [orb].
    intros H. rewrite (IH (c :: cur) H). cbn [rev]. now rewrite <- app_assoc.
Qed.

Lemma last_cons_nonempty {A} (x : A) (l : list A) (d : A) :
  l <> [] -> List.last (x :: l) d = List.last l d.
Proof. destruct l; [congruence | reflexivity]. Qed.

(** The last piece of a path is what follows its last slash. *)
Lemma split_slash_last (s id cur : jsstring) :
  no_slash id -> List.last (split_slash (s ++ 47%N :: id) cur) [] = id.
Proof.
  intros Hid. revert cur. induction s as [| c s IH]; intros cur.
  - cbn [app split_slash]. rewrite N.eqb_refl.
    rewrite (split_slash_piece id [] Hid). reflexivity.
  - cbn [app split_slash]. destruct (N.eqb c 47); [| apply IH].
    rewrite last_cons_nonempty by apply split_slash_nonempty. apply IH.
Qed.

(** ** Creating a deal *)

Lemma listDeals_run (fuel : nat) (user : jsstring) (w : world) :
  (length (kv_keys (DEALS w) (deal_prefix user)) < 100 * fuel)%nat ->
  listDeals fuel user w = (Ok (sort by_updatedAt_desc (deals_of w user)), w).
Proof.
  intros Hfuel. unfold listDeals, bind.
  rewrite (page_loop_all fuel (deal_prefix user) w None []) by (simpl; lia).
  simpl default. rewrite drop_0, app_nil_l, read_deals_all, app_nil_l.
  unfold ret. now rewrite read_listed_keys.
Qed.

Lemma deals_of_elem (w : world) (user k : jsstring) (d : Deal) :
  DEALS w !! k = Some d ->
  startsWith k (deal_prefix user) = true ->
  d ∈ sort by_updatedAt_desc (deals_of w user).
Proof.
  intros Hk Hp. rewrite sort_perm. unfold deals_of.
  apply list_elem_of_In, in_map_iff. exists (k, d). split; [reflexivity |].
  apply filter_In. split; [| exact Hp].
  apply list_elem_of_In. now apply elem_of_map_to_list.
Qed.

Section Deals.
Context {platform : Platform}.

Lemma new_deal_run (req : request) (w : world) (sid : jsstring) (user : SessionUser)
    (f : list (jsstring * form_value)) :
  requireSession req w = (Ok (sid, user), w) ->
  formData req = Some f ->
  let id := uuids w (uuids_used w) in
  new_deal req w
  = (Ok (redirect (js "/deal/" ++ id)),
     with_DEALS (insert (deal_key (sub user) id) (new_document user f id (clock w (ticks w))))
       (tick (next_uuid w))).
Proof.
  intros Hs Hf id. unfold new_deal. unfold bind at 1. rewrite Hs.
  unfold bind at 1. unfold req_formData. rewrite Hf. reflexivity.
Qed.

(** X16. Creating a deal and finding it again.  [POST /deal] by a signed-in
    user stores, under the user's key and a fresh identifier, a document
    with the trimmed account and title of the form, its value as a number,
    its stage or "Qualification", no assessment yet, and the reading of the
    clock as [updatedAt]; it writes nothing else and redirects to
    [/deal/<id>].  Following the redirect with the same cookie shows that
    document, and the listing of the user's deals contains it. *)
Theorem new_deal_is_stored_and_shown
    (fuel : nat) (req : request) (w : world) (sid : jsstring) (user : SessionUser)
    (f : list (jsstring * form_value)) :
  method req = js "POST" ->
  pathname req = js "/deal" ->
  requireSession req w = (Ok (sid, user), w) ->
  formData req = Some f ->
  let id := uuids w (uuids_used w) in
  let doc := new_document user f id (clock w (ticks w)) in
  exists w',
    handle fuel req w = (Ok (redirect (js "/deal/" ++ id)), w')
    /\ DEALS w' = <[deal_key (sub user) id := doc]> (DEALS w)
    /\ (SESS w', ASSESS w', USAGE w', outbound w') = (SESS w, ASSESS w, USAGE w, outbound w)
    /\ (no_slash id ->
        forall req',
          method req' = js "GET" ->
          pathname req' = js "/deal/" ++ id ->
          cookieGet req' (js "apx") = Ok sid ->
          handle fuel req' w' = (Ok (HTML (DealPage doc)), w'))
    /\ (forall pages,
          (length (kv_keys (DEALS w') (deal_prefix (sub user))) < 100 * pages)%nat ->
          exists deals, listDeals pages (sub user) w' = (Ok deals, w') /\ doc ∈ deals).
Proof.
  intros Hm Hp Hs Hf id doc.
  rewrite (handle_new_deal fuel req Hm Hp), (new_deal_run req w sid user f Hs Hf).
  fold id doc. eexists. split; [reflexivity |].
  cbn [SESS DEALS ASSESS USAGE outbound with_DEALS next_uuid tick].
  split; [reflexivity |]. split; [reflexivity |].
  destruct (requireSession_inv req w w sid user Hs) as (_ & Hne & _ & Hsess).
  set (w' := with_DEALS _ _).
  assert (Hd : DEALS w' !! deal_key (sub user) id = Some doc) by apply lookup_insert_eq.
  split.
  - intros Hid req' Hm' Hp' Hc'.
    rewrite (handle_deal fuel req' id Hm' Hp'). unfold deal_page.
    unfold bind at 1. rewrite (requireSession_known req' w' sid user Hc' Hne Hsess).
    rewrite Hp'. change (js "/deal/" ++ id) with (js "/deal" ++ 47%N :: id).
    rewrite (split_slash_last _ id [] Hid).
    unfold bind, DEALS_get. now rewrite Hd.
  - intros pages Hpages. eexists. split; [now apply listDeals_run |].
    apply (deals_of_elem w' (sub user) _ doc Hd). apply deal_key_under_prefix.
Qed.

End Deals.

(** Ann creates a deal: it gets the identifier [id-0], and both its page and
    her listing show it. *)
Lemma new_deal_is_stored_and_shown_witness :
  let req := submission "/deal" (Some (js "apx=sid-1"))
               [(js "account", FString (js " Globex ")); (js "title", FString (js "Pilot"));
                (js "value", FString (js "2500"))] in
  let doc := {| userId := js "u:ann@example.com"; dealId := js "id-0";
                account := js "Globex"; title := js "Pilot"; value := VNum (of_Z 2500);
                stage := js "Qualification"; lastAssessmentId := None;
                lastTier := VUndefined; lastScore := VUndefined;
                updatedAt := 1700000000000 |} in
  let w' := snd (handle (platform := sample_platform) 1 req ann_world) in
  handle (platform := sample_platform) 1
    (request_of "GET" "/deal/id-0" (Some (js "apx=sid-1"))) w'
  = (Ok (HTML (DealPage doc)), w')
  /\ exists deals, listDeals 1 (js "u:ann@example.com") w' = (Ok deals, w') /\ doc ∈ deals.
Proof.
  intros req doc w'.
  destruct (new_deal_is_stored_and_shown (platform := sample_platform) 1 req ann_world
              (js "sid-1") ann
              [(js "account", FString (js " Globex ")); (js "title", FString (js "Pilot"));
               (js "value", FString (js "2500"))]
              eq_refl eq_refl)
    as (w1 & Hrun & Hd & _ & Hshow & Hlist).
  - vm_compute. reflexivity.
  - reflexivity.
  - assert (Hw : w' = w1) by (subst w'; now rewrite Hrun).
    rewrite Hw. split.
    + apply Hshow; reflexivity.
    + apply Hlist. rewrite Hd. vm_compute. lia.
Defined.

(** ** The keys of the deal store *)

Lemma no_colon_cons (c : N) (s : jsstring) : no_colon (c :: s) -> c <> 58%N /\ no_colon s.
Proof.
  unfold no_colon. cbn [existsb]. destruct (N.eqb_spec 58 c) as [E | E]; [discriminate |].
  cbn [orb]. intros H. split; [congruence | exact H].
Qed.

Lemma no_colon_app (a b : jsstring) : no_colon (a ++ 58%N :: b) -> False.
Proof.
  unfold no_colon. rewrite existsb_app. cbn [existsb]. rewrite N.eqb_refl.
  cbn [orb]. rewrite orb_true_r. discriminate.
Qed.

(** A string is cut at its last colon in one way only. *)
Lemma cut_at_last_colon (a a' b b' : jsstring) :
  no_colon b -> no_colon b' ->
  a ++ 58%N :: b = a' ++ 58%N :: b' -> a = a' /\ b = b'.
Proof.
  intros Hb Hb'. revert a'. induction a as [| x a IH]; intros [| y a']; cbn [app]; intros E.
  - injection E as ->. split; reflexivity.
  - injection E as <- ->. now elim (no_colon_app a' b').
  - injection E as -> <-. now elim (no_colon_app a b).
  - injection E as -> E. destruct (IH a' E) as [-> ->]. split; reflexivity.
Qed.

(** X17. No two deals under one key.  As long as deal identifiers hold no
    colon, as those [crypto.randomUUID] makes, the key of a deal determines
    both the user and the identifier: deals of different users, or
    different deals of one user, are never stored under the same key. *)
Theorem deal_key_injective (user user' id id' : jsstring) :
  no_colon id ->
  no_colon id' ->
  deal_key user id = deal_key user' id' ->
  user = user' /\ id = id'.
Proof.
  intros Hid Hid' E. unfold deal_key in E.
  apply app_inv_head in E.
  change (js ":" ++ id) with (58%N :: id) in E.
  change (js ":" ++ id') with (58%N :: id') in E.
  exact (cut_at_last_colon user user' id id' Hid Hid' E).
Qed.

Lemma deal_key_injective_witness :
  js "u:ann@example.com" = js "u:" ++ js "ann@example.com" /\ js "id-1" = js "id-" ++ js "1".
Proof. apply deal_key_injective; reflexivity. Defined.

Lemma deal_key_longer_user (user rest id : jsstring) :
  deal_key (user ++ js ":" ++ rest) id = deal_key user (rest ++ js ":" ++ id).
Proof. unfold deal_key. now rewrite <- !app_assoc. Qed.

Section SharedPrefix.
Context {platform : Platform}.

(** X18. Users whose identifier begins with another's.  The keys of the
    user [u:rest] begin with the prefix of the user [u].  So the listing of
    [u]'s deals contains every deal stored for [u:rest], and [u] is shown
    the deal [id] of [u:rest] at the address [/deal/rest:id]. *)
Theorem deals_of_longer_user_ids_are_visible
    (fuel : nat) (w : world) (sid : jsstring) (user : SessionUser)
    (rest id : jsstring) (d : Deal) :
  DEALS w !! deal_key (sub user ++ js ":" ++ rest) id = Some d ->
  (forall req,
     method req = js "GET" ->
     pathname req = js "/deals" ->
     requireSession req w = (Ok (sid, user), w) ->
     (length (kv_keys (DEALS w) (deal_prefix (sub user))) < 100 * fuel)%nat ->
     exists deals, handle fuel req w = (Ok (HTML (DealsPage deals)), w) /\ d ∈ deals)
  /\ (forall req,
        method req = js "GET" ->
        pathname req = js "/deal/" ++ rest ++ js ":" ++ id ->
        requireSession req w = (Ok (sid, user), w) ->
        no_slash (rest ++ js ":" ++ id) ->
        handle fuel req w = (Ok (HTML (DealPage d)), w)).
Proof.
  intros Hd. split.
  - intros req Hm Hp Hs Hfuel. rewrite (handle_deals fuel req Hm Hp).
    unfold deals_page. unfold bind at 1. rewrite Hs.
    unfold bind. rewrite (listDeals_run fuel (sub user) w Hfuel).
    eexists. split; [reflexivity |].
    apply (deals_of_elem w (sub user) _ d Hd).
    rewrite deal_key_longer_user. apply deal_key_under_prefix.
  - intros req Hm Hp Hs Hns.
    rewrite (handle_deal fuel req _ Hm Hp). unfold deal_page.
    unfold bind at 1. rewrite Hs. rewrite Hp.
    change (js "/deal/" ++ rest ++ js ":" ++ id)
      with (js "/deal" ++ 47%N :: (rest ++ js ":" ++ id)).
    rewrite (split_slash_last _ _ [] Hns).
    unfold bind, DEALS_get. rewrite <- deal_key_longer_user. now rewrite Hd.
Qed.

End SharedPrefix.

(** Ann is shown the deal [3] of the user [ann@example.com:ops], in her
    listing and at [/deal/ops:3]. *)
Lemma deals_of_longer_user_ids_are_visible_witness :
  let theirs := sample_deal (js "u:ann@example.com:ops") 3 in
  (exists deals,
     handle (platform := sample_platform) 1
       (request_of "GET" "/deals" (Some (js "apx=sid-1"))) ops_world
     = (Ok (HTML (DealsPage deals)), ops_world)
     /\ theirs ∈ deals)
  /\ handle (platform := sample_platform) 1
       (request_of "GET" "/deal/ops:3" (Some (js "apx=sid-1"))) ops_world
     = (Ok (HTML (DealPage theirs)), ops_world).
Proof.
  intros theirs.
  destruct (deals_of_longer_user_ids_are_visible (platform := sample_platform) 1 ops_world
              (js "sid-1") ann (js "ops") (js "3") theirs) as [Hlist Hshow].
  - vm_compute. reflexivity.
  - split.
    + apply Hlist; [reflexivity | reflexivity | vm_compute; reflexivity | vm_compute; lia].
    + apply Hshow; [reflexivity | reflexivity | vm_compute; reflexivity | reflexivity].
Defined.

(** ** [POST /assess]: what it writes, and when it stops *)

Lemma llmAssess_world (input : Payload.t) (w : world) :
  snd (llmAssess input w)
  = match llm_request input w with Some rq => called rq w | None => w end.
Proof.
  rewrite llmAssess_run.
  destruct (llm_request input w) as [rq |]; [| reflexivity].
  destruct (llm_reply rq w) as [| code text]; [reflexivity |].
  destruct (JSON_parse text) as [j |]; [| reflexivity].
  destruct (response_text rq j); reflexivity.
Qed.

Lemma llmAssess_stores (input : Payload.t) (w : world) :
  let w1 := snd (llmAssess input w) in
  SESS w1 = SESS w /\ DEALS w1 = DEALS w /\ ASSESS w1 = ASSESS w /\ USAGE w1 = USAGE w
  /\ clock w1 = clock w /\ ticks w1 = ticks w.
Proof.
  cbv zeta. rewrite llmAssess_world.
  destruct (llm_request input w); repeat split.
Qed.

Lemma drop_first_hyphen_app (y rest : jsstring) :
  no_hyphen y -> drop_first_hyphen (y ++ 45%N :: rest) = y ++ rest.
Proof.
  unfold no_hyphen. induction y as [| c y IH]; cbn [app drop_first_hyphen existsb].
  - reflexivity.
  - rewrite (N.eqb_sym 45 c). destruct (N.eqb c 45); [discriminate |]. cbn [orb].
    intros H. now rewrite (IH H).
Qed.

(** The month of an ISO date: the first seven characters without the hyphen. *)
Lemma month_of_iso (y m rest : jsstring) :
  length y = 4%nat -> length m = 2%nat -> no_hyphen y ->
  drop_first_hyphen (take 7 (y ++ 45%N :: m ++ rest)) = y ++ m.
Proof.
  intros Hy Hm Hn.
  destruct y as [| y1 [| y2 [| y3 [| y4 [| ? ?]]]]]; try discriminate Hy.
  destruct m as [| m1 [| m2 [| ? ?]]]; try discriminate Hm.
  cbn [app take]. rewrite take_0.
  exact (drop_first_hyphen_app [y1; y2; y3; y4] [m1; m2] Hn).
Qed.

Section Assessing.
Context {platform : Platform}.

(** X19. What a successful assessment writes.  A [POST /assess] answered by
    the redirect has written one assessment record, the deal it assessed
    and one usage counter, and nothing else: the sessions, every other
    deal, every other record and every other counter are as before.  It
    has sent one request at most, drawn no identifier, and read the clock
    twice. *)
Theorem assess_writes_only_its_own
    (fuel : nat) (req : request) (w w' : world) (resp : response) :
  method req = js "POST" ->
  pathname req = js "/assess" ->
  handle fuel req w = (Ok resp, w') ->
  status resp = 302 ->
  exists sid user f,
    let id := form_string f (js "dealId") [] in
    let ts := clock w (ticks w) in
    let month := drop_first_hyphen (take 7 (toISOString (clock w (S (ticks w))))) in
    requireSession req w = (Ok (sid, user), w)
    /\ formData req = Some f
    /\ SESS w' = SESS w
    /\ (forall k, k <> deal_key (sub user) id -> DEALS w' !! k = DEALS w !! k)
    /\ (forall k, k <> assessment_key (sub user) id (decimal ts) ->
                  ASSESS w' !! k = ASSESS w !! k)
    /\ (forall k, k <> js "use:" ++ month -> USAGE w' !! k = USAGE w !! k)
    /\ (outbound w' = outbound w \/ exists rq, outbound w' = outbound w ++ [rq])
    /\ uuids_used w' = uuids_used w
    /\ ticks w' = S (S (ticks w)).
Proof.
  intros Hm Hp Hrun Hstatus.
  destruct (assess_success fuel req w w' resp Hm Hp Hrun Hstatus)
    as (sid & user & f & deal & result & w1 & Hs & Hf & Hd & Hl & _ & _ & ->).
  exists sid, user, f. cbv zeta.
  pose proof (llmAssess_stores (assess_payload deal f) w) as Hst.
  pose proof (llmAssess_world (assess_payload deal f) w) as Hw.
  rewrite Hl in Hst, Hw. cbn [snd] in Hst, Hw. cbv zeta in Hst.
  destruct Hst as (HS & HD & HA & HU & Hc & Ht).
  split; [exact Hs |]. split; [exact Hf |].
  unfold after_assessment.
  cbn [SESS DEALS ASSESS USAGE outbound uuids_used ticks clock
       with_USAGE with_DEALS with_ASSESS tick].
  rewrite Hc, Ht.
  split; [exact HS |].
  split; [intros k Hk; rewrite lookup_insert_ne by congruence; now rewrite HD |].
  split; [intros k Hk; rewrite lookup_insert_ne by congruence; now rewrite HA |].
  split; [intros k Hk; rewrite lookup_insert_ne by congruence; now rewrite HU |].
  split; [| split; [| reflexivity]].
  - rewrite Hw. destruct (llm_request (assess_payload deal f) w) as [rq |];
      [right; exists rq; reflexivity | now left].
  - rewrite Hw. now destruct (llm_request (assess_payload deal f) w).
Qed.

(** X20. The usage counter.  A [POST /assess] answered by the redirect adds
    one to the counter of the month of the second clock reading, counting
    from 0 when there is none yet: a counter [n] below 2^53 becomes
    [n + 1]; at 2^53 the sum is rounded back and the counter stays.  For a
    date that [toISOString] writes as [yyyy-mm...], that counter is
    [use:yyyymm]. *)
Theorem assess_counts_usage
    (fuel : nat) (req : request) (w w' : world) (resp : response) :
  method req = js "POST" ->
  pathname req = js "/assess" ->
  handle fuel req w = (Ok resp, w') ->
  status resp = 302 ->
  let today := toISOString (clock w (S (ticks w))) in
  let k := js "use:" ++ drop_first_hyphen (take 7 today) in
  (USAGE w !! k = None -> USAGE w' !! k = Some (of_Z 1))
  /\ (forall n : Z, 0 <= n < 2 ^ 53 ->
        USAGE w !! k = Some (of_Z n) -> USAGE w' !! k = Some (of_Z (n + 1)))
  /\ (USAGE w !! k = Some (of_Z (2 ^ 53)) -> USAGE w' !! k = Some (of_Z (2 ^ 53)))
  /\ (forall c, USAGE w !! k = Some c -> USAGE w' !! k = Some (num_add c (of_Z 1)))
  /\ (forall y m rest,
        today = y ++ js "-" ++ m ++ rest ->
        length y = 4%nat -> length m = 2%nat -> no_hyphen y ->
        k = js "use:" ++ y ++ m).
Proof.
  intros Hm Hp Hrun Hstatus today k.
  destruct (assess_success fuel req w w' resp Hm Hp Hrun Hstatus)
    as (sid & user & f & deal & result & w1 & Hs & Hf & Hd & Hl & _ & _ & ->).
  pose proof (llmAssess_stores (assess_payload deal f) w) as Hst.
  rewrite Hl in Hst. cbn [snd] in Hst. cbv zeta in Hst.
  destruct Hst as (_ & _ & _ & HU & Hc & Ht).
  assert (Hk : forall c0,
             match USAGE w !! k with Some n => n | None => of_Z 0 end = c0 ->
             USAGE (after_assessment user (form_string f (js "dealId") []) deal
                      (assess_payload deal f) result w1) !! k
             = Some (num_add c0 (of_Z 1))).
  { intros c0 <-. unfold after_assessment.
    cbn [SESS DEALS ASSESS USAGE ticks clock with_USAGE with_DEALS with_ASSESS tick].
    rewrite Hc, Ht, HU. fold today. fold k. apply lookup_insert_eq. }
  split; [| split; [| split; [| split]]].
  - intros E. rewrite (Hk (of_Z 0)) by now rewrite E. now rewrite num_add_of_Z.
  - intros n Hn E. rewrite <- num_add_of_Z by lia. apply Hk. now rewrite E.
  - intros E. rewrite (Hk (of_Z (2 ^ 53))) by now rewrite E.
    assert (S : num_add (of_Z (2 ^ 53)) (of_Z 1) = of_Z (2 ^ 53)) by (vm_compute; reflexivity).
    now rewrite S.
  - intros c E. apply Hk. now rewrite E.
  - intros y m rest E Hy Hlm Hn. unfold k. rewrite E.
    change (js "-" ++ m ++ rest) with (45%N :: m ++ rest).
    now rewrite (month_of_iso y m rest Hy Hlm Hn).
Qed.

(** X21. A result that is [null].  When the provider's text is the JSON
    [null], [safeJSON] returns [null] and [POST /assess] fails on reading
    its tier, after the assessment record has been stored: the record is
    there, with [createdAt] and [payload] only; the deal summary and the
    usage counter are untouched; the client is answered the runtime's
    error. *)
Theorem assess_null_result
    (fuel : nat) (req : request) (w w1 : world) (sid : jsstring) (user : SessionUser)
    (f : list (jsstring * form_value)) (deal : Deal) :
  method req = js "POST" ->
  pathname req = js "/assess" ->
  requireSession req w = (Ok (sid, user), w) ->
  formData req = Some f ->
  let id := form_string f (js "dealId") [] in
  let payload := assess_payload deal f in
  let ts := clock w (ticks w) in
  DEALS w !! deal_key (sub user) id = Some deal ->
  llmAssess payload w = (Ok VNull, w1) ->
  exists w2,
    handle fuel req w = (Throw TypeError, w2)
    /\ on_fetch fuel req w = (Some RuntimeError, w2)
    /\ ASSESS w2 !! assessment_key (sub user) id (decimal ts)
       = Some (VObj [ (js "createdAt", VNum (of_Z ts));
                      (js "payload", to_json (payload_value payload)) ])
    /\ DEALS w2 = DEALS w
    /\ USAGE w2 = USAGE w.
Proof.
  intros Hm Hp Hs Hf id payload ts Hd Hl.
  pose proof (llmAssess_stores payload w) as Hst.
  rewrite Hl in Hst. cbn [snd] in Hst. cbv zeta in Hst.
  destruct Hst as (_ & HD & _ & HU & Hc & Ht).
  assert (Hh : handle fuel req w
               = (Throw TypeError,
                  with_ASSESS (insert (assessment_key (sub user) id (decimal ts))
                                 (assessment_record VNull ts payload)) (tick w1))).
  { rewrite (handle_assess fuel req Hm Hp), (assess_runs_llmAssess req w sid user f deal Hs Hf Hd).
    unfold bind at 1. fold payload id. rewrite Hl.
    unfold record_assessment, bind, Date_now, ASSESS_put, lift, get_member.
    cbn [nullish]. rewrite Hc, Ht. reflexivity. }
  eexists. split; [exact Hh |]. split; [unfold on_fetch; now rewrite Hh |].
  cbn [ASSESS DEALS USAGE with_ASSESS tick].
  split; [| split; [exact HD | exact HU]].
  rewrite lookup_insert_eq. reflexivity.
Qed.

(** X22. Before the assessment.  A signed-in [POST /assess] whose form
    cannot be read fails with a TypeError, and one that names no deal of
    the user is answered 404 "Deal missing"; in both cases the provider is
    not called and nothing is written. *)
Theorem assess_stops_before_the_provider
    (fuel : nat) (req : request) (w : world) (sid : jsstring) (user : SessionUser) :
  method req = js "POST" ->
  pathname req = js "/assess" ->
  requireSession req w = (Ok (sid, user), w) ->
  (formData req = None -> handle fuel req w = (Throw TypeError, w))
  /\ (forall f,
        formData req = Some f ->
        DEALS w !! deal_key (sub user) (form_string f (js "dealId") []) = None ->
        handle fuel req w = (Ok (TEXT (js "Deal missing") 404), w)).
Proof.
  intros Hm Hp Hs. rewrite (handle_assess fuel req Hm Hp). split.
  - intros Hf. unfold assess. unfold bind at 1. rewrite Hs.
    unfold bind at 1. unfold req_formData. rewrite Hf. reflexivity.
  - intros f Hf Hd. unfold assess. unfold bind at 1. rewrite Hs.
    unfold bind at 1. unfold req_formData. rewrite Hf. unfold ret at 1.
    unfold bind at 1. unfold DEALS_get. now rewrite Hd.
Qed.

End Assessing.

(** Ann's submission of all fives in her world, where no provider is
    configured: her session is as before, the clock was read twice. *)
Lemma assess_writes_only_its_own_witness :
  let out := handle (platform := sample_platform) 0 (ann_submits all_fives) ann_world in
  SESS (snd out) = SESS ann_world
  /\ outbound (snd out) = []
  /\ ticks (snd out) = 2%nat.
Proof.
  intros out.
  destruct (assess_writes_only_its_own (platform := sample_platform) 0
              (ann_submits all_fives) ann_world (snd out)
              (redirect (js "/assessment/7/1700000000000")) eq_refl eq_refl)
    as (sid & user & f & _ & _ & HS & _ & _ & _ & _ & _ & Ht).
  - vm_compute. reflexivity.
  - reflexivity.
  - split; [exact HS |]. split; [vm_compute; reflexivity | exact Ht].
Defined.

(** The same submission, on 14 November 2023: the first of the month. *)
Lemma assess_counts_usage_witness :
  let out := handle (platform := sample_platform) 0 (ann_submits all_fives) ann_world in
  USAGE (snd out) !! js "use:202311" = Some (of_Z 1).
Proof.
  intros out.
  destruct (assess_counts_usage (platform := sample_platform) 0
              (ann_submits all_fives) ann_world (snd out)
              (redirect (js "/assessment/7/1700000000000")) eq_refl eq_refl)
    as (Hfirst & _).
  - vm_compute. reflexivity.
  - reflexivity.
  - apply Hfirst. reflexivity.
Defined.

(** The provider answers [null]: the record is stored, Ann's deal is not
    updated, and she is answered the runtime's error. *)
Lemma assess_null_result_witness :
  let w := ann_world_with [(js "ANTHROPIC_API_KEY", js "sk-test")]
             (Reply 200 (jsq "{'content':[{'text':'null'}]}")) in
  let deal := sample_deal (js "u:ann@example.com") 7 in
  exists w2,
    on_fetch (platform := sample_platform) 0 (ann_submits all_fives) w
    = (Some RuntimeError, w2)
    /\ ASSESS w2 !! js "assessment:u:ann@example.com:7:1700000000000" <> None
    /\ DEALS w2 !! deal_key (js "u:ann@example.com") (js "7") = Some deal.
Proof.
  intros w deal.
  destruct (assess_null_result (platform := sample_platform) 0 (ann_submits all_fives) w
              (snd (llmAssess (assess_payload (platform := sample_platform) deal
                                 ((js "dealId", FString (js "7")) :: all_fives)) w))
              (js "sid-1") ann ((js "dealId", FString (js "7")) :: all_fives) deal
              eq_refl eq_refl)
    as (w2 & _ & Hanswer & Hrecord & Hdeals & _).
  - vm_compute. reflexivity.
  - reflexivity.
  - vm_compute. reflexivity.
  - vm_compute. reflexivity.
  - exists w2. split; [exact Hanswer |]. split.
    + intros E. discriminate (eq_trans (eq_sym E) Hrecord).
    + rewrite Hdeals. vm_compute. reflexivity.
Defined.

(** Ann submits ratings for the deal [8], which she does not have. *)
Lemma assess_stops_before_the_provider_witness :
  let req := submission "/assess" (Some (js "apx=sid-1"))
               ((js "dealId", FString (js "8")) :: all_fives) in
  handle (platform := sample_platform) 0 req ann_world
  = (Ok (TEXT (js "Deal missing") 404), ann_world).
Proof.
  intros req.
  destruct (assess_stops_before_the_provider (platform := sample_platform) 0 req ann_world
              (js "sid-1") ann eq_refl eq_refl) as [_ H].
  - vm_compute. reflexivity.
  - apply (H ((js "dealId", FString (js "8")) :: all_fives)); [reflexivity |].
    vm_compute. reflexivity.
Defined.

(** ** The address of an assessment *)

Lemma split_slash_cons_piece (a r cur : jsstring) :
  no_slash a -> split_slash (a ++ 47%N :: r) cur = (rev cur ++ a) :: split_slash r [].
Proof.
  unfold no_slash. revert cur. induction a as [| c a IH]; intros cur;
    cbn [app existsb split_slash].
  - rewrite N.eqb_refl. now rewrite app_nil_r.
  - rewrite (N.eqb_sym 47 c). destruct (N.eqb c 47); [discriminate |]. cbn [orb].
    intros H. rewrite (IH (c :: cur) H). cbn [rev]. now rewrite <- app_assoc.
Qed.

Lemma split_assessment_path (id ts : jsstring) :
  no_slash id -> no_slash ts ->
  split_slash (js "/assessment/" ++ id ++ js "/" ++ ts) [] = [[]; js "assessment"; id; ts].
Proof.
  intros Hid Hts.
  change (js "/assessment/" ++ id ++ js "/" ++ ts)
    with ([] ++ 47%N :: (js "assessment" ++ 47%N :: (id ++ 47%N :: ts))).
  rewrite (split_slash_cons_piece [] _ [] eq_refl).
  rewrite (split_slash_cons_piece (js "assessment") _ [] eq_refl).
  rewrite (split_slash_cons_piece id _ [] Hid).
  rewrite (split_slash_piece ts [] Hts). reflexivity.
Qed.

Lemma digits_no_slash (d : Decimal.uint) : no_slash (js (NilEmpty.string_of_uint d)).
Proof. unfold no_slash. induction d; cbn [NilEmpty.string_of_uint js existsb]; auto. Qed.

Lemma decimal_no_slash (z : Z) : no_slash (decimal z).
Proof.
  unfold decimal. destruct (Z.to_int z) as [d | d]; cbn [NilZero.string_of_int].
  - destruct d; try apply digits_no_slash. reflexivity.
  - unfold no_slash. cbn [js existsb]. cbn [orb N.eqb Ascii.N_of_ascii].
    change (existsb (N.eqb 47) (js (NilZero.string_of_uint d)) = false).
    destruct d; try apply digits_no_slash. reflexivity.
Qed.

Section Viewing.
Context {platform : Platform}.

(** X23. From the assessment to its record.  The address a successful
    [POST /assess] redirects to, asked for with the same cookie, serves the
    record that submission stored, as JSON, provided the deal identifier
    holds no slash. *)
Theorem assessment_is_served_at_its_address
    (fuel : nat) (req : request) (w w' : world) (resp : response) :
  method req = js "POST" ->
  pathname req = js "/assess" ->
  handle fuel req w = (Ok resp, w') ->
  status resp = 302 ->
  exists sid user f address record,
    let id := form_string f (js "dealId") [] in
    requireSession req w = (Ok (sid, user), w)
    /\ formData req = Some f
    /\ location resp = Some address
    /\ ASSESS w' !! assessment_key (sub user) id (decimal (clock w (ticks w))) = Some record
    /\ (no_slash id ->
        forall req',
          method req' = js "GET" ->
          pathname req' = address ->
          cookieGet req' (js "apx") = Ok sid ->
          handle fuel req' w' = (Ok (JSON_response record), w')).
Proof.
  intros Hm Hp Hrun Hstatus.
  destruct (assess_success fuel req w w' resp Hm Hp Hrun Hstatus)
    as (sid & user & f & deal & result & w1 & Hs & Hf & Hd & Hl & _ & -> & ->).
  pose proof (llmAssess_stores (assess_payload deal f) w) as Hst.
  rewrite Hl in Hst. cbn [snd] in Hst. cbv zeta in Hst.
  destruct Hst as (HS & _ & _ & _ & Hc & Ht).
  destruct (requireSession_inv req w w sid user Hs) as (_ & Hne & _ & Hsess).
  set (id := form_string f (js "dealId") []).
  set (ts := clock w1 (ticks w1)).
  set (w' := after_assessment user id deal (assess_payload deal f) result w1).
  assert (Hrec : ASSESS w' !! assessment_key (sub user) id (decimal ts)
                 = Some (assessment_record result ts (assess_payload deal f))).
  { unfold w', after_assessment. cbn [ASSESS with_USAGE with_DEALS with_ASSESS tick].
    apply lookup_insert_eq. }
  exists sid, user, f, (js "/assessment/" ++ id ++ js "/" ++ decimal ts),
    (assessment_record result ts (assess_payload deal f)).
  cbv zeta. split; [exact Hs |]. split; [exact Hf |]. split; [reflexivity |].
  fold id. assert (Ets : clock w (ticks w) = ts) by (unfold ts; now rewrite Hc, Ht).
  rewrite Ets. split; [exact Hrec |].
  intros Hid req' Hm' Hp' Hc'.
  rewrite (handle_assessment fuel req' (id ++ js "/" ++ decimal ts) Hm' Hp').
  unfold assessment_page. unfold bind at 1.
  rewrite (requireSession_known req' w' sid user Hc' Hne).
  - rewrite Hp', (split_assessment_path id (decimal ts) Hid (decimal_no_slash ts)).
    cbn [piece nth_error]. unfold bind, ASSESS_get. now rewrite Hrec.
  - unfold w', after_assessment. cbn [SESS with_USAGE with_DEALS with_ASSESS tick].
    now rewrite HS.
Qed.

Lemma llmAssess_result_defined (input : Payload.t) (w : world) (v : jsval) :
  fst (llmAssess input w) = Ok v -> nullish v = true -> v = VNull.
Proof.
  intros H Hn. destruct v; try discriminate Hn; [exfalso | reflexivity].
  rewrite llmAssess_run in H.
  assert (Hs : forall s, Ok (safeJSON s) <> @Ok jsval VUndefined).
  { intros s [= E]. exact (safeJSON_defined s E). }
  destruct (llm_request input w) as [rq |]; [| discriminate H].
  destruct (llm_reply rq w) as [| code text]; [discriminate H |].
  destruct (JSON_parse text) as [j |]; [| discriminate H].
  destruct (response_text rq j) as [t | e |]; try discriminate H.
  exact (Hs _ H).
Qed.

(** X24. Whatever the provider does.  Once a [POST /assess] has passed its
    guards (session, form, deal), no behaviour of the provider makes it
    fail, but one: the request ends in the redirect to the new assessment,
    unless the result is [null], the one case in which it fails, with a
    TypeError. *)
Theorem assess_fails_on_null_only
    (fuel : nat) (req : request) (w : world) (sid : jsstring) (user : SessionUser)
    (f : list (jsstring * form_value)) (deal : Deal) :
  method req = js "POST" ->
  pathname req = js "/assess" ->
  requireSession req w = (Ok (sid, user), w) ->
  formData req = Some f ->
  let id := form_string f (js "dealId") [] in
  let payload := assess_payload deal f in
  DEALS w !! deal_key (sub user) id = Some deal ->
  exists result w1,
    llmAssess payload w = (Ok result, w1)
    /\ ((result <> VNull
         /\ handle fuel req w
            = (Ok (redirect (js "/assessment/" ++ id ++ js "/" ++ decimal (clock w (ticks w)))),
               after_assessment user id deal payload result w1))
        \/ (result = VNull /\ fst (handle fuel req w) = Throw TypeError)).
Proof.
  intros Hm Hp Hs Hf id payload Hd.
  destruct (llmAssess_returns payload w) as [result Hr].
  destruct (llmAssess payload w) as [o w1] eqn:Hl. cbn [fst] in Hr. subst o.
  exists result, w1. split; [reflexivity |].
  pose proof (llmAssess_stores payload w) as Hst.
  rewrite Hl in Hst. cbn [snd] in Hst. cbv zeta in Hst.
  destruct Hst as (_ & _ & _ & _ & Hc & Ht).
  assert (Hh : handle fuel req w = record_assessment user id deal payload result w1).
  { rewrite (handle_assess fuel req Hm Hp),
      (assess_runs_llmAssess req w sid user f deal Hs Hf Hd).
    unfold bind. fold payload id. now rewrite Hl. }
  rewrite Hh. destruct (nullish result) eqn:Hn.
  - right. assert (E : result = VNull).
    { apply (llmAssess_result_defined payload w); [now rewrite Hl | exact Hn]. }
    split; [exact E |]. subst result. reflexivity.
  - left. split; [intros ->; discriminate Hn |].
    rewrite (record_assessment_run user id deal payload result w1 Hn).
    now rewrite Hc, Ht.
Qed.

(** X25. What is not there.  For a signed-in user, [GET /deal/...] whose
    last piece names no deal of the user, and [GET /assessment/...] whose
    third and fourth pieces name no record of the user, are answered 404
    "Not found"; a path with fewer pieces is looked up under the word
    "undefined". *)
Theorem missing_documents_not_found
    (fuel : nat) (req : request) (w : world) (sid : jsstring) (user : SessionUser) :
  method req = js "GET" ->
  requireSession req w = (Ok (sid, user), w) ->
  (forall rest,
     pathname req = js "/deal/" ++ rest ->
     DEALS w !! deal_key (sub user) (List.last (split_slash (pathname req) []) []) = None ->
     handle fuel req w = (Ok (TEXT (js "Not found") 404), w))
  /\ (forall rest,
        pathname req = js "/assessment/" ++ rest ->
        let parts := split_slash (pathname req) [] in
        ASSESS w !! assessment_key (sub user) (piece parts 2) (piece parts 3) = None ->
        handle fuel req w = (Ok (TEXT (js "Not found") 404), w))
  /\ (forall id,
        no_slash id ->
        pathname req = js "/assessment/" ++ id ->
        ASSESS w !! assessment_key (sub user) id (js "undefined") = None ->
        handle fuel req w = (Ok (TEXT (js "Not found") 404), w)).
Proof.
  intros Hm Hs.
  assert (Hdeal : forall rest,
             pathname req = js "/deal/" ++ rest ->
             DEALS w !! deal_key (sub user) (List.last (split_slash (pathname req) []) [])
             = None ->
             handle fuel req w = (Ok (TEXT (js "Not found") 404), w)).
  { intros rest Hp Hd. rewrite (handle_deal fuel req rest Hm Hp).
    unfold deal_page. unfold bind at 1. rewrite Hs.
    unfold bind, DEALS_get. now rewrite Hd. }
  assert (Hrec : forall rest,
             pathname req = js "/assessment/" ++ rest ->
             ASSESS w !! assessment_key (sub user) (piece (split_slash (pathname req) []) 2)
                           (piece (split_slash (pathname req) []) 3) = None ->
             handle fuel req w = (Ok (TEXT (js "Not found") 404), w)).
  { intros rest Hp Ha. rewrite (handle_assessment fuel req rest Hm Hp).
    unfold assessment_page. unfold bind at 1. rewrite Hs.
    unfold bind, ASSESS_get. now rewrite Ha. }
  split; [exact Hdeal |]. split; [exact Hrec |].
  intros id Hid Hp Ha. apply (Hrec id Hp). rewrite Hp.
  change (js "/assessment/" ++ id) with ([] ++ 47%N :: (js "assessment" ++ 47%N :: id)).
  rewrite (split_slash_cons_piece [] _ [] eq_refl).
  rewrite (split_slash_cons_piece (js "assessment") _ [] eq_refl).
  rewrite (split_slash_piece id [] Hid). exact Ha.
Qed.

End Viewing.

(** Ann follows the redirect of her assessment: she is served the record,
    with the tier the scorer gave. *)
Lemma assessment_is_served_at_its_address_witness :
  let out := handle (platform := sample_platform) 0 (ann_submits all_fives) ann_world in
  exists record,
    handle (platform := sample_platform) 0
      (request_of "GET" "/assessment/7/1700000000000" (Some (js "apx=sid-1"))) (snd out)
    = (Ok (JSON_response record), snd out)
    /\ member record (js "tier") = VStr (js "Strong").
Proof.
  intros out.
  destruct (assessment_is_served_at_its_address (platform := sample_platform) 0
              (ann_submits all_fives) ann_world (snd out)
              (redirect (js "/assessment/7/1700000000000")) eq_refl eq_refl)
    as (sid & user & f & address & record & Hs & Hf & Hloc & Hrec & Hserved).
  - vm_compute. reflexivity.
  - reflexivity.
  - vm_compute in Hs. injection Hs as <- <-.
    vm_compute in Hf. injection Hf as <-.
    injection Hloc as <-.
    exists record. split.
    + apply Hserved; reflexivity.
    + vm_compute in Hrec. injection Hrec as <-. reflexivity.
Defined.

(** Ann's submission with no provider configured: the heuristic result is
    not [null], and she is redirected. *)
Lemma assess_fails_on_null_only_witness :
  fst (handle (platform := sample_platform) 0 (ann_submits all_fives) ann_world)
  = Ok (redirect (js "/assessment/7/1700000000000")).
Proof.
  destruct (assess_fails_on_null_only (platform := sample_platform) 0
              (ann_submits all_fives) ann_world (js "sid-1") ann
              ((js "dealId", FString (js "7")) :: all_fives)
              (sample_deal (js "u:ann@example.com") 7) eq_refl eq_refl)
    as (result & w1 & Hl & [[_ H] | [E _]]).
  - vm_compute. reflexivity.
  - reflexivity.
  - vm_compute. reflexivity.
  - rewrite H. reflexivity.
  - exfalso. subst result. vm_compute in Hl. discriminate Hl.
Defined.

(** Ann asks for a deal she does not have, and for an assessment without
    its timestamp. *)
Lemma missing_documents_not_found_witness :
  handle (platform := sample_platform) 0
    (request_of "GET" "/deal/8" (Some (js "apx=sid-1"))) ann_world
  = (Ok (TEXT (js "Not found") 404), ann_world)
  /\ handle (platform := sample_platform) 0
       (request_of "GET" "/assessment/7" (Some (js "apx=sid-1"))) ann_world
     = (Ok (TEXT (js "Not found") 404), ann_world).
Proof.
  split.
  - destruct (missing_documents_not_found (platform := sample_platform) 0
                (request_of "GET" "/deal/8" (Some (js "apx=sid-1"))) ann_world
                (js "sid-1") ann eq_refl) as (H & _ & _).
    + vm_compute. reflexivity.
    + apply (H (js "8")); [reflexivity | vm_compute; reflexivity].
  - destruct (missing_documents_not_found (platform := sample_platform) 0
                (request_of "GET" "/assessment/7" (Some (js "apx=sid-1"))) ann_world
                (js "sid-1") ann eq_refl) as (_ & _ & H).
    + vm_compute. reflexivity.
    + apply (H (js "7")); [reflexivity | reflexivity | vm_compute; reflexivity].
Defined.

(** ** Reading a cookie *)

Lemma cookie_run_spec (s : jsstring) :
  no_semicolon (cookie_run s) /\ exists rest, s = cookie_run s ++ rest /\ ends_value rest.
Proof.
  unfold no_semicolon, ends_value. induction s as [| c s (Hn & rest & E & Hr)]; cbn [cookie_run].
  - split; [reflexivity |]. exists []. split; [reflexivity | now left].
  - destruct (N.eqb_spec c 59) as [-> | Hc].
    + split; [reflexivity |]. exists (59%N :: s). split; [reflexivity | right; now exists s].
    + split.
      * cbn [existsb]. destruct (N.eqb_spec 59 c) as [<- | _]; [congruence | exact Hn].
      * exists rest. split; [cbn [app]; now rewrite <- E | exact Hr].
Qed.

Lemma cookie_run_app (v rest : jsstring) :
  no_semicolon v -> ends_value rest -> cookie_run (v ++ rest) = v.
Proof.
  unfold no_semicolon, ends_value. intros Hv Hr.
  induction v as [| c v IH]; cbn [app].
  - destruct Hr as [-> | [q ->]]; reflexivity.
  - cbn [existsb] in Hv. cbn [cookie_run]. rewrite (N.eqb_sym 59 c) in Hv.
    destruct (N.eqb c 59); [discriminate Hv |]. cbn [orb] in Hv. now rewrite (IH Hv).
Qed.

Lemma cookie_after_spec (prefix s v : jsstring) :
  cookie_after prefix s = Some v ->
  v <> [] /\ no_semicolon v /\ exists rest, s = prefix ++ v ++ rest /\ ends_value rest.
Proof.
  unfold cookie_after. destruct (strip_prefix prefix s) as [r |] eqn:E; [| discriminate].
  apply strip_prefix_Some in E. destruct (cookie_run_spec r) as (Hn & rest & Er & Hr).
  destruct (cookie_run r) as [| c v'] eqn:Ec; [discriminate |].
  intros [= <-]. split; [discriminate |]. split; [exact Hn |].
  exists rest. split; [| exact Hr]. now rewrite E, Er.
Qed.

Lemma cookie_scan_spec (prefix s v : jsstring) :
  cookie_scan prefix s = Some v ->
  v <> [] /\ no_semicolon v
  /\ exists pre rest, s = pre ++ prefix ++ v ++ rest /\ ends_value rest.
Proof.
  induction s as [| c s IH].
  - cbn [cookie_scan]. destruct (cookie_after prefix []) as [v' |] eqn:E; [| discriminate].
    intros [= ->]. destruct (cookie_after_spec _ _ _ E) as (H1 & H2 & rest & H3 & H4).
    split; [exact H1 |]. split; [exact H2 |]. now exists [], rest.
  - cbn [cookie_scan]. destruct (cookie_after prefix (c :: s)) as [v' |] eqn:E.
    + intros [= ->]. destruct (cookie_after_spec _ _ _ E) as (H1 & H2 & rest & H3 & H4).
      split; [exact H1 |]. split; [exact H2 |]. now exists [], rest.
    + intros H. destruct (IH H) as (H1 & H2 & pre & rest & H3 & H4).
      split; [exact H1 |]. split; [exact H2 |].
      exists (c :: pre), rest. split; [cbn [app]; now rewrite H3 | exact H4].
Qed.

(** X26. The cookie that is read.  What the pattern of [cookieGet] finds
    for a name is a value of the header that stands right after the name
    and [=], at the very start of the header or after a semicolon and a
    space; it is not empty, holds no semicolon, and runs up to the next
    semicolon or the end.  A cookie at the start of the header is the one
    found. *)
Theorem cookie_match_finds_the_named_cookie (name : jsstring) :
  (forall c v,
     cookie_match name c = Some v ->
     v <> [] /\ no_semicolon v
     /\ exists pre rest,
          c = pre ++ name ++ js "=" ++ v ++ rest
          /\ (pre = [] \/ exists p, pre = p ++ js "; ")
          /\ ends_value rest)
  /\ (forall v rest,
        v <> [] -> no_semicolon v -> ends_value rest ->
        cookie_match name (name ++ js "=" ++ v ++ rest) = Some v).
Proof.
  split.
  - intros c v. unfold cookie_match.
    destruct (cookie_after (name ++ js "=") c) as [v' |] eqn:E.
    + intros [= ->]. destruct (cookie_after_spec _ _ _ E) as (H1 & H2 & rest & H3 & H4).
      split; [exact H1 |]. split; [exact H2 |].
      exists [], rest. split; [now rewrite H3, <- app_assoc |]. split; [now left | exact H4].
    + intros H. destruct (cookie_scan_spec _ _ _ H) as (H1 & H2 & pre & rest & H3 & H4).
      split; [exact H1 |]. split; [exact H2 |].
      exists (pre ++ js "; "), rest. split; [| split; [right; now exists pre | exact H4]].
      rewrite H3, <- !app_assoc. reflexivity.
  - intros v rest Hne Hv Hr. unfold cookie_match, cookie_after.
    rewrite (app_assoc name (js "=")), strip_prefix_app, (cookie_run_app v rest Hv Hr).
    destruct v; [congruence | reflexivity].
Qed.

(** The session cookie after another one, and before another one. *)
Lemma cookie_match_finds_the_named_cookie_witness :
  (exists pre rest,
     js "theme=dark; apx=sid-1" = pre ++ js "apx" ++ js "=" ++ js "sid-1" ++ rest
     /\ (pre = [] \/ exists p, pre = p ++ js "; "))
  /\ cookie_match (js "apx") (js "apx" ++ js "=" ++ js "sid-1" ++ js "; theme=dark")
     = Some (js "sid-1").
Proof.
  destruct (cookie_match_finds_the_named_cookie (js "apx")) as [Hsound Hhead]. split.
  - destruct (Hsound (js "theme=dark; apx=sid-1") (js "sid-1") eq_refl)
      as (_ & _ & pre & rest & E & Hpre & _).
    exists pre, rest. split; [exact E | exact Hpre].
  - apply Hhead; [discriminate | reflexivity |]. right. now exists (js " theme=dark").
Defined.

(** ** The keys of the assessment store *)

Lemma js_inj (s t : string) : js s = js t -> s = t.
Proof.
  revert t. induction s as [| a s IH]; intros [| b t]; cbn [js]; try discriminate.
  - reflexivity.
  - intros [= Hab Hst]. f_equal; [| now apply IH].
    apply (f_equal Ascii.ascii_of_N) in Hab. now rewrite !Ascii.ascii_N_embedding in Hab.
Qed.

Lemma to_int_normal (z : Z) :
  Z.to_int z <> Decimal.Pos Decimal.Nil /\ Z.to_int z <> Decimal.Neg Decimal.Nil.
Proof.
  assert (E : Z.to_int z = Decimal.norm (Z.to_int z))
    by now rewrite <- DecimalZ.to_of, DecimalZ.of_to.
  rewrite E. destruct (Z.to_int z) as [d | d]; cbn [Decimal.norm]; unfold Decimal.unorm;
    destruct (Decimal.nzhead d); split; discriminate.
Qed.

(** Different integers are written differently. *)
Lemma decimal_inj (a b : Z) : decimal a = decimal b -> a = b.
Proof.
  unfold decimal. intros E. apply js_inj in E. apply DecimalZ.to_int_inj.
  destruct (to_int_normal a) as [Ha1 Ha2]. destruct (to_int_normal b) as [Hb1 Hb2].
  apply (f_equal NilZero.int_of_string) in E.
  rewrite !NilZero.isi in E by assumption. now injection E.
Qed.

Lemma digits_no_colon (d : Decimal.uint) : no_colon (js (NilEmpty.string_of_uint d)).
Proof. unfold no_colon. induction d; cbn [NilEmpty.string_of_uint js existsb]; auto. Qed.

Lemma decimal_no_colon (z : Z) : no_colon (decimal z).
Proof.
  unfold decimal. destruct (Z.to_int z) as [d | d]; cbn [NilZero.string_of_int].
  - destruct d; try apply digits_no_colon. reflexivity.
  - unfold no_colon. cbn [js existsb]. cbn [orb N.eqb Ascii.N_of_ascii].
    change (existsb (N.eqb 58) (js (NilZero.string_of_uint d)) = false).
    destruct d; try apply digits_no_colon. reflexivity.
Qed.

(** Records of different instants are kept under different keys. *)
Lemma assessment_key_instant (user user' id id' : jsstring) (ts ts' : Z) :
  assessment_key user id (decimal ts) = assessment_key user' id' (decimal ts') -> ts = ts'.
Proof.
  unfold assessment_key. intros E. apply app_inv_head in E.
  assert (R : forall u i t : jsstring,
             u ++ js ":" ++ i ++ js ":" ++ t = (u ++ js ":" ++ i) ++ 58%N :: t)
    by (intros; now rewrite <- !app_assoc).
  rewrite !R in E.
  apply cut_at_last_colon in E; [| apply decimal_no_colon | apply decimal_no_colon].
  apply decimal_inj. apply E.
Qed.

Section History.
Context {platform : Platform}.

(** X27. The records accumulate.  A successful [POST /assess] keeps every
    assessment record of another instant, whatever its user and its deal:
    the key it writes ends in its own clock reading, and different
    readings are written differently. *)
Theorem assessment_records_accumulate
    (fuel : nat) (req : request) (w w' : world) (resp : response)
    (user0 id0 : jsstring) (ts0 : Z) (record0 : jsval) :
  method req = js "POST" ->
  pathname req = js "/assess" ->
  handle fuel req w = (Ok resp, w') ->
  status resp = 302 ->
  ASSESS w !! assessment_key user0 id0 (decimal ts0) = Some record0 ->
  ts0 <> clock w (ticks w) ->
  ASSESS w' !! assessment_key user0 id0 (decimal ts0) = Some record0.
Proof.
  intros Hm Hp Hrun Hstatus H0 Hts.
  destruct (assess_success fuel req w w' resp Hm Hp Hrun Hstatus)
    as (sid & user & f & deal & result & w1 & Hs & Hf & Hd & Hl & _ & _ & ->).
  pose proof (llmAssess_stores (assess_payload deal f) w) as Hst.
  rewrite Hl in Hst. cbn [snd] in Hst. cbv zeta in Hst.
  destruct Hst as (_ & _ & HA & _ & Hc & Ht).
  unfold after_assessment. cbn [ASSESS with_USAGE with_DEALS with_ASSESS tick].
  rewrite lookup_insert_ne; [now rewrite HA |].
  rewrite Hc, Ht. intros E. apply assessment_key_instant in E. congruence.
Qed.

(** X28. No cookie needed.  [POST /dev-login] and [GET /health] never look
    at the [Cookie] header: whatever it is, be it one that does not decode,
    the request is handled as without it; and the health check answers
    [{"ok":true}] and writes nothing. *)
Theorem sign_in_and_health_ignore_the_cookie
    (fuel : nat) (req : request) (w : world) (c : option jsstring) :
  (method req = js "POST" /\ pathname req = js "/dev-login")
  \/ (method req = js "GET" /\ pathname req = js "/health") ->
  handle fuel (with_cookie c req) w = handle fuel req w
  /\ (method req = js "GET" ->
      handle fuel req w = (Ok (JSON_response (VObj [(js "ok", VBool true)])), w)).
Proof.
  intros [[Hm Hp] | [Hm Hp]].
  - split; [| intros E; rewrite Hm in E; discriminate E].
    rewrite (handle_dev_login fuel req Hm Hp).
    rewrite (handle_dev_login fuel (with_cookie c req) Hm Hp). reflexivity.
  - assert (H : forall r, method r = js "GET" -> pathname r = js "/health" ->
                          handle fuel r w
                          = (Ok (JSON_response (VObj [(js "ok", VBool true)])), w)).
    { intros r Hmr Hpr. unfold handle. rewrite Hmr, Hpr. reflexivity. }
    split; [| intros _; now apply H].
    rewrite (H req Hm Hp). now apply H.
Qed.

End History.

(** Ann assesses her deal twice, a second apart: the first record is still
    there after the second. *)
Lemma assessment_records_accumulate_witness :
  let later := with_ASSESS (insert (js "assessment:u:ann@example.com:7:1699999999000")
                              (VObj [(js "tier", VStr (js "Weak"))])) ann_world in
  let out := handle (platform := sample_platform) 0 (ann_submits all_fives) later in
  ASSESS (snd out) !! assessment_key (js "u:ann@example.com") (js "7") (decimal 1699999999000)
  = Some (VObj [(js "tier", VStr (js "Weak"))]).
Proof.
  intros later out.
  apply (assessment_records_accumulate (platform := sample_platform) 0
           (ann_submits all_fives) later (snd out)
           (redirect (js "/assessment/7/1700000000000"))).
  - reflexivity.
  - reflexivity.
  - vm_compute. reflexivity.
  - reflexivity.
  - vm_compute. reflexivity.
  - vm_compute. discriminate.
Defined.

(** The health check with a cookie that does not decode. *)
Lemma sign_in_and_health_ignore_the_cookie_witness :
  handle (platform := sample_platform) 0
    (with_cookie (Some (js "apx=%E0%A4%A")) (request_of "GET" "/health" None)) ann_world
  = (Ok (JSON_response (VObj [(js "ok", VBool true)])), ann_world).
Proof.
  destruct (sign_in_and_health_ignore_the_cookie (platform := sample_platform) 0
              (request_of "GET" "/health" None) ann_world (Some (js "apx=%E0%A4%A")))
    as [Hsame Hok].
  - right. split; reflexivity.
  - rewrite Hsame. apply Hok. reflexivity.
Defined.

(** ** Who is let in *)

Section LetIn.
Context {platform : Platform}.

Lemma cookieGet_outcomes (req : request) (name : jsstring) :
  (exists v, cookieGet req name = Ok v) \/ cookieGet req name = Throw URIError.
Proof.
  unfold cookieGet. destruct (cookie_match name (or_string (cookie_header req) [])) as [v |].
  - destruct (decodeURIComponent v) as [d |]; [left; now exists d | now right].
  - left. now exists [].
Qed.

(** X29. The three ends of [requireSession].  It returns the identifier
    and the user exactly when the [apx] cookie decodes to an identifier
    that is not empty and names a stored session; it throws the URIError
    when the cookie does not decode; in every other case it throws the 302
    response to [/].  It never writes. *)
Theorem requireSession_three_ways (req : request) (w : world) :
  snd (requireSession req w) = w
  /\ (forall id user,
        fst (requireSession req w) = Ok (id, user)
        <-> (id <> [] /\ cookieGet req (js "apx") = Ok id
             /\ SESS w !! (js "s:" ++ id) = Some user))
  /\ (fst (requireSession req w) = Throw URIError
      <-> cookieGet req (js "apx") = Throw URIError)
  /\ ((forall id user, fst (requireSession req w) <> Ok (id, user))
      -> cookieGet req (js "apx") <> Throw URIError
      -> fst (requireSession req w) = Throw (ThrownResponse (redirect (js "/")))).
Proof.
  split; [apply requireSession_same |].
  unfold requireSession, getSession, bind, lift.
  destruct (cookieGet_outcomes req (js "apx")) as [[[| c i] Hc] | Hc]; rewrite Hc; cbn [fst].
  - split; [| split].
    + intros id user. split; [discriminate |]. intros (Hne & [= <-] & _). congruence.
    + split; discriminate.
    + reflexivity.
  - destruct (SESS w !! (js "s:" ++ c :: i)) as [u |] eqn:Hs; cbn [fst].
    + split; [| split].
      * intros id user. split.
        -- intros [= <- <-]. split; [discriminate |]. split; [reflexivity | exact Hs].
        -- intros (_ & [= <-] & Hu). rewrite Hs in Hu. now injection Hu as ->.
      * split; discriminate.
      * intros H. now elim (H (c :: i) u).
    + split; [| split].
      * intros id user. split; [discriminate |].
        intros (_ & [= <-] & Hu). rewrite Hs in Hu. discriminate Hu.
      * split; discriminate.
      * reflexivity.
  - split; [| split].
    + intros id user. split; [discriminate |]. intros (_ & H & _). discriminate H.
    + split; reflexivity.
    + intros _ H. now elim H.
Qed.

(** X30. The deals page.  For a signed-in user, [GET /deals] shows the
    documents kept under the user's key prefix, all of them and each once,
    the most recently updated first, and writes nothing. *)
Theorem deals_page_shows_the_listing
    (fuel : nat) (req : request) (w : world) (sid : jsstring) (user : SessionUser) :
  method req = js "GET" ->
  pathname req = js "/deals" ->
  requireSession req w = (Ok (sid, user), w) ->
  (length (kv_keys (DEALS w) (deal_prefix (sub user))) < 100 * fuel)%nat ->
  exists deals,
    handle fuel req w = (Ok (HTML (DealsPage deals)), w)
    /\ deals ≡ₚ deals_of w (sub user)
    /\ StronglySorted newer_first deals
    /\ (forall id d, DEALS w !! deal_key (sub user) id = Some d -> d ∈ deals).
Proof.
  intros Hm Hp Hs Hfuel. exists (sort by_updatedAt_desc (deals_of w (sub user))).
  split; [| split; [apply sort_perm | split; [apply sort_sorted |]]].
  - rewrite (handle_deals fuel req Hm Hp). unfold deals_page.
    unfold bind at 1. rewrite Hs. unfold bind.
    now rewrite (listDeals_run fuel (sub user) w Hfuel).
  - intros id d Hd. apply (deals_of_elem w (sub user) _ d Hd). apply deal_key_under_prefix.
Qed.

End LetIn.

(** Ann's cookie opens her session. *)
Lemma requireSession_three_ways_witness :
  fst (requireSession (platform := sample_platform)
         (request_of "GET" "/deals" (Some (js "theme=dark; apx=sid-1"))) ann_world)
  = Ok (js "sid-1", ann).
Proof.
  destruct (requireSession_three_ways (platform := sample_platform)
              (request_of "GET" "/deals" (Some (js "theme=dark; apx=sid-1"))) ann_world)
    as (_ & Hin & _).
  apply Hin. split; [discriminate |]. split; reflexivity.
Defined.

(** Ann's deals page: her one deal. *)
Lemma deals_page_shows_the_listing_witness :
  exists deals,
    handle (platform := sample_platform) 1
      (request_of "GET" "/deals" (Some (js "apx=sid-1"))) ann_world
    = (Ok (HTML (DealsPage deals)), ann_world)
    /\ sample_deal (js "u:ann@example.com") 7 ∈ deals.
Proof.
  destruct (deals_page_shows_the_listing (platform := sample_platform) 1
              (request_of "GET" "/deals" (Some (js "apx=sid-1"))) ann_world (js "sid-1") ann
              eq_refl eq_refl) as (deals & Hrun & _ & _ & Hin).
  - vm_compute. reflexivity.
  - vm_compute. lia.
  - exists deals. split; [exact Hrun |].
    apply (Hin (js "7")). vm_compute. reflexivity.
Defined.
